(** * Retrieval store of the study-material backend (python_backend/rag.py)

    A shallow embedding of [RAGSystem]: the sentence chunker, the
    deterministic SHA-256 embedding, the FAISS-or-keyword store with its
    two files on disk, and [search].

    Conventions of the embedding.
    - A Python [str] is a [list ascii], one [ascii] per character
      (code points below 256); [str] turns a literal into such a list.
    - A Python [int] is a [Z]; [len] results are [nat] and are injected
      where the source mixes them with [int]s.
    - A Python [float] (and a numpy float32) is the rational number it
      holds, a [Q].  [float(n)] of a small integer is exact and is
      [inject_Z n].  The rounded float32 operations of numpy (norm,
      division) and the search of the FAISS index belong to external
      libraries and are fields of the interfaces [Numpy] and [Faiss].
    - An exception is an explicit constructor of the result type. *)

From Stdlib Require Import ZArith QArith List Ascii String Lia Bool Sorted.
From stdpp Require Import base list gmap strings.
Import ListNotations.

Local Open Scope Z_scope.
Local Open Scope list_scope.

(** ** Python built-ins used by the source *)

Module Py.

Definition pystr := list ascii.

Definition str (s : string) : pystr := list_ascii_of_string s.

(** [l[:k]]: a negative [k] counts from the end. *)
Definition upto {A} (k : Z) (l : list A) : list A :=
  if k <? 0
  then firstn (length l - Z.to_nat (- k)) l
  else firstn (Z.to_nat k) l.

(** [l[i]]: a negative [i] counts from the end; [None] is IndexError. *)
Definition getitem {A} (l : list A) (i : Z) : option A :=
  if i <? 0
  then (if i <? - Z.of_nat (length l) then None
        else nth_error l (Z.to_nat (Z.of_nat (length l) + i)))
  else nth_error l (Z.to_nat i).

(** [b * n] on a bytes object or list: empty for [n <= 0]. *)
Definition times {A} (b : list A) (n : Z) : list A :=
  concat (repeat b (Z.to_nat n)).

(** [min(a, b)]. *)
Definition min (a b : Z) : Z := Z.min a b.

(** [str.isspace] on one character (code points below 256). *)
Definition isspace (c : ascii) : bool :=
  let n := nat_of_ascii c in
  ((9 <=? n) && (n <=? 13) || (28 <=? n) && (n <=? 32)
   || (n =? 133) || (n =? 160))%nat.

(** [str.lower] on one character (code points below 256). *)
Definition lower_char (c : ascii) : ascii :=
  let n := nat_of_ascii c in
  if ((65 <=? n) && (n <=? 90)
      || (192 <=? n) && (n <=? 222) && negb (n =? 215))%nat
  then ascii_of_nat (n + 32)
  else c.

Definition lower (s : pystr) : pystr := map lower_char s.

Definition ascii_eqb (a b : ascii) : bool := Ascii.eqb a b.

(** [s.startswith(p)]. *)
Fixpoint startswith (p s : pystr) : bool :=
  match p, s with
  | [], _ => true
  | _ :: _, [] => false
  | a :: p', b :: s' => ascii_eqb a b && startswith p' s'
  end.

(** [w in s] for strings: [w] occurs as a substring of [s]. *)
Fixpoint contains (w s : pystr) : bool :=
  startswith w s ||
  match s with
  | [] => false
  | _ :: s' => contains w s'
  end.

(** [s.split()]: maximal runs of non-whitespace characters. *)
Fixpoint split_ws_go (cur : pystr) (s : pystr) : list pystr :=
  match s with
  | [] => match cur with [] => [] | _ => [cur] end
  | c :: s' =>
      if isspace c
      then match cur with
           | [] => split_ws_go [] s'
           | _ => cur :: split_ws_go [] s'
           end
      else split_ws_go (cur ++ [c]) s'
  end.

Definition split_ws (s : pystr) : list pystr := split_ws_go [] s.

Definition dot : ascii := "."%char.
Definition space : ascii := " "%char.

(** [s.split('. ')]: cut at every occurrence of the two characters,
    scanning from the left; always at least one piece. *)
Fixpoint split_dot_space (s : pystr) : list pystr :=
  match s with
  | [] => [[]]
  | c1 :: s' =>
      let keep :=
        match split_dot_space s' with
        | piece :: rest => (c1 :: piece) :: rest
        | [] => [[c1]]
        end in
      match s' with
      | c2 :: s'' =>
          if ascii_eqb c1 dot && ascii_eqb c2 space
          then [] :: split_dot_space s''
          else keep
      | [] => keep
      end
  end.

(** [sum(1 for x in l if p x)]. *)
Definition count_if {A} (p : A -> bool) (l : list A) : Z :=
  Z.of_nat (length (List.filter p l)).

End Py.


(** ** hashlib.sha256 (FIPS 180-4), on bytes held as integers 0..255 *)

Module SHA256.

Definition word := Z.
Definition wrap (x : Z) : word := x mod 2 ^ 32.
Definition add (x y : word) : word := wrap (x + y).
Definition rotr (n : Z) (x : word) : word :=
  Z.lor (Z.shiftr x n) (wrap (Z.shiftl x (32 - n))).
Definition shr (n : Z) (x : word) : word := Z.shiftr x n.
Definition inv (x : word) : word := Z.lxor x (2 ^ 32 - 1).

Definition Ch (x y z : word) : word :=
  Z.lxor (Z.land x y) (Z.land (inv x) z).
Definition Maj (x y z : word) : word :=
  Z.lxor (Z.lxor (Z.land x y) (Z.land x z)) (Z.land y z).
Definition Sum0 (x : word) : word :=
  Z.lxor (Z.lxor (rotr 2 x) (rotr 13 x)) (rotr 22 x).
Definition Sum1 (x : word) : word :=
  Z.lxor (Z.lxor (rotr 6 x) (rotr 11 x)) (rotr 25 x).
Definition sig0 (x : word) : word :=
  Z.lxor (Z.lxor (rotr 7 x) (rotr 18 x)) (shr 3 x).
Definition sig1 (x : word) : word :=
  Z.lxor (Z.lxor (rotr 17 x) (rotr 19 x)) (shr 10 x).

(** The round constants are the first 32 bits of the fractional parts
    of the cube roots of the first 64 primes, the initial state those of
    the square roots of the first 8. *)
Definition is_prime (n : nat) : bool :=
  forallb (fun d => negb (Nat.eqb (n mod d) 0)) (seq 2 (n - 2)).

Definition primes (count : nat) : list Z :=
  map Z.of_nat (firstn count (List.filter is_prime (seq 2 320))).

(** Largest [r] below [2 ^ bits] with [r ^ 3 <= n]. *)
Fixpoint cube_root (bits : nat) (n r : Z) : Z :=
  match bits with
  | O => r
  | S b =>
      let r' := r + 2 ^ Z.of_nat b in
      cube_root b n (if r' * r' * r' <=? n then r' else r)
  end.

Definition K : list word :=
  Eval vm_compute in
    map (fun p => wrap (cube_root 40 (p * 2 ^ 96) 0)) (primes 64).

Record state := State {
  ha : word; hb : word; hc : word; hd : word;
  he : word; hf : word; hg : word; hh : word }.

Definition H0 : state :=
  Eval vm_compute in
    match map (fun p => wrap (Z.sqrt (p * 2 ^ 64))) (primes 8) with
    | [a; b; c; d; e; f; g; h] => State a b c d e f g h
    | _ => State 0 0 0 0 0 0 0 0
    end.

(** Big-endian bytes of a number, [n] of them. *)
Fixpoint be_bytes (n : nat) (x : Z) : list Z :=
  match n with
  | O => []
  | S m => (Z.shiftr x (8 * Z.of_nat m)) mod 256 :: be_bytes m x
  end.

Definition be_word (bs : list Z) : word :=
  fold_left (fun acc b => acc * 256 + b) bs 0.

(** Message, the byte 0x80, zero bytes up to 56 modulo 64, and the bit
    length on 8 bytes. *)
Definition pad (msg : list Z) : list Z :=
  let len := Z.of_nat (length msg) in
  msg ++ [128] ++ repeat 0 (Z.to_nat ((55 - len) mod 64))
      ++ be_bytes 8 (8 * len).

(** The [n] successive groups of [size] elements of a list. *)
Fixpoint groups {A} (size n : nat) (l : list A) : list (list A) :=
  match n with
  | O => []
  | S m => firstn size l :: groups size m (skipn size l)
  end.

Definition block_words (block : list Z) : list word :=
  map be_word (groups 4 16 block).

(** Message schedule, most recent word first. *)
Fixpoint extend (n : nat) (w : list word) : list word :=
  match n with
  | O => w
  | S m =>
      let x := add (add (sig1 (nth 1 w 0)) (nth 6 w 0))
                   (add (sig0 (nth 14 w 0)) (nth 15 w 0)) in
      extend m (x :: w)
  end.

Definition schedule (block : list Z) : list word :=
  rev (extend 48 (rev (block_words block))).

Definition round (s : state) (kw : word * word) : state :=
  let '(k, w) := kw in
  let t1 := add (add (add (add (hh s) (Sum1 (he s)))
                           (Ch (he s) (hf s) (hg s))) k) w in
  let t2 := add (Sum0 (ha s)) (Maj (ha s) (hb s) (hc s)) in
  State (add t1 t2) (ha s) (hb s) (hc s)
        (add (hd s) t1) (he s) (hf s) (hg s).

Definition compress (h : state) (block : list Z) : state :=
  let s := fold_left round (combine K (schedule block)) h in
  State (add (ha h) (ha s)) (add (hb h) (hb s))
        (add (hc h) (hc s)) (add (hd h) (hd s))
        (add (he h) (he s)) (add (hf h) (hf s))
        (add (hg h) (hg s)) (add (hh h) (hh s)).

Definition state_bytes (s : state) : list Z :=
  be_bytes 4 (ha s) ++ be_bytes 4 (hb s) ++ be_bytes 4 (hc s)
    ++ be_bytes 4 (hd s) ++ be_bytes 4 (he s) ++ be_bytes 4 (hf s)
    ++ be_bytes 4 (hg s) ++ be_bytes 4 (hh s).

(** [hashlib.sha256(msg).digest()]. *)
Definition digest (msg : list Z) : list Z :=
  let padded := pad msg in
  state_bytes
    (fold_left compress (groups 64 (length padded / 64) padded) H0).

End SHA256.

Import Py.

(** ** External libraries, at the interface the source uses *)

(** numpy's float32 operations: [np.linalg.norm] and the component-wise
    division of a vector by a scalar. *)
Class Numpy := {
  norm : list Q -> Q;
  fdiv : Q -> Q -> Q
}.

Inductive exn :=
  IndexError | ValueError | AssertionError | KeyError | AttributeError.

Inductive outcome (A : Type) :=
| Returns (a : A)
| Raises (e : exn).
Arguments Returns {A} a.
Arguments Raises {A} e.

(** [faiss.IndexFlatL2]: its dimension [d] and the vectors added so far. *)
Record Index := mkIndex { d : Z; xb : list (list Q) }.

(** [index.search(query_vector, k)]: the rows [distances[0]] and
    [indices[0]], or the exception faiss raises. *)
Class Faiss := {
  index_search : Index -> list Q -> Z -> outcome (list Q * list Z)
}.

(** ** Data of the store *)

(** One dict of [self.metadata]. *)
Record doc := mkDoc {
  id : pystr;
  content : pystr;
  source : pystr;
  vector : option (list Q)
}.

(** One dict returned by [search]; only the FAISS path keeps the id. *)
Record result := mkResult {
  r_id : option pystr;
  r_content : pystr;
  r_source : pystr;
  r_score : Q
}.

(** [self.index] and [self.metadata]. *)
Record RAG := mkRAG {
  index : option Index;
  metadata : list doc
}.

(** The module-level switches and [self.embeddings]. *)
Record Config := mkConfig {
  FAISS_AVAILABLE : bool;
  EMBEDDINGS_AVAILABLE : bool;
  embeddings : bool;
  RecursiveCharacterTextSplitter : option (pystr -> list pystr)
}.

(** A file of the store: readable with a content, or one whose read
    raises. *)
Inductive file (A : Type) :=
| Readable (a : A)
| Corrupt.
Arguments Readable {A} a.
Arguments Corrupt {A}.

(** [self.index_path] and [self.metadata_path]; [None] when the path
    does not exist. *)
Record Disk := mkDisk {
  index_file : option (file Index);
  metadata_file : option (file (list doc))
}.

(** What a call of [add_documents] leaves behind: its return value or
    exception, and the object and the files at that moment. *)
Record after_add := mkAfter {
  returned : outcome (list pystr);
  rag_after : RAG;
  disk_after : Disk
}.

(** ** _text_to_vector *)

(** [text.encode()]: UTF-8 of code points below 256. *)
Definition encode (text : pystr) : list Z :=
  flat_map (fun c =>
              let n := Z.of_nat (nat_of_ascii c) in
              if n <? 128 then [n] else [192 + n / 64; 128 + n mod 64])
           text.

Definition Qgtb (a b : Q) : bool := negb (Qle_bool a b).

Definition _text_to_vector `{Numpy} (text : pystr) (dimension : Z) : list Q :=
  let hash_bytes := SHA256.digest (encode text) in
  let repeated :=
    times hash_bytes (dimension / Z.of_nat (length hash_bytes) + 1) in
  let vector := map inject_Z (upto dimension repeated) in
  let n := norm vector in
  if Qgtb n 0 then map (fun x => fdiv x n) vector else vector.

(** The algorithm as the specification words it: append the digest to a
    buffer until the buffer is at least [dimension] long, cut it at
    [dimension] bytes, read the bytes as numbers and normalise. *)
Fixpoint tile_until (fuel : nat) (dimension : nat) (digest buf : list Z)
  : list Z :=
  if (dimension <=? length buf)%nat then buf
  else match fuel with
       | O => buf
       | S fuel' => tile_until fuel' dimension digest (buf ++ digest)
       end.

Definition reference_embedding `{Numpy} (text : pystr) (dimension : Z)
  : list Q :=
  let digest := SHA256.digest (encode text) in
  let n := Z.to_nat dimension in
  let tiled := tile_until n n digest [] in
  let bytes := firstn n tiled in
  let v := map inject_Z bytes in
  if Qgtb (norm v) 0 then map (fun x => fdiv x (norm v)) v else v.

(** ** The sentence chunker of add_documents (lines 123 to 134) *)

Definition dot_space : pystr := [dot; space].

(** One turn of the inner loop over the sentences. *)
Definition chunk_step (st : list pystr * pystr) (sentence : pystr)
  : list pystr * pystr :=
  let '(chunks, current_chunk) := st in
  if (length current_chunk + length sentence <? 500)%nat
  then (chunks, current_chunk ++ sentence ++ dot_space)
  else match current_chunk with
       | [] => (chunks, sentence ++ dot_space)
       | _ => (chunks ++ [current_chunk], sentence ++ dot_space)
       end.

(** The chunks one text contributes. *)
Definition sentence_chunks (text : pystr) : list pystr :=
  let sentences := split_dot_space text in
  let '(chunks, current_chunk) := fold_left chunk_step sentences ([], []) in
  match current_chunk with
  | [] => chunks
  | _ => chunks ++ [current_chunk]
  end.

Definition split_texts (cfg : Config) (texts : list pystr) : list pystr :=
  match RecursiveCharacterTextSplitter cfg with
  | Some split_text => flat_map split_text texts
  | None => flat_map sentence_chunks texts
  end.

(** ** load_index, save_index and __init__ *)

Definition empty_rag : RAG := mkRAG None [].

(** The [try] block reads the index file when FAISS is there and the path
    exists, then the metadata file when its path exists; any exception
    resets both attributes. *)
Definition load_index (cfg : Config) (disk : Disk) (self : RAG) : RAG :=
  let index_read : option (option Index) :=
    if FAISS_AVAILABLE cfg
    then match index_file disk with
         | Some (Readable i) => Some (Some i)
         | Some Corrupt => None
         | None => Some (index self)
         end
    else Some (index self) in
  match index_read with
  | None => empty_rag
  | Some idx =>
      match metadata_file disk with
      | Some (Readable m) => mkRAG idx m
      | Some Corrupt => empty_rag
      | None => mkRAG idx (metadata self)
      end
  end.

(** [RAGSystem(user_id)]: empty attributes, then [load_index]. *)
Definition init (cfg : Config) (disk : Disk) : RAG :=
  load_index cfg disk empty_rag.

(** Lines 95 to 103, when the writes succeed: an exception of
    [faiss.write_index], [open], [pickle.dump] or [print] is outside
    the model, and so is what a write that fails leaves of a file. *)
Definition save_index (cfg : Config) (self : RAG) (disk : Disk) : Disk :=
  let index_file' :=
    match index self with
    | Some i => if FAISS_AVAILABLE cfg then Some (Readable i)
                else index_file disk
    | None => index_file disk
    end in
  mkDisk index_file' (Some (Readable (metadata self))).

(** ** add_documents *)

(** [str(n)] for a non-negative integer. *)
Fixpoint decimal_go (fuel n : nat) (acc : pystr) : pystr :=
  match fuel with
  | O => acc
  | S fuel' =>
      let acc' := ascii_of_nat (48 + n mod 10) :: acc in
      if (n / 10 =? 0)%nat then acc' else decimal_go fuel' (n / 10) acc'
  end.

Definition decimal (n : nat) : pystr := decimal_go (S n) n [].

(** [np.array] accepts a list of rows of one length. *)
Definition rectangular (rows : list (list Q)) : bool :=
  match rows with
  | [] => true
  | r :: rest => forallb (fun x => (length x =? length r)%nat) rest
  end.

(** [arr.shape[1]]: an empty list of rows is a one-dimensional array and
    has no second axis. *)
Definition shape1 (arr : list (list Q)) : outcome Z :=
  match arr with
  | [] => Raises IndexError
  | r :: _ => Returns (Z.of_nat (length r))
  end.

(** [index.add(arr)]: faiss unpacks [n, d = arr.shape] and asserts that
    [d] is the index's. *)
Definition index_add (i : Index) (arr : list (list Q)) : outcome Index :=
  match arr with
  | [] => Raises ValueError
  | r :: _ =>
      if Z.of_nat (length r) =? d i
      then Returns (mkIndex (d i) (xb i ++ arr))
      else Raises AssertionError
  end.

(** Lines 136 to 151; [response] is what [aembed_documents] answers,
    [None] when it raises. *)
Definition embed_chunks `{Numpy} (cfg : Config) (chunks : list pystr)
  (response : option (list (list Q))) : list (list Q) :=
  let dimension := 384 in
  let fallback := map (fun chunk => _text_to_vector chunk dimension) chunks in
  if embeddings cfg && EMBEDDINGS_AVAILABLE cfg
  then match response with
       | Some rows => if rectangular rows then rows else fallback
       | None => fallback
       end
  else fallback.

(** Lines 153 to 158. *)
Definition update_index (cfg : Config) (self : RAG)
  (embeddings_array : list (list Q)) : outcome (option Index) :=
  if FAISS_AVAILABLE cfg
  then
    match index self with
    | None =>
        match shape1 embeddings_array with
        | Raises e => Raises e
        | Returns dimension =>
            match index_add (mkIndex dimension []) embeddings_array with
            | Returns i => Returns (Some i)
            | Raises e => Raises e
            end
        end
    | Some i =>
        match index_add i embeddings_array with
        | Returns i' => Returns (Some i')
        | Raises e => Raises e
        end
    end
  else Returns (index self).

(** Lines 161 to 171, from the [i]-th chunk on. *)
Fixpoint store_metadata (cfg : Config) (embeddings_array : list (list Q))
  (source : pystr) (start_id i : nat) (chunks : list pystr)
  (metadata : list doc) (vector_ids : list pystr)
  : outcome (list pystr) * list doc :=
  match chunks with
  | [] => (Returns vector_ids, metadata)
  | chunk :: rest =>
      let vector_id := str "vec_" ++ decimal (start_id + i) in
      let continue v :=
        store_metadata cfg embeddings_array source start_id (S i) rest
          (metadata ++ [mkDoc vector_id chunk source v])
          (vector_ids ++ [vector_id]) in
      if FAISS_AVAILABLE cfg then continue None
      else match nth_error embeddings_array i with
           | Some row => continue (Some row)
           | None => (Raises IndexError, metadata)
           end
  end.

Definition add_documents `{Numpy} (cfg : Config) (self : RAG) (disk : Disk)
  (texts : list pystr) (source : pystr)
  (response : option (list (list Q))) : after_add :=
  let chunks := split_texts cfg texts in
  let embeddings_array := embed_chunks cfg chunks response in
  match update_index cfg self embeddings_array with
  | Raises e => mkAfter (Raises e) self disk
  | Returns index' =>
      let start_id := length (metadata self) in
      match store_metadata cfg embeddings_array source start_id 0 chunks
                           (metadata self) [] with
      | (Raises e, metadata') =>
          mkAfter (Raises e) (mkRAG index' metadata') disk
      | (Returns vector_ids, metadata') =>
          let self' := mkRAG index' metadata' in
          mkAfter (Returns vector_ids) self' (save_index cfg self' disk)
      end
  end.

(** ** search *)

Definition sentinel (query : pystr) : result :=
  mkResult None (str "No documents found for: " ++ query) (str "System") 0.

(** The word count of the keyword path (line 228). *)
Definition keyword_score (query_lower : pystr) (doc_content : pystr) : Z :=
  let content_lower := lower doc_content in
  count_if (fun word => contains word content_lower) (split_ws query_lower).

(** Lines 225 to 234. *)
Definition scored (query_lower : pystr) (metadata : list doc) : list result :=
  flat_map (fun doc =>
              let score := keyword_score query_lower (content doc) in
              if score >? 0
              then [mkResult None (content doc) (source doc) (inject_Z score)]
              else [])
           metadata.

(** [list.sort(key=score, reverse=True)]: stable, larger scores first. *)
Fixpoint insert_desc (x : result) (l : list result) : list result :=
  match l with
  | [] => [x]
  | y :: l' =>
      if Qgtb (r_score y) (r_score x) then y :: insert_desc x l'
      else x :: l
  end.

Definition sort_desc (l : list result) : list result :=
  fold_right insert_desc [] l.

Definition keyword_search (self : RAG) (query : pystr) (k : Z)
  : list result :=
  let query_lower := lower query in
  let scored_docs := sort_desc (scored query_lower (metadata self)) in
  let results := upto k scored_docs in
  match results with
  | [] => map (fun doc => mkResult None (content doc) (source doc) 0)
              (upto k (metadata self))
  | _ => results
  end.

(** Lines 210 to 216, from the [i]-th neighbour on. *)
Fixpoint retrieve (metadata : list doc) (distances : list Q) (i : nat)
  (indices : list Z) (results : list result) : outcome (list result) :=
  match indices with
  | [] => Returns results
  | idx :: rest =>
      if idx <? Z.of_nat (length metadata)
      then match getitem metadata idx with
           | None => Raises IndexError
           | Some doc =>
               match nth_error distances i with
               | None => Raises IndexError
               | Some dist =>
                   retrieve metadata distances (S i) rest
                     (results ++ [mkResult (Some (id doc)) (content doc)
                                           (source doc) dist])
               end
           end
      else retrieve metadata distances (S i) rest results
  end.

(** [response] is what [aembed_query] answers, [None] when it raises. *)
Definition search `{Numpy} `{Faiss} (cfg : Config) (self : RAG)
  (query : pystr) (k : Z) (response : option (list Q))
  : outcome (list result) :=
  if (length (metadata self) =? 0)%nat
  then Returns [sentinel query]
  else
    let k := Py.min k (Z.of_nat (length (metadata self))) in
    match (if FAISS_AVAILABLE cfg then index self else None) with
    | Some idx =>
        let dimension := d idx in
        let fallback := _text_to_vector query dimension in
        let query_vector :=
          if embeddings cfg && EMBEDDINGS_AVAILABLE cfg
          then match response with Some v => v | None => fallback end
          else fallback in
        match index_search idx query_vector k with
        | Raises e => Raises e
        | Returns (distances, indices) =>
            retrieve (metadata self) distances 0 indices []
        end
    | None => Returns (keyword_search self query k)
    end.

(** ** A store over its lifetime *)

Record ingest := mkIngest {
  texts : list pystr;
  ingest_source : pystr;
  provider_response : option (list (list Q))
}.

(** The store built over a disk, after the given calls of
    [add_documents], with the disk they leave. *)
Definition run `{Numpy} (cfg : Config) (disk : Disk) (calls : list ingest)
  : RAG * Disk :=
  fold_left
    (fun '(self, disk) c =>
       let a := add_documents cfg self disk (texts c) (ingest_source c)
                              (provider_response c) in
       (rag_after a, disk_after a))
    calls (init cfg disk, disk).

(** ** search over the object graph

    [self.metadata] is a list of references to dicts, and [search] hands
    out dicts of its own.  To state what [search] leaves untouched, this
    second embedding keeps the dicts in a heap and runs [search] as a
    program over the attributes of [self] and that heap. *)

Module Graph.

Inductive value :=
| VNone
| VStr (s : pystr)
| VFloat (x : Q)
| VList (v : list Q).

Abbreviation dict := (gmap string value).
Abbreviation loc := nat.

(** The attributes of [self] and the dicts alive. *)
Record store := mkStore {
  s_index : option Index;
  s_metadata : list loc;
  s_heap : list dict
}.

(** A computation that reads and writes the store and may raise. *)
Definition M (A : Type) : Type := store -> outcome A * store.

Definition ret {A} (a : A) : M A := fun s => (Returns a, s).
Definition raise {A} (e : exn) : M A := fun s => (Raises e, s).
Definition bind {A B} (m : M A) (f : A -> M B) : M B :=
  fun s =>
    match m s with
    | (Returns a, s') => f a s'
    | (Raises e, s') => (Raises e, s')
    end.

Notation "x <- m ;; f" := (bind m (fun x => f))
  (at level 100, m at next level, right associativity).
Notation "m ;;; f" := (bind m (fun _ => f))
  (at level 100, f at level 200, right associativity).

Definition get_index : M (option Index) :=
  fun s => (Returns (s_index s), s).
Definition get_metadata : M (list loc) :=
  fun s => (Returns (s_metadata s), s).

(** The dict a reference points to. *)
Definition read (l : loc) : M dict :=
  fun s => (Returns (default ∅ (s_heap s !! l)), s).
(** A new dict object. *)
Definition alloc (dct : dict) : M loc :=
  fun s => (Returns (length (s_heap s)),
            mkStore (s_index s) (s_metadata s) (s_heap s ++ [dct])).
(** Mutation in place of the dict a reference points to. *)
Definition write (l : loc) (dct : dict) : M unit :=
  fun s => (Returns tt,
            mkStore (s_index s) (s_metadata s) (<[l := dct]> (s_heap s))).

(** [obj[key]]. *)
Definition dict_getitem (l : loc) (key : string) : M value :=
  dct <- read l ;;
  match dct !! key with
  | Some v => ret v
  | None => raise KeyError
  end.
(** [obj.copy()]. *)
Definition dict_copy (l : loc) : M loc :=
  dct <- read l ;; alloc dct.
(** [obj.pop(key, None)]. *)
Definition dict_pop (l : loc) (key : string) : M unit :=
  dct <- read l ;; write l (delete key dct).
(** [obj[key] = v]. *)
Definition dict_setitem (l : loc) (key : string) (v : value) : M unit :=
  dct <- read l ;; write l (<[key := v]> dct).

(** [{"content": c, "source": s, "score": x}]. *)
Definition new_result (c s : value) (x : Q) : M loc :=
  alloc (<["content" := c]> (<["source" := s]>
           (<["score" := VFloat x]> ∅))).

(** [doc["content"].lower()]. *)
Definition content_lower (doc : loc) : M pystr :=
  c <- dict_getitem doc "content" ;;
  match c with
  | VStr s => ret (lower s)
  | _ => raise AttributeError
  end.

(** Lines 225 to 234. *)
Fixpoint scored (query_lower : pystr) (metadata : list loc)
  (scored_docs : list loc) : M (list loc) :=
  match metadata with
  | [] => ret scored_docs
  | doc :: rest =>
      cl <- content_lower doc ;;
      let score :=
        count_if (fun word => contains word cl) (split_ws query_lower) in
      if score >? 0
      then c <- dict_getitem doc "content" ;;
           s <- dict_getitem doc "source" ;;
           r <- new_result c s (inject_Z score) ;;
           scored query_lower rest (scored_docs ++ [r])
      else scored query_lower rest scored_docs
  end.

(** [x["score"]] as the sort reads it. *)
Definition score_of (heap : list dict) (l : loc) : Q :=
  match default ∅ (heap !! l) !! "score" with
  | Some (VFloat x) => x
  | _ => 0%Q
  end.

Fixpoint insert_desc (heap : list dict) (x : loc) (l : list loc)
  : list loc :=
  match l with
  | [] => [x]
  | y :: l' =>
      if Qgtb (score_of heap y) (score_of heap x)
      then y :: insert_desc heap x l'
      else x :: l
  end.

(** [scored_docs.sort(key=lambda x: x["score"], reverse=True)]. *)
Definition sort_desc (scored_docs : list loc) : M (list loc) :=
  fun s => (Returns (fold_right (insert_desc (s_heap s)) [] scored_docs), s).

(** Lines 242 to 249. *)
Fixpoint first_documents (docs : list loc) (results : list loc)
  : M (list loc) :=
  match docs with
  | [] => ret results
  | doc :: rest =>
      c <- dict_getitem doc "content" ;;
      s <- dict_getitem doc "source" ;;
      r <- new_result c s 0 ;;
      first_documents rest (results ++ [r])
  end.

Definition keyword_search (query : pystr) (k : Z) : M (list loc) :=
  metadata <- get_metadata ;;
  scored_docs <- scored (lower query) metadata [] ;;
  scored_docs <- sort_desc scored_docs ;;
  match upto k scored_docs with
  | [] => first_documents (upto k metadata) []
  | results => ret results
  end.

(** Lines 210 to 216. *)
Fixpoint retrieve (metadata : list loc) (distances : list Q) (i : nat)
  (indices : list Z) (results : list loc) : M (list loc) :=
  match indices with
  | [] => ret results
  | idx :: rest =>
      if idx <? Z.of_nat (length metadata)
      then match getitem metadata idx with
           | None => raise IndexError
           | Some doc =>
               r <- dict_copy doc ;;
               dict_pop r "vector" ;;;
               match nth_error distances i with
               | None => raise IndexError
               | Some dist =>
                   dict_setitem r "score" (VFloat dist) ;;;
                   retrieve metadata distances (S i) rest (results ++ [r])
               end
           end
      else retrieve metadata distances (S i) rest results
  end.

Definition search `{Numpy} `{Faiss} (cfg : Config) (query : pystr) (k : Z)
  (response : option (list Q)) : M (list loc) :=
  metadata <- get_metadata ;;
  if (length metadata =? 0)%nat
  then r <- new_result (VStr (str "No documents found for: " ++ query))
                       (VStr (str "System")) 0 ;;
       ret [r]
  else
    let k := Py.min k (Z.of_nat (length metadata)) in
    index <- get_index ;;
    match (if FAISS_AVAILABLE cfg then index else None) with
    | Some idx =>
        let dimension := d idx in
        let fallback := _text_to_vector query dimension in
        let query_vector :=
          if embeddings cfg && EMBEDDINGS_AVAILABLE cfg
          then match response with Some v => v | None => fallback end
          else fallback in
        match index_search idx query_vector k with
        | Raises e => raise e
        | Returns (distances, indices) =>
            retrieve metadata distances 0 indices []
        end
    | None => keyword_search query k
    end.

(** The dict of a record of the first embedding, and the store that
    holds a list of records. *)
Definition doc_dict (x : doc) : dict :=
  <["id" := VStr (id x)]> (<["content" := VStr (content x)]>
    (<["source" := VStr (source x)]>
       (<["vector" := match vector x with
                      | Some v => VList v
                      | None => VNone
                      end]> ∅))).

Definition store_of (self : RAG) : store :=
  mkStore (index self) (seq 0 (length (metadata self)))
          (map doc_dict (metadata self)).

(** A result dict read back as a record. *)
Definition result_of (heap : list dict) (l : loc) : option result :=
  let dct := default ∅ (heap !! l) in
  match dct !! "content", dct !! "source", dct !! "score" with
  | Some (VStr c), Some (VStr s), Some (VFloat x) =>
      Some (mkResult match dct !! "id" with
                     | Some (VStr i) => Some i
                     | _ => None
                     end c s x)
  | _, _, _ => None
  end.

(** The store [s] still has the attributes of [s0], and every dict of
    [s0] at its place, unchanged; it may hold new dicts after them. *)
Definition untouched (s0 s : store) : Prop :=
  s_index s = s_index s0
  /\ s_metadata s = s_metadata s0
  /\ exists fresh, s_heap s = s_heap s0 ++ fresh.

(** Started from a store that leaves [s0] untouched, [m] ends in such a
    store, and what it returns satisfies [post]. *)
Definition keeps {A} (s0 : store) (m : M A) (post : A -> Prop) : Prop :=
  forall s, untouched s0 s ->
            untouched s0 (snd (m s))
            /\ forall a, fst (m s) = Returns a -> post a.

(** A reference to a dict made after [s0]. *)
Definition fresh_in (s0 : store) (l : loc) : Prop :=
  (length (s_heap s0) <= l)%nat.

(** No condition on what is returned. *)
Definition any {A} (a : A) : Prop := True.

(** The store holds the records [md] at the references 0, 1, ... in this
    order, and possibly more dicts after them. *)
Definition holds (md : list doc) (s : store) : Prop :=
  s_metadata s = seq 0 (length md)
  /\ exists fresh, s_heap s = map doc_dict md ++ fresh.

(** The dicts at [ls] read back as the records [rs]. *)
Definition results_are (heap : list dict) (ls : list loc)
  (rs : list result) : Prop :=
  map (result_of heap) ls = map Some rs
  /\ Forall (fun l => (l < length heap)%nat) ls.

End Graph.

(** ** Concrete libraries and stores to run the embedding on *)

Module Example.

Definition sum_squares (v : list Q) : Q :=
  fold_right (fun x acc => Qred (x * x + acc)) 0%Q v.

(** A numpy whose norm is rounded down to a multiple of 2^-16 and whose
    division is exact. *)
Definition numpy_fixed : Numpy := {|
  norm v :=
    let s := sum_squares v in
    Qred (Qmake (Z.sqrt (Qnum s * 2 ^ 32 / Zpos (Qden s))) (2 ^ 16));
  fdiv x n := Qred (x / n)
|}.

Definition sqdist (a b : list Q) : Q :=
  sum_squares (map (fun '(x, y) => (x - y)%Q) (combine a b)).

Fixpoint insert_asc (x : Q * Z) (l : list (Q * Z)) : list (Q * Z) :=
  match l with
  | [] => [x]
  | y :: l' =>
      if Qgtb (fst x) (fst y) then y :: insert_asc x l' else x :: l
  end.

(** An exhaustive index: the [k] nearest stored vectors, nearest first,
    filled up with the index -1 and the largest float32 as the distance
    when fewer are stored. *)
Definition flat_faiss : Faiss := {|
  index_search idx query k :=
    if (k <=? 0) || negb (Z.of_nat (length query) =? d idx)
    then Raises AssertionError
    else
      let dists := map (sqdist query) (xb idx) in
      let ranked :=
        fold_right insert_asc []
          (combine dists (map Z.of_nat (seq 0 (length dists)))) in
      let found := firstn (Z.to_nat k) ranked in
      let missing := (Z.to_nat k - length found)%nat in
      Returns (map fst found
                 ++ repeat (inject_Z (2 ^ 128 - 2 ^ 104)) missing,
               map snd found ++ repeat (-1) missing)
|}.

Definition keyword_cfg : Config := mkConfig false false false None.
Definition faiss_cfg : Config := mkConfig true false false None.
Definition provider_cfg : Config := mkConfig false true true None.

Definition no_disk : Disk := mkDisk None None.

Definition bio_texts : list pystr :=
  [str "The mitochondria is the powerhouse of the cell.";
   str "Unrelated sentence about weather."].

(** The store after ingesting the two texts, without FAISS and with the
    sentence chunker. *)
Definition bio `{Numpy} : after_add :=
  add_documents keyword_cfg (init keyword_cfg no_disk) no_disk
                bio_texts (str "bio.txt") None.

Definition mito_chunk : pystr :=
  str "The mitochondria is the powerhouse of the cell.. ".
Definition weather_chunk : pystr :=
  str "Unrelated sentence about weather.. ".

(** Two one-word records. *)
Definition two_docs : RAG :=
  mkRAG None [mkDoc (str "vec_0") (str "alpha") (str "a.txt") None;
              mkDoc (str "vec_1") (str "beta") (str "a.txt") None].

Definition unit_index : Index := mkIndex 2 [[1%Q; 0%Q]].

(** A store with an index of dimension 2 and its one record. *)
Definition indexed : RAG :=
  mkRAG (Some unit_index)
        [mkDoc (str "vec_0") (str "alpha") (str "a.txt") None].

(** Without FAISS and with an embedding provider: a first call where
    the provider raises, so that the embeddings have 384 components, and
    a second call where it answers with 3 components. *)
Definition first_add `{Numpy} : after_add :=
  add_documents provider_cfg (init provider_cfg no_disk) no_disk
                [str "a"] (str "n.txt") None.

Definition second_add `{Numpy} : after_add :=
  add_documents provider_cfg (rag_after first_add) (disk_after first_add)
                [str "b"] (str "n.txt") (Some [[1%Q; 2%Q; 3%Q]]).

(** The two texts ingested with FAISS. *)
Definition bio_faiss `{Numpy} : after_add :=
  add_documents faiss_cfg (init faiss_cfg no_disk) no_disk
                bio_texts (str "bio.txt") None.

(** An index file that cannot be read next to readable records. *)
Definition corrupt_index_disk : Disk :=
  mkDisk (Some Corrupt) (Some (Readable (metadata two_docs))).

(** A readable index file without the metadata file. *)
Definition index_only_disk : Disk :=
  mkDisk (Some (Readable unit_index)) None.

End Example.

(** ** Notions the statements use *)

(** A read that [load_index] attempts raises. *)
Definition read_raises (cfg : Config) (disk : Disk) : Prop :=
  (FAISS_AVAILABLE cfg = true /\ index_file disk = Some Corrupt)
  \/ metadata_file disk = Some Corrupt.

(** No path that [load_index] looks at exists. *)
Definition nothing_stored (cfg : Config) (disk : Disk) : Prop :=
  metadata_file disk = None
  /\ (FAISS_AVAILABLE cfg = true -> index_file disk = None).

(** What ties a store to its files: under FAISS, a store without an
    index either has no record or has no index file on disk. *)
Definition in_step (cfg : Config) (self : RAG) (disk : Disk) : Prop :=
  FAISS_AVAILABLE cfg = true ->
  index self = None ->
  metadata self = [] \/ index_file disk = None.

(** [search] takes the keyword path: FAISS is missing or the store has
    no index. *)
Definition keyword_mode (cfg : Config) (self : RAG) : Prop :=
  FAISS_AVAILABLE cfg = false \/ index self = None.

(** [w] occurs in [s]. *)
Definition substring (w s : pystr) : Prop :=
  exists pre post, s = pre ++ w ++ post.

(** [n] of the words occur in [s]. *)
Inductive words_found (s : pystr) : list pystr -> nat -> Prop :=
| words_found_nil : words_found s [] 0
| words_found_in (w : pystr) (ws : list pystr) (n : nat) :
    substring w s -> words_found s ws n -> words_found s (w :: ws) (S n)
| words_found_out (w : pystr) (ws : list pystr) (n : nat) :
    ~ substring w s -> words_found s ws n -> words_found s (w :: ws) n.

(** A result is a record of the store, with its content and source, and
    its score is the number of words of the lower-cased query, cut at
    whitespace, that occur in the lower-cased content. *)
Definition scores_record (query : pystr) (md : list doc) (r : result)
  : Prop :=
  exists doc n,
    In doc md
    /\ r_content r = content doc
    /\ r_source r = source doc
    /\ words_found (lower (content doc)) (split_ws (lower query)) n
    /\ r_score r = inject_Z (Z.of_nat n).

(** [a] may stand before [b]: its score is not the smaller one. *)
Definition not_below (a b : result) : Prop := (r_score b <= r_score a)%Q.

(** The records with a score above zero, in insertion order. *)
Definition matching (query : pystr) (md : list doc) : list doc :=
  List.filter (fun doc => keyword_score (lower query) (content doc) >? 0)
              md.

(** A record as the padding returns it. *)
Definition zero_scored (doc : doc) : result :=
  mkResult None (content doc) (source doc) 0.

(** The sentences, each followed by ". ". *)
Definition with_dot_space (sentences : list pystr) : pystr :=
  concat (map (fun s => s ++ dot_space) sentences).

(** The chunks a loop state stands for once the buffer is flushed. *)
Definition flushed (st : list pystr * pystr) : list pystr :=
  match snd st with
  | [] => fst st
  | _ => fst st ++ [snd st]
  end.

(** A sentence of 500 characters or more that the loop has seen is a
    chunk of its own, or is the buffer. *)
Definition kept_whole (seen : list pystr) (st : list pystr * pystr)
  : Prop :=
  forall s, In s seen -> (500 <= length s)%nat ->
            In (s ++ dot_space) (fst st) \/ snd st = s ++ dot_space.

(** [n] copies of a block in a row. *)
Definition tiles (block : list Z) (n : nat) : list Z :=
  concat (repeat block n).

(** * The services, the agents and further notions *)

(** ** Notions for the chunker, the embedding and the ids *)

(** A chunk within the target size, or one sentence of 500 characters or
    more on its own. *)
Definition sized_chunk (sentences : list pystr) (c : pystr) : Prop :=
  (length c <= 501)%nat
  \/ exists s, In s sentences /\ (500 <= length s)%nat /\ c = s ++ dot_space.

(** The loop state stands for whole sentences: the chunks for [groups],
    the buffer for [current]. *)
Definition grouped (seen : list pystr) (st : list pystr * pystr) : Prop :=
  exists (groups : list (list pystr)) (current : list pystr),
    concat groups ++ current = seen
    /\ Forall (fun g => g <> []) groups
    /\ fst st = map with_dot_space groups
    /\ snd st = with_dot_space current.

(** [f"vec_{n}"]. *)
Definition vec_id (n : nat) : pystr := str "vec_" ++ decimal n.

(** [int(s)] for a string of decimal digits. *)
Definition digits_value (s : pystr) : nat :=
  fold_left (fun acc c => (10 * acc + (nat_of_ascii c - 48))%nat) s 0%nat.

(** The ids of the records are vec_0, vec_1, ... in this order. *)
Definition numbered (md : list doc) : Prop :=
  map id md = map vec_id (seq 0 (length md)).

(** ** Notions for the store and its searches *)

(** The index and the records go together: no index and no record, or an
    index of dimension 384 with one vector of 384 components per record. *)
Definition aligned (self : RAG) : Prop :=
  match index self with
  | None => metadata self = []
  | Some i =>
      d i = 384
      /\ length (xb i) = length (metadata self)
      /\ Forall (fun v => length v = 384%nat) (xb i)
  end.

(** A result carries the content and the source of a record of the
    store. *)
Definition from_store (md : list doc) (r : result) : Prop :=
  exists doc,
    In doc md /\ r_content r = content doc /\ r_source r = source doc.

(** ** More built-ins *)

Module PyText.

(** [a == b] on strings. *)
Fixpoint str_eqb (a b : pystr) : bool :=
  match a, b with
  | [], [] => true
  | x :: a', y :: b' => ascii_eqb x y && str_eqb a' b'
  | _, _ => false
  end.

(** The ASCII letters, the cased characters of ASCII text. *)
Definition ascii_cased (c : ascii) : bool :=
  let n := nat_of_ascii c in
  ((65 <=? n) && (n <=? 90) || (97 <=? n) && (n <=? 122))%nat.

Definition ascii_upper_char (c : ascii) : ascii :=
  let n := nat_of_ascii c in
  if ((97 <=? n) && (n <=? 122))%nat then ascii_of_nat (n - 32) else c.

(** [str.title] on ASCII text: a letter after a letter is lower-cased,
    a letter after anything else is upper-cased. *)
Fixpoint title_go (previous_is_cased : bool) (s : pystr) : pystr :=
  match s with
  | [] => []
  | c :: s' =>
      (if previous_is_cased then lower_char c else ascii_upper_char c)
        :: title_go (ascii_cased c) s'
  end.

Definition title (s : pystr) : pystr := title_go false s.

(** [sep.join(parts)]. *)
Fixpoint join (sep : pystr) (parts : list pystr) : pystr :=
  match parts with
  | [] => []
  | [p] => p
  | p :: rest => p ++ sep ++ join sep rest
  end.

Definition newline : ascii := ascii_of_nat 10.

End PyText.

(** ** services/ingest.py *)

Module Ingest.

Import PyText.

(** One dict of [extract_topics_from_text]. *)
Record topic_data := mkTopicData {
  name : pystr;
  importance : Z;
  mastery : Z
}.

Definition keywords : list pystr :=
  [str "database"; str "sql"; str "algorithm"; str "data structure";
   str "network"; str "security"].

Definition default_topics : list topic_data :=
  [mkTopicData (str "General Concepts") 7 50;
   mkTopicData (str "Core Principles") 8 50].

Definition extract_topics_from_text (text : pystr) : list topic_data :=
  let text_lower := lower text in
  let found_topics :=
    flat_map (fun keyword =>
                if contains keyword text_lower
                then [mkTopicData (title keyword) 8 50]
                else [])
             keywords in
  let found_topics :=
    match found_topics with
    | [] => default_topics
    | _ => found_topics
    end in
  upto 10 found_topics.

(** What the readers of the file give: the text of each page of a PDF,
    the text of an image, the content of a text file.  The readers are
    taken to have returned. *)
Record readers := mkReaders {
  pdf_pages : list pystr;
  image_text : pystr;
  txt_content : pystr
}.

(** Lines 19 to 41; [file_ext] is [os.path.splitext(file_path)[1]],
    lower-cased. *)
Definition extracted_text (file_ext : pystr) (r : readers) : pystr :=
  if str_eqb file_ext (str ".pdf")
  then fold_left (fun acc text => acc ++ text ++ [newline; newline])
                 (pdf_pages r) []
  else if existsb (str_eqb file_ext) [str ".png"; str ".jpg"; str ".jpeg"]
  then image_text r
  else if str_eqb file_ext (str ".txt")
  then txt_content r
  else str "Unsupported file format".

(** The rows [process_document] adds to the session; the ids and dates
    the database fills in are left out. *)
Record Document := mkDocument {
  doc_userId : pystr;
  filename : pystr;
  contentType : pystr;
  extractedText : pystr;
  vectorIds : list pystr
}.

Record Topic := mkTopic {
  topic_userId : pystr;
  topic_name : pystr;
  importanceScore : Z;
  masteryScore : Z
}.

Inductive row :=
| DocumentRow (x : Document)
| TopicRow (x : Topic).

(** What a call of [process_document] leaves: its return value or
    exception, the rows committed, the store and the files. *)
Record processed := mkProcessed {
  topics_returned : outcome (list Topic);
  session_after : list row;
  rag_processed : RAG;
  disk_processed : Disk
}.

(** [ext] is the extension of the path as [os.path.splitext] gives it,
    [basename] the result of [os.path.basename]. *)
Definition process_document `{Numpy} (cfg : Config) (disk : Disk)
  (session : list row) (user_id ext basename : pystr) (r : readers)
  (response : option (list (list Q))) : processed :=
  let file_ext := lower ext in
  let text := extracted_text file_ext r in
  let rag := init cfg disk in
  let a := add_documents cfg rag disk [text] basename response in
  match returned a with
  | Raises e => mkProcessed (Raises e) session (rag_after a) (disk_after a)
  | Returns vector_ids =>
      let document :=
        mkDocument user_id basename file_ext (upto 5000 text) vector_ids in
      let topics_data := extract_topics_from_text text in
      let topics :=
        map (fun topic_data =>
               mkTopic user_id (name topic_data) (importance topic_data)
                       (mastery topic_data))
            topics_data in
      mkProcessed (Returns topics)
                  (session ++ DocumentRow document :: map TopicRow topics)
                  (rag_after a) (disk_after a)
  end.

End Ingest.

(** ** agents/teacher.py, without a language model *)

Module Teacher.

Import PyText.

Record lesson := mkLesson {
  overview : pystr;
  concepts : list pystr;
  steps : list pystr;
  pitfalls : list pystr;
  practiceTip : pystr;
  citations : list pystr
}.

(** Lines 28 to 31: the excerpts handed to the language model. *)
Definition context (relevant_docs : list result) : pystr :=
  join [newline; newline]
       (map (fun doc => str "[Source: " ++ r_source doc ++ str "]"
                        ++ [newline] ++ r_content doc)
            relevant_docs).

(** Lines 59 to 76, the lesson made up when [self.llm] is [None]. *)
Definition mock_lesson (topic_name : pystr) (relevant_docs : list result)
  : lesson :=
  mkLesson
    (str "This lesson covers " ++ topic_name ++ str " in detail.")
    [str "Core concept 1 of " ++ topic_name;
     str "Core concept 2 of " ++ topic_name;
     str "Core concept 3 of " ++ topic_name]
    [str "Step 1: Understand the basics of " ++ topic_name;
     str "Step 2: Practice with examples";
     str "Step 3: Apply to real problems"]
    [str "Common mistake 1"; str "Common mistake 2"]
    (str "Practice " ++ topic_name ++ str " daily for best results")
    (map r_source relevant_docs).

(** [generate_lesson] when [self.llm] is [None]: a new [RAGSystem] over
    the files, [search] with [k=5], and the mock lesson; the prompt built
    from [context] goes to [act], which does not read it then. *)
Definition generate_lesson `{Numpy} `{Faiss} (cfg : Config) (disk : Disk)
  (topic_name : pystr) (response : option (list Q)) : outcome lesson :=
  let rag := init cfg disk in
  match search cfg rag topic_name 5 response with
  | Raises e => Raises e
  | Returns relevant_docs => Returns (mock_lesson topic_name relevant_docs)
  end.

End Teacher.

(** ** Notions for the ingestion and the lessons *)

(** The extensions [process_document] has a reader for. *)
Definition supported (file_ext : pystr) : bool :=
  existsb (PyText.str_eqb file_ext)
          [str ".pdf"; str ".png"; str ".jpg"; str ".jpeg"; str ".txt"].

(** A citation names the source of a record of the store. *)
Definition cites (md : list doc) (citation : pystr) : Prop :=
  exists doc, In doc md /\ citation = source doc.

(** ** agents/quizgen.py: generate_mock_exam *)

Module QuizGen.

(** [str(n)] for an integer. *)
Definition repr_int (n : Z) : pystr :=
  if n <? 0 then "-"%char :: decimal (Z.to_nat (- n))
  else decimal (Z.to_nat n).

(** One dict of the list [questions]. *)
Record question := mkQuestion {
  q_id : pystr;
  q_question : pystr;
  q_marks : Z;
  q_rubric : pystr;
  q_topicId : pystr
}.

Record exam := mkExam {
  title : pystr;
  questions : list question;
  instructions : pystr
}.

(** The body of the inner loop: the state is the list [questions] and
    the counter [question_id]. *)
Definition add_question (marks_per_topic : Z) (topic_id : pystr)
  (st : list question * nat) : list question * nat :=
  let '(questions, question_id) := st in
  let marks := marks_per_topic / 2 in
  (questions
     ++ [mkQuestion
           (str "q" ++ decimal question_id)
           (str "Question " ++ decimal question_id ++ str " on topic "
              ++ topic_id)
           marks
           (repr_int marks ++ str " marks for complete answer")
           topic_id],
   S question_id).

(** The body of the outer loop, with [for i in range(2)]. *)
Definition topic_questions (marks_per_topic : Z)
  (st : list question * nat) (topic_id : pystr) : list question * nat :=
  fold_left (fun st (i : nat) => add_question marks_per_topic topic_id st)
            (seq 0 2) st.

(** [//] is the division of [Z], rounding down. *)
Definition generate_mock_exam (exam_type : pystr) (duration total_marks : Z)
  (topics : list pystr) : exam :=
  let marks_per_topic :=
    match topics with
    | [] => total_marks
    | _ => total_marks / Z.of_nat (length topics)
    end in
  let questions :=
    fst (fold_left (topic_questions marks_per_topic) topics ([], 1%nat)) in
  mkExam (exam_type ++ str " Mock Exam")
         questions
         (str "Answer all questions. Time limit: " ++ repr_int duration
            ++ str " minutes. Total marks: " ++ repr_int total_marks
            ++ str ".").

(** [sum(q["marks"] for q in questions)]. *)
Definition total (questions : list question) : Z :=
  fold_left (fun acc q => acc + q_marks q) questions 0.

End QuizGen.

(** [f"q{n}"]. *)
Definition q_name (n : nat) : pystr := str "q" ++ decimal n.

(** ** Floating point *)

(** The doubles of Python as the rationals they stand for, with the
    rounding to the nearest double, ties to the even significand. *)
Module Float64.

(** [p / q] rounded to the nearest integer, ties to the even one
    ([0 < q]). *)
Definition round_half_even (p q : Z) : Z :=
  let floor := p / q in
  let twice := 2 * (p mod q) in
  if twice <? q then floor
  else if q <? twice then floor + 1
  else if Z.even floor then floor else floor + 1.

(** [a / b / 2 ^ e] as a numerator and a denominator. *)
Definition scaled (a b e : Z) : Z * Z :=
  if 0 <=? e then (a, b * 2 ^ e) else (a * 2 ^ (- e), b).

(** The exponent of the last place of the doubles around [a / b]
    ([0 < a], [0 < b]): [a / b / 2 ^ e] lies between [2 ^ 52] and
    [2 ^ 53], or [e] is the least exponent, -1074. *)
Definition last_place (a b : Z) : Z :=
  let e := Z.log2 a - Z.log2 b - 53 in
  let '(p, q) := scaled a b e in
  Z.max (if 2 ^ 53 <=? p / q then e + 1 else e) (- 1074).

(** The double nearest to [a / b] ([0 < a], [0 < b]); [None] when the
    rounding gives [2 ^ 1024] or more. *)
Definition nearest_positive (a b : Z) : option Q :=
  let e := last_place a b in
  let '(p, q) := scaled a b e in
  let m := round_half_even p q in
  if 0 <=? e
  then (if 2 ^ 1024 <=? m * 2 ^ e then None
        else Some (inject_Z (m * 2 ^ e)))
  else Some (Qred (m # Z.to_pos (2 ^ (- e)))).

(** The double nearest to the rational [x]. *)
Definition nearest (x : Q) : option Q :=
  let a := Qnum x in
  let b := Zpos (Qden x) in
  if a =? 0 then Some 0%Q
  else if 0 <? a then nearest_positive a b
  else option_map Qopp (nearest_positive (- a) b).

(** [float(n)] for an integer; [None] is OverflowError. *)
Definition of_int (n : Z) : option Q := nearest (inject_Z n).

(** [a / b] on integers, [b] positive; [None] is OverflowError. *)
Definition true_divide (a b : Z) : option Q := nearest (a # Z.to_pos b).

(** [x * y] on doubles; [None] is an infinity. *)
Definition mul (x y : Q) : option Q := nearest (x * y).

(** [int(x)] on a double: towards zero. *)
Definition to_int (x : Q) : Z := Z.quot (Qnum x) (Zpos (Qden x)).

(** A literal. *)
Definition literal (x : Q) : Q :=
  match nearest x with Some y => y | None => 0%Q end.

End Float64.

(** ** agents/evaluator.py: grade_submission *)

Module Evaluator.

Import PyText.

Inductive error := KeyError | UnboundLocalError | OverflowError.

Inductive raising (A : Type) :=
| Done (a : A)
| Raised (e : error).
Arguments Done {A} a.
Arguments Raised {A} e.

(** A question is a dict of the exam, with the keys [generate_mock_exam]
    gives it.  An answer is a dict of the client: the key "questionId"
    may be missing, and so may "answer", a string. *)
Record answer := mkAnswer {
  questionId : option pystr;
  answer_text : option pystr
}.

(** [answer.get("answer", "")]. *)
Definition get_answer (a : answer) : pystr :=
  match answer_text a with Some s => s | None => [] end.

(** The dict bound to [grading]. *)
Record grading_dict := mkGrading {
  marksAwarded : Z;
  feedback : pystr
}.

(** What the language model answers to a prompt, as far as the code
    reads it: text that is no JSON, or a JSON object with an integer
    "marksAwarded" and a string "feedback". *)
Inductive reply :=
| NotJson
| Json (grading : grading_dict).

Record graded_answer := mkGraded {
  g_questionId : pystr;
  g_answer : pystr;
  g_marksAwarded : Z;
  g_feedback : pystr
}.

Record breakdown := mkBreakdown {
  earned : Z;
  possible : Z
}.

(** The variables of [grade_submission] that live across the iterations
    of its loop, and the number of calls of [act] so far.  [grading] is
    unbound at first. *)
Record locals := mkLocals {
  graded_answers : list graded_answer;
  topic_breakdown : list (pystr * breakdown);
  grading : option grading_dict;
  calls : nat
}.

(** Line 25: the first question with the id of the answer.  The key
    "questionId" is read once for every question looked at. *)
Definition find_question (questions : list QuizGen.question) (a : answer)
  : raising (option QuizGen.question) :=
  match questions with
  | [] => Done None
  | _ =>
      match questionId a with
      | None => Raised KeyError
      | Some i =>
          Done (find (fun q => str_eqb (QuizGen.q_id q) i) questions)
      end
  end.

(** [int(marks * factor)]. *)
Definition int_of_product (marks : Z) (factor : Q) : raising Z :=
  match Float64.of_int marks with
  | None => Raised OverflowError
  | Some x =>
      match Float64.mul x factor with
      | None => Raised OverflowError
      | Some y => Done (Float64.to_int y)
      end
  end.

(** Lines 49 to 59, the branch without a language model: it binds
    [marks_awarded] and [feedback]. *)
Definition mock_grading (question : QuizGen.question) (a : answer)
  : raising (Z * pystr) :=
  let answer_length := Z.of_nat (length (get_answer a)) in
  let graded_with factor feedback :=
    match int_of_product (QuizGen.q_marks question) (Float64.literal factor)
    with
    | Raised e => Raised e
    | Done marks_awarded => Done (marks_awarded, feedback)
    end in
  if answer_length >? 100
  then graded_with (8 # 10) (str "Good comprehensive answer")
  else if answer_length >? 20
  then graded_with (5 # 10) (str "Adequate but could be more detailed")
  else graded_with (2 # 10) (str "Answer needs more depth and examples").

(** Lines 73 to 78: the dict [topic_breakdown], in the order of its
    keys. *)
Fixpoint credit (topic_id : pystr) (marks_awarded marks : Z)
  (topic_breakdown : list (pystr * breakdown))
  : list (pystr * breakdown) :=
  match topic_breakdown with
  | [] => [(topic_id, mkBreakdown (0 + marks_awarded) (0 + marks))]
  | (key, b) :: rest =>
      if str_eqb key topic_id
      then (key, mkBreakdown (earned b + marks_awarded) (possible b + marks))
             :: rest
      else (key, b) :: credit topic_id marks_awarded marks rest
  end.

(** Lines 46 and 47 with lines 60 to 64: the reply parsed, or the
    grading of the handler of JSONDecodeError. *)
Definition llm_grading (r : reply) (question : QuizGen.question)
  : grading_dict :=
  match r with
  | Json g => g
  | NotJson =>
      mkGrading (QuizGen.q_marks question / 2)
                (str "Answer partially addresses the question")
  end.

(** The body of the loop.  [llm] is [None] when [self.llm] is, and else
    gives the reply to the n-th call of [act]. *)
Definition grade_answer (llm : option (nat -> reply))
  (questions : list QuizGen.question) (st : locals) (a : answer)
  : raising locals :=
  match find_question questions a with
  | Raised e => Raised e
  | Done None => Done st
  | Done (Some question) =>
      let result := calls st in
      let bound : raising (option grading_dict) :=
        match llm with
        | Some replies => Done (Some (llm_grading (replies result) question))
        | None =>
            match mock_grading question a with
            | Raised e => Raised e
            | Done _ => Done (grading st)
            end
        end in
      match bound with
      | Raised e => Raised e
      | Done None => Raised UnboundLocalError
      | Done (Some g) =>
          Done (mkLocals
                  (graded_answers st
                     ++ [mkGraded
                           (match questionId a with
                            | Some i => i
                            | None => []
                            end)
                           (get_answer a) (marksAwarded g) (feedback g)])
                  (credit (QuizGen.q_topicId question) (marksAwarded g)
                          (QuizGen.q_marks question) (topic_breakdown st))
                  (Some g)
                  (S (calls st)))
      end
  end.

Fixpoint grade_answers (llm : option (nat -> reply))
  (questions : list QuizGen.question) (answers : list answer) (st : locals)
  : raising locals :=
  match answers with
  | [] => Done st
  | a :: rest =>
      match grade_answer llm questions st a with
      | Raised e => Raised e
      | Done st' => grade_answers llm questions rest st'
      end
  end.

Record submission := mkSubmission {
  score : Z;
  answers : list graded_answer;
  topicBreakdown : list (pystr * breakdown)
}.

(** [sum(a["marksAwarded"] for a in graded_answers)]. *)
Definition total_awarded (graded : list graded_answer) : Z :=
  fold_left (fun acc a => acc + g_marksAwarded a) graded 0.

(** Line 81. *)
Definition percent (total_earned total_marks : Z) : raising Z :=
  if total_marks >? 0
  then
    match Float64.true_divide total_earned total_marks with
    | None => Raised OverflowError
    | Some ratio =>
        match Float64.mul ratio 100 with
        | None => Raised OverflowError
        | Some x => Done (Float64.to_int x)
        end
    end
  else Done 0.

Definition grade_submission (llm : option (nat -> reply))
  (questions : list QuizGen.question) (submitted : list answer)
  : raising submission :=
  let total_marks := QuizGen.total questions in
  match grade_answers llm questions submitted (mkLocals [] [] None 0) with
  | Raised e => Raised e
  | Done st =>
      let total_earned := total_awarded (graded_answers st) in
      match percent total_earned total_marks with
      | Raised e => Raised e
      | Done score =>
          Done (mkSubmission score (graded_answers st) (topic_breakdown st))
      end
  end.

End Evaluator.

(** ** Notions for the grading *)

(** The question an answer names, if any. *)
Definition named (questions : list QuizGen.question) (a : Evaluator.answer)
  : option QuizGen.question :=
  match Evaluator.questionId a with
  | Some i => find (fun q => PyText.str_eqb (QuizGen.q_id q) i) questions
  | None => None
  end.

(** The answers that name a question, each with its question, in the
    order of the submission. *)
Definition matched (questions : list QuizGen.question)
  (submitted : list Evaluator.answer)
  : list (Evaluator.answer * QuizGen.question) :=
  flat_map (fun a => match named questions a with
                     | Some q => [(a, q)]
                     | None => []
                     end)
           submitted.

(** The entry of a topic in the breakdown. *)
Definition breakdown_of (topic_id : pystr)
  (topic_breakdown : list (pystr * Evaluator.breakdown))
  : option Evaluator.breakdown :=
  option_map snd
    (find (fun entry => PyText.str_eqb (fst entry) topic_id)
          topic_breakdown).

(** The graded answers to questions of a topic, each with its
    question. *)
Definition on_topic (topic_id : pystr)
  (graded : list (Evaluator.graded_answer * QuizGen.question))
  : list (Evaluator.graded_answer * QuizGen.question) :=
  List.filter (fun p => PyText.str_eqb (QuizGen.q_topicId (snd p)) topic_id)
              graded.

Definition sum_Z (l : list Z) : Z := fold_right Z.add 0 l.

(** What the breakdown should say of the graded answers [graded]. *)
Definition tally (graded : list (Evaluator.graded_answer * QuizGen.question))
  : option Evaluator.breakdown :=
  match graded with
  | [] => None
  | _ =>
      Some (Evaluator.mkBreakdown
              (sum_Z (map (fun p => Evaluator.g_marksAwarded (fst p)) graded))
              (sum_Z (map (fun p => QuizGen.q_marks (snd p)) graded)))
  end.

(** The graded answers of the answers that name a question, when the
    first of them gets the [n]-th reply. *)
Fixpoint graded_from (replies : nat -> Evaluator.reply) (n : nat)
  (pairs : list (Evaluator.answer * QuizGen.question))
  : list Evaluator.graded_answer :=
  match pairs with
  | [] => []
  | (a, q) :: rest =>
      let g := Evaluator.llm_grading (replies n) q in
      Evaluator.mkGraded (QuizGen.q_id q) (Evaluator.get_answer a)
                         (Evaluator.marksAwarded g) (Evaluator.feedback g)
        :: graded_from replies (S n) rest
  end.

(** The breakdown after the graded answer [fst p] to the question
    [snd p] is entered. *)
Definition credited (tb : list (pystr * Evaluator.breakdown))
  (p : Evaluator.graded_answer * QuizGen.question)
  : list (pystr * Evaluator.breakdown) :=
  Evaluator.credit (QuizGen.q_topicId (snd p))
                   (Evaluator.g_marksAwarded (fst p))
                   (QuizGen.q_marks (snd p)) tb.

(** ** An exam and a submission *)

Module Sitting.

Import Evaluator.

(** The two questions of an exam of 100 marks on one topic. *)
Definition midterm : QuizGen.exam :=
  QuizGen.generate_mock_exam (str "Midterm") 60 100 [str "t1"].

(** An answer to the first question, an answer to no question and an
    answer without text to the second question. *)
Definition sheet : list answer :=
  [mkAnswer (Some (str "q1")) (Some (str "A table has rows."));
   mkAnswer (Some (str "q9")) (Some (str "Nothing."));
   mkAnswer (Some (str "q2")) None].

(** A language model whose first reply is a grading and whose later
    replies are no JSON. *)
Definition examiner (n : nat) : reply :=
  match n with
  | O => Json (mkGrading 40 (str "Good"))
  | S _ => NotJson
  end.

Definition marked : submission :=
  mkSubmission 65
    [mkGraded (str "q1") (str "A table has rows.") 40 (str "Good");
     mkGraded (str "q2") [] 25
              (str "Answer partially addresses the question")]
    [(str "t1", mkBreakdown 65 100)].

End Sitting.

(** ** pdfExtraction/main.py *)

Module PdfExtraction.

Import PyText.

(** [str.isupper], [str.islower] and [str.isalpha] on one character
    (code points below 256). *)
Definition char_isupper (c : ascii) : bool :=
  let n := nat_of_ascii c in
  ((65 <=? n) && (n <=? 90) || (192 <=? n) && (n <=? 214)
   || (216 <=? n) && (n <=? 222))%nat.

Definition char_islower (c : ascii) : bool :=
  let n := nat_of_ascii c in
  ((97 <=? n) && (n <=? 122) || (n =? 170) || (n =? 181) || (n =? 186)
   || (223 <=? n) && (n <=? 246) || (248 <=? n) && (n <=? 255))%nat.

Definition char_isalpha (c : ascii) : bool :=
  char_isupper c || char_islower c.

(** [s.isupper()]: no lower-case character and at least one upper-case
    one. *)
Definition isupper (s : pystr) : bool :=
  negb (existsb char_islower s) && existsb char_isupper s.

(** [s.isalpha()]: false of the empty string. *)
Definition isalpha (s : pystr) : bool :=
  match s with
  | [] => false
  | _ => forallb char_isalpha s
  end.

Fixpoint lstrip (s : pystr) : pystr :=
  match s with
  | [] => []
  | c :: s' => if isspace c then lstrip s' else s
  end.

Definition rstrip (s : pystr) : pystr := rev (lstrip (rev s)).

(** [s.strip()]. *)
Definition strip (s : pystr) : pystr := rstrip (lstrip s).

(** [text.split("\n")]: always at least one piece. *)
Fixpoint split_lines (s : pystr) : list pystr :=
  match s with
  | [] => [[]]
  | c :: s' =>
      if ascii_eqb c newline then [] :: split_lines s'
      else match split_lines s' with
           | piece :: rest => (c :: piece) :: rest
           | [] => [[c]]
           end
  end.

(** [w[0].isupper()]; the words asked are alphabetic, so not empty. *)
Definition starts_upper (w : pystr) : bool :=
  match w with
  | c :: _ => char_isupper c
  | [] => false
  end.

Definition is_heading (line : pystr) : bool :=
  let line_clean := strip line in
  match line_clean with
  | [] => false
  | _ =>
      if isupper line_clean then true
      else
        let words := split_ws line_clean in
        (length words <=? 8)%nat
        && forallb starts_upper (List.filter isalpha words)
  end.

(** One dict of [results]. *)
Record section := mkSection {
  topic : pystr;
  content : pystr
}.

(** The variables of the loop of [extract_topics_and_content]. *)
Record state := mkState {
  results : list section;
  current_topic : option pystr;
  current_content : list pystr
}.

(** [if current_topic:] and the dict appended under it. *)
Definition flushed_topic (st : state) : option section :=
  match current_topic st with
  | Some (c :: t) =>
      Some (mkSection (strip (c :: t))
                      (strip (join [newline] (current_content st))))
  | _ => None
  end.

Definition read_line (st : state) (line : pystr) : state :=
  if is_heading line
  then
    match flushed_topic st with
    | Some s => mkState (results st ++ [s]) (Some (strip line)) []
    | None => mkState (results st) (Some (strip line)) (current_content st)
    end
  else
    mkState (results st) (current_topic st) (current_content st ++ [line]).

(** [text] is what [extract_text] gives for the file. *)
Definition extract_topics_and_content (text : pystr) : list section :=
  let lines := split_lines text in
  let st := fold_left read_line lines (mkState [] None []) in
  match flushed_topic st with
  | Some s => results st ++ [s]
  | None => results st
  end.

End PdfExtraction.

(** ** Notions for the outline of a text *)

(** The lines before the first heading, and after them every heading
    with the lines that follow it up to the next heading. *)
Fixpoint outline (lines : list pystr)
  : list pystr * list (pystr * list pystr) :=
  match lines with
  | [] => ([], [])
  | line :: rest =>
      let '(lead, sections) := outline rest in
      if PdfExtraction.is_heading line
      then ([], (line, lead) :: sections)
      else (line :: lead, sections)
  end.

(** The dict of a heading and the lines under it. *)
Definition section_of (heading : pystr) (body : list pystr)
  : PdfExtraction.section :=
  PdfExtraction.mkSection
    (PdfExtraction.strip heading)
    (PdfExtraction.strip (PyText.join [PyText.newline] body)).

(** The loop has no topic yet, or a topic that is not the empty
    string. *)
Definition topic_set (st : PdfExtraction.state) : Prop :=
  match PdfExtraction.current_topic st with
  | Some [] => False
  | _ => True
  end.

(** * Properties *)

(** ** The built-ins and the digest on known values *)

Example split_dot_space_pieces :
  split_dot_space (str "a. b. . c.") = [str "a"; str "b"; str ""; str "c."].
Proof. reflexivity. Qed.

Example split_dot_space_only_separator :
  split_dot_space (str ". ") = [str ""; str ""].
Proof. reflexivity. Qed.

Example split_ws_words :
  split_ws (str "  mitochondria   powerhouse ")
  = [str "mitochondria"; str "powerhouse"].
Proof. reflexivity. Qed.

Example lower_letters : lower (str "The Cell, 42") = str "the cell, 42".
Proof. reflexivity. Qed.

Example upto_slices :
  upto 2 [1; 2; 3] = [1; 2] /\ upto 5 [1; 2; 3] = [1; 2; 3]
  /\ upto (-1) [1; 2; 3] = [1; 2] /\ upto (-5) [1; 2; 3] = [].
Proof. repeat split. Qed.

Example getitem_from_the_end :
  getitem [1; 2; 3] (-1) = Some 3 /\ getitem [1; 2; 3] (-4) = None
  /\ getitem [1; 2; 3] 3 = None.
Proof. repeat split. Qed.

Example decimal_digits : decimal 0 = str "0" /\ decimal 1234 = str "1234".
Proof. split; reflexivity. Qed.

(** The first and the last round constant, and the digests of "abc" and
    of the empty message (ba7816bf ... 15ad, e3b0c442 ... b855). *)
Example sha256_constants :
  nth 0 SHA256.K 0 = 1116352408 /\ nth 63 SHA256.K 0 = 3329325298
  /\ length SHA256.K = 64%nat /\ SHA256.ha SHA256.H0 = 1779033703.
Proof. repeat split. Qed.

Example sha256_abc :
  SHA256.digest (encode (str "abc"))
  = [186; 120; 22; 191; 143; 1; 207; 234; 65; 65; 64; 222; 93; 174; 34; 35;
     176; 3; 97; 163; 150; 23; 122; 156; 180; 16; 255; 97; 242; 0; 21; 173].
Proof. vm_compute. reflexivity. Qed.

Example sha256_empty :
  SHA256.digest (encode (str ""))
  = [227; 176; 196; 66; 152; 252; 28; 20; 154; 251; 244; 200; 153; 111; 185;
     36; 39; 174; 65; 228; 100; 155; 147; 76; 164; 149; 153; 27; 120; 82;
     184; 85].
Proof. vm_compute. reflexivity. Qed.


Section Store.

Context {np : Numpy} {fa : Faiss}.

(** ** The empty store *)

(** C6: on a store without records, whatever the index, the query and
    [k], [search] returns one record and raises nothing; the record
    carries the query in its message, the source "System", the score
    0.0 and no id. *)
Theorem search_empty_store_sentinel (cfg : Config) (idx : option Index)
  (query : pystr) (k : Z) (response : option (list Q)) :
  exists r,
    search cfg (mkRAG idx []) query k response = Returns [r]
    /\ r_content r = str "No documents found for: " ++ query
    /\ r_source r = str "System"
    /\ r_score r = 0%Q
    /\ r_id r = None.
Proof.
  exists (sentinel query). unfold search; simpl. repeat split.
Qed.

(** ** Loading *)

(** A missing file is skipped: the other one is still loaded. *)
Lemma load_index_missing_metadata (cfg : Config) (disk : Disk) (i : Index) :
  FAISS_AVAILABLE cfg = true ->
  index_file disk = Some (Readable i) ->
  metadata_file disk = None ->
  init cfg disk = mkRAG (Some i) [].
Proof.
  intros Hf Hi Hm. unfold init, load_index. rewrite Hf, Hi, Hm. reflexivity.
Qed.

Lemma load_index_missing_index (cfg : Config) (disk : Disk) (m : list doc) :
  index_file disk = None ->
  metadata_file disk = Some (Readable m) ->
  init cfg disk = mkRAG None m.
Proof.
  intros Hi Hm. unfold init, load_index. rewrite Hi, Hm.
  destruct (FAISS_AVAILABLE cfg); reflexivity.
Qed.

Lemma load_index_empty (cfg : Config) (disk : Disk) :
  read_raises cfg disk \/ nothing_stored cfg disk ->
  init cfg disk = empty_rag.
Proof.
  unfold init, load_index, read_raises, nothing_stored.
  intros [[[Hf Hi] | Hm] | [Hm Hi]].
  - rewrite Hf, Hi. reflexivity.
  - rewrite Hm. destruct (FAISS_AVAILABLE cfg); [| reflexivity].
    destruct (index_file disk) as [[i|]|]; reflexivity.
  - rewrite Hm. destruct (FAISS_AVAILABLE cfg); [| reflexivity].
    rewrite Hi by reflexivity. reflexivity.
Qed.

(** C8, as amended: [load_index] returns a store on every disk (the
    embedding has no exception to propagate).  It yields the empty store
    when a read it attempts raises and when no file it looks at exists.
    A file that is only missing is skipped: a readable index file
    without metadata file gives that index and no record, a readable
    metadata file without index file gives its records and no index. *)
Theorem load_index_recovers (cfg : Config) (disk : Disk) :
  (read_raises cfg disk \/ nothing_stored cfg disk ->
   init cfg disk = empty_rag)
  /\ (forall i : Index,
        FAISS_AVAILABLE cfg = true ->
        index_file disk = Some (Readable i) ->
        metadata_file disk = None ->
        init cfg disk = mkRAG (Some i) [])
  /\ (forall m : list doc,
        index_file disk = None ->
        metadata_file disk = Some (Readable m) ->
        init cfg disk = mkRAG None m).
Proof.
  split; [apply load_index_empty |].
  split; [apply load_index_missing_metadata | apply load_index_missing_index].
Qed.

(** ** add_documents *)

Lemma store_metadata_spec (cfg : Config) (arr : list (list Q))
  (src : pystr) (start : nat) (chunks : list pystr) :
  forall (i : nat) (md : list doc) (ids : list pystr)
         (out : list pystr) (md' : list doc),
    store_metadata cfg arr src start i chunks md ids = (Returns out, md') ->
    exists new,
      md' = md ++ new
      /\ out = ids ++ map id new
      /\ map content new = chunks
      /\ Forall (fun x => source x = src) new
      /\ Forall (fun x => vector x = None <-> FAISS_AVAILABLE cfg = true) new.
Proof.
  induction chunks as [| chunk rest IH]; intros i md ids out md' Hrun.
  - simpl in Hrun. inversion Hrun; subst. exists [].
    rewrite !app_nil_r. repeat split; constructor.
  - simpl in Hrun.
    destruct (FAISS_AVAILABLE cfg) eqn:Hf.
    + apply IH in Hrun as (new & -> & -> & Hc & Hs & Hv).
      eexists (_ :: new). rewrite <- !app_assoc. simpl.
      repeat split; try reflexivity.
      * now rewrite Hc.
      * constructor; [reflexivity | assumption].
      * constructor; [simpl; tauto | assumption].
    + destruct (nth_error arr i) as [row |] eqn:Hrow; [| discriminate].
      apply IH in Hrun as (new & -> & -> & Hc & Hs & Hv).
      eexists (_ :: new). rewrite <- !app_assoc. simpl.
      repeat split; try reflexivity.
      * now rewrite Hc.
      * constructor; [reflexivity | assumption].
      * constructor; [simpl; split; discriminate | assumption].
Qed.

(** Without FAISS the [j]-th record appended holds the row of the
    embeddings that the loop read for it. *)
Lemma store_metadata_vectors (cfg : Config) (arr : list (list Q))
  (src : pystr) (start : nat) (chunks : list pystr) :
  FAISS_AVAILABLE cfg = false ->
  forall (i : nat) (md : list doc) (ids : list pystr)
         (out : list pystr) (md' : list doc),
    store_metadata cfg arr src start i chunks md ids = (Returns out, md') ->
    exists new,
      md' = md ++ new
      /\ forall (j : nat) (x : doc),
          nth_error new j = Some x ->
          exists row,
            nth_error arr (i + j) = Some row /\ vector x = Some row.
Proof.
  intros Hf. induction chunks as [| chunk rest IH];
    intros i md ids out md' Hrun.
  - simpl in Hrun. inversion Hrun; subst. exists [].
    rewrite app_nil_r. split; [reflexivity |].
    intros [| j] x; discriminate.
  - simpl in Hrun. rewrite Hf in Hrun.
    destruct (nth_error arr i) as [row |] eqn:Hrow; [| discriminate].
    apply IH in Hrun as (new & -> & Hnew).
    eexists (_ :: new). rewrite <- app_assoc. split; [reflexivity |].
    intros [| j] x Hx.
    + injection Hx as <-. exists row. rewrite Nat.add_0_r. now split.
    + rewrite Nat.add_succ_r. apply (Hnew j x Hx).
Qed.

(** The rows of the fallback: the vector of each chunk. *)
Lemma embed_chunks_without_provider (cfg : Config)
  (chunks : list pystr) (response : option (list (list Q))) :
  embeddings cfg && EMBEDDINGS_AVAILABLE cfg = false ->
  embed_chunks cfg chunks response
  = map (fun chunk => _text_to_vector chunk 384) chunks.
Proof. unfold embed_chunks. now intros ->. Qed.

(** C9, as amended: a call of [add_documents] that returns has
    appended one record per chunk, in the order of the chunks, each with
    its content and the source; the vector of a new record is null
    exactly when FAISS is available, and is the embedding otherwise:
    the row of the chunk in the array of the embeddings, which, when no
    provider is in use, is the vector [_text_to_vector] gives for the
    content of the record; the records on disk are those of the
    store. *)
Theorem add_documents_records (cfg : Config) (self : RAG) (disk : Disk)
  (texts : list pystr) (src : pystr) (response : option (list (list Q)))
  (ids : list pystr) :
  returned (add_documents cfg self disk texts src response) = Returns ids ->
  exists new,
    metadata (rag_after (add_documents cfg self disk texts src response))
      = metadata self ++ new
    /\ map content new = split_texts cfg texts
    /\ map id new = ids
    /\ Forall (fun x => source x = src) new
    /\ Forall (fun x => vector x = None <-> FAISS_AVAILABLE cfg = true) new
    /\ metadata_file
         (disk_after (add_documents cfg self disk texts src response))
       = Some (Readable (metadata self ++ new))
    /\ (FAISS_AVAILABLE cfg = false ->
        forall (j : nat) (x : doc),
          nth_error new j = Some x ->
          (exists row,
              nth_error (embed_chunks cfg (split_texts cfg texts) response) j
              = Some row
              /\ vector x = Some row)
          /\ (embeddings cfg && EMBEDDINGS_AVAILABLE cfg = false ->
              vector x = Some (_text_to_vector (content x) 384))).
Proof.
  unfold add_documents.
  destruct (update_index cfg self _) as [idx' | e]; [| discriminate].
  destruct (store_metadata cfg _ src _ 0 _ (metadata self) [])
    as [[out | e] md'] eqn:Hrun; [| discriminate].
  simpl. intros [= <-].
  pose proof Hrun as Hvectors.
  apply store_metadata_spec in Hrun as (new & -> & -> & Hc & Hs & Hv).
  exists new. do 6 (split; [assumption || reflexivity |]).
  intros Hf j x Hx.
  apply (store_metadata_vectors cfg _ _ _ _ Hf) in Hvectors
    as (new' & Heq & Hrows).
  apply app_inv_head in Heq. subst new'.
  destruct (Hrows j x Hx) as (row & Hrow & Hvec). simpl in Hrow. split.
  - exists row. now split.
  - intros Hprovider. rewrite Hvec. f_equal.
    rewrite (embed_chunks_without_provider _ _ _ Hprovider) in Hrow.
    rewrite <- Hc, map_map, nth_error_map, Hx in Hrow. simpl in Hrow.
    now injection Hrow as <-.
Qed.

Lemma add_documents_mismatch_raises (cfg : Config) (self : RAG)
  (disk : Disk) (texts : list pystr) (src : pystr)
  (response : option (list (list Q))) (i : Index) (n : Z) :
  FAISS_AVAILABLE cfg = true ->
  index self = Some i ->
  shape1 (embed_chunks cfg (split_texts cfg texts) response) = Returns n ->
  n <> d i ->
  add_documents cfg self disk texts src response
  = mkAfter (Raises AssertionError) self disk.
Proof.
  intros Hf Hi Hshape Hne. unfold add_documents, update_index.
  rewrite Hf, Hi.
  destruct (embed_chunks cfg (split_texts cfg texts) response)
    as [| row rows]; [discriminate |].
  simpl in Hshape. injection Hshape as <-. simpl.
  destruct (Z.eqb_spec (Z.of_nat (length row)) (d i)); [contradiction |].
  reflexivity.
Qed.

(** Without FAISS the loop only asks for one row per chunk. *)
Lemma store_metadata_rows_suffice (cfg : Config) (arr : list (list Q))
  (src : pystr) (start : nat) (chunks : list pystr) :
  FAISS_AVAILABLE cfg = false ->
  forall (i : nat) (md : list doc) (ids : list pystr),
    (i + length chunks <= length arr)%nat ->
    exists out md',
      store_metadata cfg arr src start i chunks md ids = (Returns out, md').
Proof.
  intros Hf. induction chunks as [| c cs IH]; intros i md ids Hrows; simpl.
  - eauto.
  - rewrite Hf. simpl in Hrows.
    destruct (nth_error arr i) as [row |] eqn:Hrow.
    + apply IH. lia.
    + apply nth_error_None in Hrow. lia.
Qed.

Lemma add_documents_without_faiss (cfg : Config) (self : RAG)
  (disk : Disk) (texts : list pystr) (src : pystr)
  (response : option (list (list Q))) :
  FAISS_AVAILABLE cfg = false ->
  (length (split_texts cfg texts)
   <= length (embed_chunks cfg (split_texts cfg texts) response))%nat ->
  exists ids,
    returned (add_documents cfg self disk texts src response) = Returns ids
    /\ length (metadata
                 (rag_after (add_documents cfg self disk texts src response)))
       = (length (metadata self) + length (split_texts cfg texts))%nat.
Proof.
  intros Hf Hrows. unfold add_documents, update_index. rewrite Hf.
  destruct (store_metadata_rows_suffice cfg
              (embed_chunks cfg (split_texts cfg texts) response) src
              (length (metadata self)) (split_texts cfg texts) Hf
              0%nat (metadata self) [] Hrows) as (out & md' & Hrun).
  rewrite Hrun. simpl. exists out. split; [reflexivity |].
  apply store_metadata_spec in Hrun as (new & -> & _ & Hc & _).
  rewrite length_app, <- Hc, length_map. reflexivity.
Qed.

(** C3, as amended: with FAISS available and an index in the store,
    a call of [add_documents] whose embeddings have another length than
    the dimension of the index raises the assertion of faiss, and the
    store and the files are as before the call.  Without FAISS no length
    is compared: whatever the length of the embeddings, one for each
    chunk, the call returns and the store has one more record per
    chunk. *)
Theorem add_documents_dimension_mismatch (cfg : Config) (self : RAG)
  (disk : Disk) (texts : list pystr) (src : pystr)
  (response : option (list (list Q))) :
  (forall (i : Index) (n : Z),
      FAISS_AVAILABLE cfg = true ->
      index self = Some i ->
      shape1 (embed_chunks cfg (split_texts cfg texts) response)
      = Returns n ->
      n <> d i ->
      add_documents cfg self disk texts src response
      = mkAfter (Raises AssertionError) self disk)
  /\ (FAISS_AVAILABLE cfg = false ->
      (length (split_texts cfg texts)
       <= length (embed_chunks cfg (split_texts cfg texts) response))%nat ->
      exists ids,
        returned (add_documents cfg self disk texts src response)
        = Returns ids
        /\ length
             (metadata
                (rag_after (add_documents cfg self disk texts src response)))
           = (length (metadata self) + length (split_texts cfg texts))%nat).
Proof.
  split.
  - intros i n. apply add_documents_mismatch_raises.
  - apply add_documents_without_faiss.
Qed.

Lemma store_metadata_faiss_returns (cfg : Config) (arr : list (list Q))
  (src : pystr) (start : nat) (chunks : list pystr) :
  FAISS_AVAILABLE cfg = true ->
  forall (i : nat) (md : list doc) (ids : list pystr),
  exists out md',
    store_metadata cfg arr src start i chunks md ids = (Returns out, md').
Proof.
  intros Hf. induction chunks as [| c cs IH]; intros i md ids; simpl.
  - eauto.
  - rewrite Hf. apply IH.
Qed.

(** Whatever raises under FAISS leaves the store and the files. *)
Lemma add_documents_raises_unchanged (cfg : Config) (self : RAG)
  (disk : Disk) (texts : list pystr) (src : pystr)
  (response : option (list (list Q))) (e : exn) :
  FAISS_AVAILABLE cfg = true ->
  returned (add_documents cfg self disk texts src response) = Raises e ->
  add_documents cfg self disk texts src response
  = mkAfter (Raises e) self disk.
Proof.
  intros Hf. unfold add_documents.
  destruct (update_index cfg self _) as [idx' | e'].
  - destruct (store_metadata_faiss_returns cfg
                (embed_chunks cfg (split_texts cfg texts) response) src
                (length (metadata self)) (split_texts cfg texts) Hf
                0%nat (metadata self) []) as (out & md' & ->).
    discriminate.
  - simpl. now intros [= ->].
Qed.

End Store.

Section Persistence.

Context {np : Numpy} {fa : Faiss}.

Lemma init_in_step (cfg : Config) (disk : Disk) :
  in_step cfg (init cfg disk) disk.
Proof.
  unfold in_step, init, load_index. intros Hf. rewrite Hf.
  destruct (index_file disk) as [[i |] |];
    destruct (metadata_file disk) as [[m |] |]; simpl; intros Hnone;
    try discriminate; auto.
Qed.

Lemma update_index_some (cfg : Config) (self : RAG)
  (arr : list (list Q)) (idx' : option Index) :
  FAISS_AVAILABLE cfg = true ->
  update_index cfg self arr = Returns idx' ->
  idx' <> None.
Proof.
  unfold update_index. intros ->.
  destruct (index self) as [i |].
  - destruct (index_add i arr); [| discriminate].
    intros [= <-]. discriminate.
  - destruct (shape1 arr); [| discriminate].
    destruct (index_add _ arr); [| discriminate].
    intros [= <-]. discriminate.
Qed.

Lemma add_documents_in_step (cfg : Config) (self : RAG) (disk : Disk)
  (texts : list pystr) (src : pystr) (response : option (list (list Q))) :
  in_step cfg self disk ->
  in_step cfg (rag_after (add_documents cfg self disk texts src response))
          (disk_after (add_documents cfg self disk texts src response)).
Proof.
  intros Hinv Hf. unfold add_documents.
  destruct (update_index cfg self _) as [idx' | e] eqn:Hup.
  - apply update_index_some in Hup; [| assumption].
    destruct (store_metadata cfg _ src _ 0 _ (metadata self) [])
      as [[out | e] md']; simpl; intros ->; contradiction.
  - simpl. apply Hinv, Hf.
Qed.

Lemma run_in_step (cfg : Config) (disk : Disk) (calls : list ingest) :
  in_step cfg (fst (run cfg disk calls)) (snd (run cfg disk calls)).
Proof.
  unfold run.
  assert (Hstart : in_step cfg (fst (init cfg disk, disk))
                           (snd (init cfg disk, disk)))
    by apply init_in_step.
  revert Hstart. generalize (init cfg disk, disk).
  induction calls as [| c calls IH]; intros [self dk] Hinv; simpl.
  - exact Hinv.
  - apply IH. simpl. apply add_documents_in_step, Hinv.
Qed.

Lemma search_no_records (cfg : Config) (self : RAG) (query : pystr)
  (k : Z) (response : option (list Q)) :
  metadata self = [] ->
  search cfg self query k response = Returns [sentinel query].
Proof. unfold search. intros ->. reflexivity. Qed.

(** Without FAISS, [search] reads the records only. *)
Lemma search_without_faiss (cfg : Config) (self : RAG) (query : pystr)
  (k : Z) (response : option (list Q)) :
  FAISS_AVAILABLE cfg = false ->
  search cfg self query k response
  = search cfg (mkRAG None (metadata self)) query k response.
Proof. unfold search. intros ->. reflexivity. Qed.

(** Saving a store with an index, or without FAISS, and constructing a
    new one from the files gives the same records and index. *)
Lemma save_then_init (cfg : Config) (self : RAG) (disk : Disk) :
  init cfg (save_index cfg self disk)
  = if FAISS_AVAILABLE cfg
    then match index self with
         | Some i => self
         | None => init cfg (mkDisk (index_file disk)
                                    (Some (Readable (metadata self))))
         end
    else mkRAG None (metadata self).
Proof.
  unfold init, save_index, load_index; simpl.
  destruct (FAISS_AVAILABLE cfg), self as [[i |] md]; reflexivity.
Qed.

Lemma roundtrip_in_step (cfg : Config) (self : RAG) (disk : Disk)
  (query : pystr) (k : Z) (response : option (list Q)) :
  in_step cfg self disk ->
  search cfg (init cfg (save_index cfg self disk)) query k response
  = search cfg self query k response.
Proof.
  intros Hinv. rewrite save_then_init.
  destruct (FAISS_AVAILABLE cfg) eqn:Hf.
  - destruct self as [[i |] md]; simpl; [reflexivity |].
    destruct (Hinv Hf eq_refl) as [Hmd | Hfile]; simpl in *.
    + subst md. rewrite (search_no_records _ (mkRAG None [])) by reflexivity.
      apply search_no_records.
      unfold init, load_index; simpl. rewrite Hf.
      destruct (index_file disk) as [[j |] |]; reflexivity.
    + unfold init, load_index; simpl. now rewrite Hf, Hfile.
  - symmetry. now apply search_without_faiss.
Qed.

(** C4: take the store a [RAGSystem] has become over any files and
    any calls of [add_documents], save it, and construct a new
    [RAGSystem] from the files.  For every query, every [k] and every
    answer of the embedding provider, [search] on the new store returns
    what it returns on the old one: the same records in the same order
    with the same scores, or the same exception. *)
Theorem save_load_search_roundtrip (cfg : Config) (disk : Disk)
  (calls : list ingest) (query : pystr) (k : Z)
  (response : option (list Q)) :
  search cfg
         (init cfg (save_index cfg (fst (run cfg disk calls))
                               (snd (run cfg disk calls))))
         query k response
  = search cfg (fst (run cfg disk calls)) query k response.
Proof. apply roundtrip_in_step, run_in_step. Qed.

End Persistence.

(** ** The sentence chunker *)

Section Chunker.

Lemma split_dot_space_nonempty (s : pystr) : split_dot_space s <> [].
Proof.
  destruct s as [| c1 [| c2 s'']]; simpl; try discriminate.
  - destruct (ascii_eqb c1 dot && ascii_eqb c2 space); [discriminate |].
    destruct (match s'' with [] => _ | _ => _ end); discriminate.
Qed.

(** Putting ". " back after every piece gives the text and a final
    ". ". *)
Lemma split_dot_space_join_upto (n : nat) :
  forall s : pystr,
    (length s <= n)%nat ->
    with_dot_space (split_dot_space s) = s ++ dot_space.
Proof.
  unfold with_dot_space.
  induction n as [| n IH]; intros s Hlen.
  - destruct s; [reflexivity | simpl in Hlen; lia].
  - destruct s as [| c1 s']; [reflexivity |].
    assert (Hkeep :
      concat (map (fun s => s ++ dot_space)
                match split_dot_space s' with
                | piece :: rest => (c1 :: piece) :: rest
                | [] => [[c1]]
                end) = (c1 :: s') ++ dot_space).
    { pose proof (IH s' ltac:(simpl in Hlen; lia)) as Hs'.
      pose proof (split_dot_space_nonempty s') as Hne.
      destruct (split_dot_space s') as [| piece rest]; [contradiction |].
      simpl in *. now rewrite Hs'. }
    destruct s' as [| c2 s'']; [exact Hkeep |].
    change (split_dot_space (c1 :: c2 :: s''))
      with (if ascii_eqb c1 dot && ascii_eqb c2 space
            then [] :: split_dot_space s''
            else match split_dot_space (c2 :: s'') with
                 | piece :: rest => (c1 :: piece) :: rest
                 | [] => [[c1]]
                 end).
    destruct (ascii_eqb c1 dot && ascii_eqb c2 space) eqn:Hsep;
      [| exact Hkeep].
    apply andb_prop in Hsep as [H1 H2].
    apply Ascii.eqb_eq in H1, H2. subst c1 c2.
    simpl. rewrite (IH s'') by (simpl in Hlen; lia). reflexivity.
Qed.

Lemma split_dot_space_join (s : pystr) :
  with_dot_space (split_dot_space s) = s ++ dot_space.
Proof. now apply (split_dot_space_join_upto (length s)). Qed.

Lemma sentence_chunks_flushed (text : pystr) :
  sentence_chunks text
  = flushed (fold_left chunk_step (split_dot_space text) ([], [])).
Proof.
  unfold sentence_chunks, flushed.
  destruct (fold_left chunk_step _ _) as [chunks cur]. reflexivity.
Qed.

Lemma concat_flushed (st : list pystr * pystr) :
  concat (flushed st) = concat (fst st) ++ snd st.
Proof.
  destruct st as [chunks [| c cur]]; unfold flushed; simpl.
  - now rewrite app_nil_r.
  - rewrite concat_app. simpl. now rewrite app_nil_r.
Qed.

Lemma chunk_step_concat (st : list pystr * pystr) (sentence : pystr) :
  concat (flushed (chunk_step st sentence))
  = concat (flushed st) ++ sentence ++ dot_space.
Proof.
  rewrite !concat_flushed. destruct st as [chunks cur]. unfold chunk_step.
  destruct (length cur + length sentence <? 500)%nat; simpl.
  - now rewrite <- app_assoc.
  - destruct cur as [| c cur]; simpl.
    + now rewrite app_nil_r.
    + rewrite concat_app. simpl. rewrite app_nil_r.
      now rewrite <- app_assoc.
Qed.

Lemma fold_chunk_step_concat (sentences : list pystr) :
  forall st,
    concat (flushed (fold_left chunk_step sentences st))
    = concat (flushed st) ++ with_dot_space sentences.
Proof.
  unfold with_dot_space.
  induction sentences as [| s ss IH]; intros st; simpl.
  - now rewrite app_nil_r.
  - rewrite IH, chunk_step_concat. now rewrite <- !app_assoc.
Qed.

(** Nothing of a text is dropped: the chunks, one after the other, are
    the text followed by ". ". *)
Lemma sentence_chunks_cover (text : pystr) :
  concat (sentence_chunks text) = text ++ dot_space.
Proof.
  rewrite sentence_chunks_flushed, fold_chunk_step_concat.
  apply split_dot_space_join.
Qed.

Lemma chunk_step_no_empty (st : list pystr * pystr) (sentence : pystr) :
  Forall (fun c => c <> []) (fst st) ->
  Forall (fun c => c <> []) (fst (chunk_step st sentence)).
Proof.
  destruct st as [chunks cur]. unfold chunk_step. simpl. intros Hall.
  destruct (length cur + length sentence <? 500)%nat; [exact Hall |].
  destruct cur as [| c cur]; [exact Hall |]. simpl.
  apply Forall_app. split; [exact Hall |].
  constructor; [discriminate | constructor].
Qed.

Lemma sentence_chunks_no_empty (text : pystr) :
  Forall (fun c => c <> []) (sentence_chunks text).
Proof.
  rewrite sentence_chunks_flushed.
  assert (Hfold : forall ss st,
             Forall (fun c => c <> []) (fst st) ->
             Forall (fun c => c <> [])
                    (fst (fold_left chunk_step ss st))).
  { induction ss as [| s ss IH]; intros st Hst; simpl; [exact Hst |].
    apply IH, chunk_step_no_empty, Hst. }
  specialize (Hfold (split_dot_space text) ([], []) ltac:(constructor)).
  destruct (fold_left chunk_step _ _) as [chunks [| c cur]];
    unfold flushed; simpl in *; [exact Hfold |].
  apply Forall_app. split; [exact Hfold |].
  constructor; [discriminate | constructor].
Qed.

Lemma chunk_step_kept_whole (seen : list pystr)
  (st : list pystr * pystr) (sentence : pystr) :
  kept_whole seen st ->
  kept_whole (seen ++ [sentence]) (chunk_step st sentence).
Proof.
  destruct st as [chunks cur]. unfold kept_whole, chunk_step. simpl.
  intros Hseen s Hin Hlong. apply in_app_or in Hin.
  destruct (Nat.ltb_spec (length cur + length sentence) 500) as [Hlt | Hge].
  - simpl. destruct Hin as [Hin | [<- | []]]; [| lia].
    destruct (Hseen s Hin Hlong) as [Hc | ->]; [now left |].
    rewrite length_app in Hlt. lia.
  - destruct Hin as [Hin | [<- | []]].
    + destruct (Hseen s Hin Hlong) as [Hc | Hcur].
      * left. destruct cur; simpl; [exact Hc |].
        apply in_or_app. now left.
      * left. subst cur. destruct s; simpl; apply in_or_app; right;
          now left.
    + right. now destruct cur.
Qed.

Lemma fold_chunk_step_kept_whole (sentences : list pystr) :
  forall seen st,
    kept_whole seen st ->
    kept_whole (seen ++ sentences) (fold_left chunk_step sentences st).
Proof.
  induction sentences as [| s ss IH]; intros seen st Hseen; simpl.
  - now rewrite app_nil_r.
  - replace (seen ++ s :: ss) with ((seen ++ [s]) ++ ss)
      by now rewrite <- app_assoc.
    apply IH, chunk_step_kept_whole, Hseen.
Qed.

(** A sentence of 500 characters or more comes out whole, as a chunk
    of its own. *)
Lemma sentence_chunks_oversized (text s : pystr) :
  In s (split_dot_space text) ->
  (500 <= length s)%nat ->
  In (s ++ dot_space) (sentence_chunks text).
Proof.
  intros Hin Hlong. rewrite sentence_chunks_flushed.
  assert (Hstart : kept_whole [] ([], [])) by (intros ? []).
  apply (fold_chunk_step_kept_whole (split_dot_space text)) in Hstart.
  destruct (Hstart s Hin Hlong) as [Hc | Hcur]; unfold flushed.
  - destruct (snd _); [exact Hc | apply in_or_app; now left].
  - rewrite Hcur. destruct s; simpl; apply in_or_app; right; now left.
Qed.

(** C7: on the empty string the chunker emits one chunk, the two
    characters ". ", where the claim has no chunk.  The rest of the claim
    holds on every text: a sentence of 500 characters or more is a chunk
    of its own, whole; the chunks put one after the other are the text
    followed by ". ", so nothing is dropped; no chunk is empty. *)
Theorem sentence_chunks_empty_text :
  sentence_chunks (str "") = [str ". "]
  /\ length (sentence_chunks (str "")) = 1%nat
  /\ (forall text s : pystr,
         In s (split_dot_space text) -> (500 <= length s)%nat ->
         In (s ++ dot_space) (sentence_chunks text))
  /\ (forall text : pystr,
         concat (sentence_chunks text) = text ++ dot_space)
  /\ (forall text : pystr,
         Forall (fun c => c <> []) (sentence_chunks text)).
Proof.
  split; [reflexivity |]. split; [reflexivity |].
  split; [exact sentence_chunks_oversized |].
  split; [exact sentence_chunks_cover | exact sentence_chunks_no_empty].
Qed.

End Chunker.

(** ** The deterministic embedding *)

Section Embedding.

Context {np : Numpy}.

Lemma be_bytes_length (n : nat) (x : Z) :
  length (SHA256.be_bytes n x) = n.
Proof. induction n as [| n IH]; simpl; [reflexivity | now rewrite IH]. Qed.

(** A digest has 32 bytes. *)
Lemma digest_length (msg : list Z) : length (SHA256.digest msg) = 32%nat.
Proof.
  unfold SHA256.digest, SHA256.state_bytes.
  rewrite !length_app, !be_bytes_length. reflexivity.
Qed.

Lemma tiles_length (block : list Z) (n : nat) :
  length (tiles block n) = (n * length block)%nat.
Proof.
  unfold tiles. induction n as [| n IH]; simpl; [reflexivity |].
  rewrite length_app, IH. reflexivity.
Qed.

Lemma tiles_add (block : list Z) (a b : nat) :
  tiles block (a + b) = tiles block a ++ tiles block b.
Proof.
  unfold tiles. induction a as [| a IH]; simpl; [reflexivity |].
  now rewrite IH, app_assoc.
Qed.

(** Two runs of copies that are both long enough start alike. *)
Lemma firstn_tiles (block : list Z) (n a b : nat) :
  (n <= a * length block)%nat ->
  (n <= b * length block)%nat ->
  firstn n (tiles block a) = firstn n (tiles block b).
Proof.
  assert (Hle : forall a b, (a <= b)%nat ->
                 (n <= a * length block)%nat ->
                 firstn n (tiles block a) = firstn n (tiles block b)).
  { clear a b. intros a b Hab Ha.
    replace b with (a + (b - a))%nat by lia.
    rewrite tiles_add, firstn_app, tiles_length.
    replace (n - a * length block)%nat with 0%nat by lia.
    simpl. now rewrite app_nil_r. }
  intros Ha Hb. destruct (Nat.le_ge_cases a b) as [Hab | Hba].
  - now apply Hle.
  - symmetry. now apply Hle.
Qed.

(** The loop of the reference stops on a run of whole copies that is
    long enough, when the fuel covers what is missing. *)
Lemma tile_until_tiles (dimension : nat) (block : list Z) :
  (0 < length block)%nat ->
  forall (fuel j : nat),
    (dimension <= j * length block + fuel)%nat ->
    exists j',
      tile_until fuel dimension block (tiles block j) = tiles block j'
      /\ (dimension <= j' * length block)%nat.
Proof.
  intros Hpos. induction fuel as [| fuel IH]; intros j Hfuel.
  - exists j. simpl. rewrite tiles_length.
    destruct (Nat.leb_spec dimension (j * length block)); split; auto; lia.
  - simpl. rewrite tiles_length.
    destruct (Nat.leb_spec dimension (j * length block)) as [Hle | Hgt].
    + exists j. split; [reflexivity | exact Hle].
    + replace (tiles block j ++ block) with (tiles block (j + 1)).
      * apply IH. lia.
      * rewrite tiles_add. unfold tiles at 2. simpl.
        now rewrite app_nil_r.
Qed.

(** Bytes of the source and bytes of the reference. *)
Lemma repeated_bytes_reference (digest : list Z) (dimension : Z) :
  length digest = 32%nat ->
  0 < dimension ->
  upto dimension
       (times digest (dimension / Z.of_nat (length digest) + 1))
  = firstn (Z.to_nat dimension)
           (tile_until (Z.to_nat dimension) (Z.to_nat dimension)
                       digest []).
Proof.
  intros Hlen Hpos. unfold upto, times.
  destruct (Z.ltb_spec dimension 0) as [Hneg | _]; [lia |].
  rewrite Hlen.
  destruct (tile_until_tiles (Z.to_nat dimension) digest
              ltac:(lia) (Z.to_nat dimension) 0%nat ltac:(lia))
    as (j' & Htile & Hlong).
  change (tiles digest 0) with (@nil Z) in Htile. rewrite Htile.
  apply firstn_tiles; [| exact Hlong].
  rewrite Hlen.
  pose proof (Z.div_mod dimension 32 ltac:(lia)) as Hdiv.
  pose proof (Z.mod_pos_bound dimension 32 ltac:(lia)) as Hmod.
  pose proof (Z.div_pos dimension 32 ltac:(lia) ltac:(lia)) as Hq.
  change (Z.of_nat 32) with 32.
  lia.
Qed.

(** C2: for every text and every dimension above zero, the vector of
    [_text_to_vector] is the one of the reference: the SHA-256 digest of
    the encoded text, tiled until it is long enough and cut at the
    dimension, each byte as a number, divided by the norm when the norm
    is above zero.  It has as many components as the dimension says.
    The result depends on the text and the dimension only, so every call
    gives the same vector. *)
Theorem text_to_vector_reference (text : pystr) (dimension : Z) :
  0 < dimension ->
  _text_to_vector text dimension = reference_embedding text dimension
  /\ length (_text_to_vector text dimension) = Z.to_nat dimension.
Proof.
  intros Hpos. unfold _text_to_vector, reference_embedding.
  rewrite (repeated_bytes_reference _ _ (digest_length _) Hpos).
  split; [reflexivity |].
  assert (Hbytes :
    length (firstn (Z.to_nat dimension)
              (tile_until (Z.to_nat dimension) (Z.to_nat dimension)
                 (SHA256.digest (encode text)) []))
    = Z.to_nat dimension).
  { destruct (tile_until_tiles (Z.to_nat dimension)
                (SHA256.digest (encode text))
                ltac:(rewrite digest_length; lia)
                (Z.to_nat dimension) 0%nat ltac:(lia))
      as (j' & Htile & Hlong).
    change (tiles _ 0) with (@nil Z) in Htile. rewrite Htile.
    rewrite firstn_length_le; [reflexivity |].
    now rewrite tiles_length. }
  destruct (Qgtb _ 0); now rewrite ?length_map.
Qed.

End Embedding.

(** ** The keyword path of search *)

Section Keyword.

Context {np : Numpy} {fa : Faiss}.

Lemma search_keyword_mode (cfg : Config) (self : RAG) (query : pystr)
  (k : Z) (response : option (list Q)) :
  keyword_mode cfg self ->
  metadata self <> [] ->
  search cfg self query k response
  = Returns (keyword_search self query
               (Py.min k (Z.of_nat (length (metadata self))))).
Proof.
  intros Hmode Hne. unfold search.
  destruct (metadata self) as [| doc docs] eqn:Hmd; [contradiction |].
  simpl length at 1. simpl Nat.eqb. cbv iota.
  destruct Hmode as [-> | Hidx]; [reflexivity |].
  rewrite Hidx. now destruct (FAISS_AVAILABLE cfg).
Qed.

(** *** Substrings *)

Lemma startswith_iff (p s : pystr) :
  startswith p s = true <-> exists post, s = p ++ post.
Proof.
  revert s. induction p as [| a p IH]; intros s; simpl.
  - split; [intros _; now exists s | reflexivity].
  - destruct s as [| b s].
    + split; [discriminate | intros [post Hpost]; discriminate].
    + unfold ascii_eqb. rewrite andb_true_iff, Ascii.eqb_eq, IH. split.
      * intros [-> [post ->]]. now exists post.
      * intros [post [= -> ->]]. split; [reflexivity | now exists post].
Qed.

Lemma contains_iff (w s : pystr) :
  contains w s = true <-> substring w s.
Proof.
  unfold substring. induction s as [| c s IH].
  - simpl. rewrite orb_false_r, startswith_iff. split.
    + intros [post Hpost]. now exists [], post.
    + intros (pre & post & Hs). destruct pre; [now exists post |].
      discriminate.
  - simpl. rewrite orb_true_iff, startswith_iff, IH. split.
    + intros [[post Hpost] | (pre & post & ->)].
      * now exists [], post.
      * now exists (c :: pre), post.
    + intros ([| c' pre] & post & Hs).
      * left. now exists post.
      * right. injection Hs as -> ->. now exists pre, post.
Qed.

Lemma words_found_count (s : pystr) (ws : list pystr) :
  words_found s ws (length (List.filter (fun w => contains w s) ws)).
Proof.
  induction ws as [| w ws IH]; simpl; [constructor |].
  destruct (contains w s) eqn:Hc; simpl.
  - apply words_found_in; [now apply contains_iff | exact IH].
  - apply words_found_out; [| exact IH].
    intros Hsub. apply contains_iff in Hsub. congruence.
Qed.

Lemma words_found_unique (s : pystr) (ws : list pystr) (n m : nat) :
  words_found s ws n -> words_found s ws m -> n = m.
Proof.
  intros Hn. revert m.
  induction Hn as [| w ws n Hw _ IH | w ws n Hw _ IH]; intros m Hm;
    inversion Hm; subst; try contradiction; auto.
Qed.

(** The score of line 228 is that number of words. *)
Lemma keyword_score_words_found (query doc_content : pystr) :
  words_found (lower doc_content) (split_ws (lower query))
              (Z.to_nat (keyword_score (lower query) doc_content))
  /\ 0 <= keyword_score (lower query) doc_content.
Proof.
  unfold keyword_score, count_if. rewrite Nat2Z.id.
  split; [apply words_found_count | lia].
Qed.

(** *** The sort *)

Lemma insert_desc_perm (x : result) (l : list result) :
  Permutation (insert_desc x l) (x :: l).
Proof.
  induction l as [| y l IH]; simpl; [reflexivity |].
  destruct (Qgtb (r_score y) (r_score x)); [| reflexivity].
  rewrite IH. apply perm_swap.
Qed.

Lemma sort_desc_perm (l : list result) : Permutation (sort_desc l) l.
Proof.
  unfold sort_desc. induction l as [| x l IH]; simpl; [reflexivity |].
  now rewrite insert_desc_perm, IH.
Qed.

Lemma Qgtb_true (a b : Q) : Qgtb a b = true -> (b <= a)%Q.
Proof.
  unfold Qgtb. rewrite negb_true_iff. intros Hle.
  apply Qlt_le_weak, Qnot_le_lt. intros Hab.
  apply Qle_bool_iff in Hab. congruence.
Qed.

Lemma Qgtb_false (a b : Q) : Qgtb a b = false -> (a <= b)%Q.
Proof.
  unfold Qgtb. rewrite negb_false_iff. apply Qle_bool_iff.
Qed.

Lemma insert_desc_sorted (x : result) (l : list result) :
  Sorted not_below l -> Sorted not_below (insert_desc x l).
Proof.
  induction l as [| y l IH]; intros Hs; simpl.
  - repeat constructor.
  - destruct (Qgtb (r_score y) (r_score x)) eqn:Hcmp.
    + apply Sorted_inv in Hs as [Hs Hhd]. constructor; [now apply IH |].
      destruct l as [| z l]; simpl.
      * constructor. now apply Qgtb_true.
      * destruct (Qgtb (r_score z) (r_score x)).
        -- constructor. now inversion Hhd.
        -- constructor. now apply Qgtb_true.
    + constructor; [exact Hs |]. constructor. now apply Qgtb_false.
Qed.

Lemma sort_desc_sorted (l : list result) :
  StronglySorted not_below (sort_desc l).
Proof.
  apply Sorted_StronglySorted.
  - intros a b c Hab Hbc. unfold not_below in *.
    now apply Qle_trans with (r_score b).
  - unfold sort_desc. induction l as [| x l IH]; simpl.
    + constructor.
    + now apply insert_desc_sorted.
Qed.

Lemma in_firstn {A} (x : A) (n : nat) (l : list A) :
  In x (firstn n l) -> In x l.
Proof.
  revert l. induction n as [| n IH]; intros [| y l]; simpl; try tauto.
  intros [-> | Hin]; [now left | right; now apply IH].
Qed.

Lemma firstn_strongly_sorted {A} (R : A -> A -> Prop) (n : nat)
  (l : list A) :
  StronglySorted R l -> StronglySorted R (firstn n l).
Proof.
  revert l. induction n as [| n IH]; intros l Hs; [constructor |].
  destruct l as [| x l]; [constructor |].
  apply StronglySorted_inv in Hs as [Hs Hall]. simpl.
  constructor; [now apply IH |].
  apply List.Forall_forall. intros y Hy.
  eapply List.Forall_forall; [exact Hall |].
  eapply in_firstn, Hy.
Qed.

Lemma upto_nonneg {A} (k : Z) (l : list A) :
  0 <= k -> upto k l = firstn (Z.to_nat k) l.
Proof.
  intros Hk. unfold upto.
  destruct (Z.ltb_spec k 0); [lia | reflexivity].
Qed.

Lemma upto_is_firstn {A} (k : Z) (l : list A) :
  exists n, upto k l = firstn n l.
Proof. unfold upto. destruct (k <? 0); eauto. Qed.

(** *** What the keyword path returns *)

Lemma scored_matching (query : pystr) (md : list doc) :
  scored (lower query) md
  = map (fun doc =>
           mkResult None (content doc) (source doc)
                    (inject_Z (keyword_score (lower query) (content doc))))
        (matching query md).
Proof.
  unfold scored, matching. induction md as [| doc md IH]; [reflexivity |].
  simpl. destruct (keyword_score _ _ >? 0); simpl; now rewrite IH.
Qed.

Lemma matching_in (query : pystr) (md : list doc) (doc : doc) :
  In doc (matching query md) <->
  In doc md /\ 0 < keyword_score (lower query) (content doc).
Proof.
  unfold matching. rewrite List.filter_In.
  now rewrite Z.gtb_ltb, Z.ltb_lt.
Qed.

Lemma scored_scores_record (query : pystr) (md : list doc) :
  Forall (scores_record query md) (scored (lower query) md).
Proof.
  rewrite scored_matching. apply List.Forall_forall. intros r Hr.
  apply in_map_iff in Hr as (doc & <- & Hdoc).
  apply matching_in in Hdoc as [Hdoc _].
  destruct (keyword_score_words_found query (content doc)) as [Hn Hpos].
  exists doc, (Z.to_nat (keyword_score (lower query) (content doc))).
  simpl. rewrite Z2Nat.id by exact Hpos. now repeat split.
Qed.

Lemma scored_positive (query : pystr) (md : list doc) :
  Forall (fun r => (0 < r_score r)%Q) (scored (lower query) md).
Proof.
  rewrite scored_matching. apply List.Forall_forall. intros r Hr.
  apply in_map_iff in Hr as (doc & <- & Hdoc).
  apply matching_in in Hdoc as [_ Hpos]. simpl.
  unfold Qlt. simpl. lia.
Qed.

Lemma matching_nil (query : pystr) (md : list doc) :
  matching query md = [] ->
  Forall (fun doc => keyword_score (lower query) (content doc) = 0) md.
Proof.
  intros Hnil. apply List.Forall_forall. intros doc Hdoc.
  destruct (keyword_score_words_found query (content doc)) as [_ Hpos].
  destruct (Z.eq_dec (keyword_score (lower query) (content doc)) 0)
    as [| Hne]; [assumption | exfalso].
  assert (Hin : In doc (matching query md)).
  { apply matching_in. split; [exact Hdoc | lia]. }
  rewrite Hnil in Hin. exact Hin.
Qed.

(** With a [k] that is not negative, the keyword path returns the
    first [k] of the sorted matches, or, when there is none of these,
    the first [k] records with the score 0.0. *)
Lemma keyword_search_cases (self : RAG) (query : pystr) (k : Z) :
  0 <= k ->
  let sorted := sort_desc (scored (lower query) (metadata self)) in
  (firstn (Z.to_nat k) sorted <> []
   /\ keyword_search self query k = firstn (Z.to_nat k) sorted)
  \/ (firstn (Z.to_nat k) sorted = []
      /\ keyword_search self query k
         = map zero_scored (firstn (Z.to_nat k) (metadata self))).
Proof.
  intros Hk sorted. unfold keyword_search. rewrite !upto_nonneg by exact Hk.
  fold sorted. destruct (firstn (Z.to_nat k) sorted) as [| r rs].
  - right. split; reflexivity.
  - left. split; [discriminate | reflexivity].
Qed.

Lemma firstn_nil_cases {A} (n : nat) (l : list A) :
  firstn n l = [] -> n = 0%nat \/ l = [].
Proof. destruct n, l; simpl; auto; discriminate. Qed.

Lemma sort_desc_nil (l : list result) : sort_desc l = [] -> l = [].
Proof.
  intros Hnil. apply Permutation_nil. rewrite <- Hnil.
  apply sort_desc_perm.
Qed.

Lemma equal_scores_sorted (l : list result) :
  Forall (fun r => r_score r = 0%Q) l -> StronglySorted not_below l.
Proof.
  induction 1 as [| r l Hr Hall IH]; constructor; [exact IH |].
  apply List.Forall_forall. intros r' Hr'.
  eapply List.Forall_forall in Hall; [| exact Hr'].
  unfold not_below. rewrite Hr, Hall. apply Qle_refl.
Qed.

Lemma keyword_search_scores_record (self : RAG) (query : pystr) (k : Z) :
  0 <= k ->
  Forall (scores_record query (metadata self))
         (keyword_search self query k)
  /\ StronglySorted not_below (keyword_search self query k).
Proof.
  intros Hk.
  destruct (keyword_search_cases self query k Hk) as [[_ ->] | [Hnil ->]].
  - split.
    + apply List.Forall_forall. intros r Hr. apply in_firstn in Hr.
      eapply Permutation_in in Hr; [| apply sort_desc_perm].
      eapply List.Forall_forall in Hr; [exact Hr |].
      apply scored_scores_record.
    + apply firstn_strongly_sorted, sort_desc_sorted.
  - apply firstn_nil_cases in Hnil as [-> | Hnil].
    + split; constructor.
    + apply sort_desc_nil in Hnil. rewrite scored_matching in Hnil.
      apply map_eq_nil in Hnil. apply matching_nil in Hnil.
      split.
      * apply List.Forall_forall. intros r Hr.
        apply in_map_iff in Hr as (doc & <- & Hdoc).
        apply in_firstn in Hdoc. exists doc, 0%nat. simpl.
        eapply List.Forall_forall in Hnil; [| exact Hdoc].
        destruct (keyword_score_words_found query (content doc)) as [Hn _].
        rewrite Hnil in Hn. now repeat split.
      * apply equal_scores_sorted, List.Forall_forall. intros r Hr.
        apply in_map_iff in Hr as (doc & <- & _). reflexivity.
Qed.

Lemma sorted_matches_length (query : pystr) (md : list doc) :
  length (sort_desc (scored (lower query) md))
  = length (matching query md).
Proof.
  rewrite (Permutation_length (sort_desc_perm _)), scored_matching.
  apply length_map.
Qed.

Lemma matching_length_le (query : pystr) (md : list doc) :
  (length (matching query md) <= length md)%nat.
Proof. apply List.filter_length_le. Qed.

Lemma firstn_min_length {A} (k : Z) (l : list A) :
  firstn (Z.to_nat (Py.min k (Z.of_nat (length l)))) l
  = firstn (Z.to_nat k) l.
Proof.
  unfold Py.min. destruct (Z.le_ge_cases k (Z.of_nat (length l))) as [H | H].
  - now rewrite Z.min_l.
  - rewrite Z.min_r, Nat2Z.id by lia.
    rewrite !firstn_all2; [reflexivity | lia | lia].
Qed.

(** C5: on the keyword path, over a store with records and with a
    [k] that is not negative, every returned result is a record of the
    store, with its content and source, whose score is the number of
    words of the lower-cased, whitespace-split query that occur as a
    substring of the lower-cased content; and no result has a score
    below that of a later one.  After the two texts of bio.txt, the
    query "mitochondria powerhouse" with [k = 1] returns the chunk of
    the first text with the score 2; the chunk of the second text
    counts 0 words. *)
Theorem keyword_search_scores_sorted (cfg : Config) (self : RAG)
  (query : pystr) (k : Z) (response : option (list Q)) :
  keyword_mode cfg self ->
  metadata self <> [] ->
  0 <= k ->
  (exists results,
      search cfg self query k response = Returns results
      /\ Forall (scores_record query (metadata self)) results
      /\ StronglySorted not_below results)
  /\ map content (metadata (rag_after Example.bio))
     = [Example.mito_chunk; Example.weather_chunk]
  /\ search Example.keyword_cfg (rag_after Example.bio)
            (str "mitochondria powerhouse") 1 response
     = Returns [mkResult None Example.mito_chunk (str "bio.txt") 2]
  /\ words_found (lower Example.mito_chunk)
                 (split_ws (lower (str "mitochondria powerhouse"))) 2
  /\ words_found (lower Example.weather_chunk)
                 (split_ws (lower (str "mitochondria powerhouse"))) 0.
Proof.
  intros Hmode Hne Hk. split.
  - rewrite search_keyword_mode by assumption.
    eexists. split; [reflexivity |].
    apply keyword_search_scores_record. unfold Py.min. lia.
  - split; [vm_compute; reflexivity |].
    split; [vm_compute; reflexivity |].
    split.
    + apply (words_found_count (lower Example.mito_chunk)).
    + apply (words_found_count (lower Example.weather_chunk)).
Qed.

(** C1, as amended: on the keyword path, over a store with records
    and with a [k] that is not negative, [search] returns at most
    [min(k, store size)] results.  When no record has a score above
    zero it returns the first [k] records (all of them when there are
    fewer) in insertion order with the score 0.0.  When some record has a
    score above zero it returns [min(k, m)] results, [m] being the
    number of such records, all with a score above zero: nothing is
    added to reach [k]. *)
Theorem keyword_search_count (cfg : Config) (self : RAG)
  (query : pystr) (k : Z) (response : option (list Q)) :
  keyword_mode cfg self ->
  metadata self <> [] ->
  0 <= k ->
  exists results,
    search cfg self query k response = Returns results
    /\ (length results
        <= Z.to_nat (Py.min k (Z.of_nat (length (metadata self)))))%nat
    /\ (matching query (metadata self) = [] ->
        results = map zero_scored (firstn (Z.to_nat k) (metadata self))
        /\ length results
           = Z.to_nat (Py.min k (Z.of_nat (length (metadata self)))))
    /\ (matching query (metadata self) <> [] ->
        length results
        = Z.to_nat
            (Py.min k (Z.of_nat (length (matching query (metadata self)))))
        /\ Forall (fun r => (0 < r_score r)%Q) results).
Proof.
  intros Hmode Hne Hk. rewrite search_keyword_mode by assumption.
  eexists. split; [reflexivity |].
  set (n := length (metadata self)).
  set (k' := Py.min k (Z.of_nat n)).
  assert (Hk' : 0 <= k') by (unfold k', Py.min; lia).
  pose proof (matching_length_le query (metadata self)) as Hm. fold n in Hm.
  pose proof (sorted_matches_length query (metadata self)) as Hsorted.
  destruct (keyword_search_cases self query k' Hk')
    as [[Hsome ->] | [Hnil ->]].
  - rewrite length_firstn, Hsorted. split; [lia |]. split.
    + intros Hnone. rewrite Hnone in Hsorted.
      destruct (sort_desc _); [| discriminate].
      now rewrite firstn_nil in Hsome.
    + intros _. split; [unfold k', Py.min; lia |].
      apply List.Forall_forall. intros r Hr. apply in_firstn in Hr.
      eapply Permutation_in in Hr; [| apply sort_desc_perm].
      pose proof (scored_positive query (metadata self)) as Hpos.
      rewrite List.Forall_forall in Hpos. now apply Hpos.
  - split.
    { rewrite length_map, length_firstn. fold n. fold k'. lia. }
    unfold k', n. rewrite firstn_min_length. split.
    + intros _. split; [reflexivity |].
      rewrite length_map, length_firstn. unfold Py.min. lia.
    + intros Hmatch. apply firstn_nil_cases in Hnil as [Hzero | Hnil].
      * assert (Hkz : k = 0).
        { unfold k', Py.min in Hzero. unfold n in Hzero.
          destruct (metadata self); [contradiction |].
          simpl length in Hzero. lia. }
        subst k. simpl. split; [| constructor].
        unfold Py.min. rewrite Z.min_l by lia. reflexivity.
      * rewrite Hnil in Hsorted. simpl in Hsorted.
        destruct (matching query (metadata self)); [contradiction |].
        discriminate.
Qed.

End Keyword.

(** ** What search leaves untouched *)

Section Frame.

Context {np : Numpy} {fa : Faiss}.

Import Graph.

Lemma untouched_refl (s : store) : untouched s s.
Proof. repeat split. exists []. now rewrite app_nil_r. Qed.

Lemma keeps_weaken {A} (s0 : store) (m : M A) (p q : A -> Prop) :
  keeps s0 m p -> (forall a, p a -> q a) -> keeps s0 m q.
Proof.
  intros Hm Hpq s Hs. destruct (Hm s Hs) as [Hu Hp].
  split; [exact Hu | intros a Ha; apply Hpq, Hp, Ha].
Qed.

Lemma keeps_ret {A} (s0 : store) (a : A) (post : A -> Prop) :
  post a -> keeps s0 (ret a) post.
Proof.
  intros Ha s Hs. split; [exact Hs |]. simpl. now intros a' [= <-].
Qed.

Lemma keeps_raise {A} (s0 : store) (e : exn) (post : A -> Prop) :
  keeps s0 (raise e) post.
Proof. intros s Hs. split; [exact Hs |]. discriminate. Qed.

Lemma keeps_bind {A B} (s0 : store) (m : M A) (f : A -> M B)
  (p : A -> Prop) (q : B -> Prop) :
  keeps s0 m p ->
  (forall a, p a -> keeps s0 (f a) q) ->
  keeps s0 (bind m f) q.
Proof.
  intros Hm Hf s Hs. unfold bind.
  destruct (Hm s Hs) as [Hu Hp].
  destruct (m s) as [[a | e] s']; simpl in *.
  - apply (Hf a (Hp a eq_refl) s' Hu).
  - split; [exact Hu | discriminate].
Qed.

Lemma keeps_get_index (s0 : store) : keeps s0 get_index any.
Proof. intros s Hs. split; [exact Hs | easy]. Qed.

Lemma keeps_get_metadata (s0 : store) : keeps s0 get_metadata any.
Proof. intros s Hs. split; [exact Hs | easy]. Qed.

Lemma keeps_read (s0 : store) (l : loc) : keeps s0 (read l) any.
Proof. intros s Hs. split; [exact Hs | easy]. Qed.

Lemma keeps_sort_desc (s0 : store) (ls : list loc) :
  keeps s0 (sort_desc ls) any.
Proof. intros s Hs. split; [exact Hs | easy]. Qed.

(** A new dict comes after all the dicts of [s0]. *)
Lemma keeps_alloc (s0 : store) (dct : dict) :
  keeps s0 (alloc dct) (fresh_in s0).
Proof.
  intros s (Hi & Hm & fresh & Hh). unfold alloc, fresh_in; simpl. split.
  - repeat split; try assumption.
    exists (fresh ++ [dct]). now rewrite Hh, app_assoc.
  - intros a [= <-]. rewrite Hh, length_app. lia.
Qed.

(** Writing to a dict made after [s0] leaves the dicts of [s0]. *)
Lemma keeps_write (s0 : store) (l : loc) (dct : dict) :
  fresh_in s0 l -> keeps s0 (write l dct) any.
Proof.
  intros Hl s (Hi & Hm & fresh & Hh). unfold write; simpl. split; [| easy].
  repeat split; try assumption.
  exists (<[(l - length (s_heap s0))%nat := dct]> fresh).
  rewrite Hh. now apply insert_app_r_alt.
Qed.

Lemma keeps_dict_getitem (s0 : store) (l : loc) (key : string) :
  keeps s0 (dict_getitem l key) any.
Proof.
  unfold dict_getitem. eapply keeps_bind; [apply keeps_read |].
  intros dct _. destruct (dct !! key).
  - now apply keeps_ret.
  - apply keeps_raise.
Qed.

(** [copy] hands out a dict of its own. *)
Lemma keeps_dict_copy (s0 : store) (l : loc) :
  keeps s0 (dict_copy l) (fresh_in s0).
Proof.
  unfold dict_copy. eapply keeps_bind; [apply keeps_read |].
  intros dct _. apply keeps_alloc.
Qed.

Lemma keeps_dict_pop (s0 : store) (l : loc) (key : string) :
  fresh_in s0 l -> keeps s0 (dict_pop l key) any.
Proof.
  intros Hl. unfold dict_pop. eapply keeps_bind; [apply keeps_read |].
  intros dct _. now apply keeps_write.
Qed.

Lemma keeps_dict_setitem (s0 : store) (l : loc) (key : string)
  (v : value) :
  fresh_in s0 l -> keeps s0 (dict_setitem l key v) any.
Proof.
  intros Hl. unfold dict_setitem. eapply keeps_bind; [apply keeps_read |].
  intros dct _. now apply keeps_write.
Qed.

Lemma keeps_new_result (s0 : store) (c s : value) (x : Q) :
  keeps s0 (new_result c s x) (fresh_in s0).
Proof. apply keeps_alloc. Qed.

Lemma keeps_content_lower (s0 : store) (l : loc) :
  keeps s0 (content_lower l) any.
Proof.
  unfold content_lower. eapply keeps_bind; [apply keeps_dict_getitem |].
  intros [| s | x | v] _; try apply keeps_raise. now apply keeps_ret.
Qed.

Lemma keeps_scored (s0 : store) (query_lower : pystr)
  (metadata : list loc) :
  forall scored_docs, keeps s0 (scored query_lower metadata scored_docs) any.
Proof.
  induction metadata as [| doc rest IH]; intros scored_docs; simpl.
  - now apply keeps_ret.
  - eapply keeps_bind; [apply keeps_content_lower |]. intros cl _.
    destruct (count_if _ _ >? 0); [| apply IH].
    eapply keeps_bind; [apply keeps_dict_getitem |]. intros c _.
    eapply keeps_bind; [apply keeps_dict_getitem |]. intros s _.
    eapply keeps_bind; [apply keeps_new_result |]. intros r _.
    apply IH.
Qed.

Lemma keeps_first_documents (s0 : store) (docs : list loc) :
  forall results, keeps s0 (first_documents docs results) any.
Proof.
  induction docs as [| doc rest IH]; intros results; simpl.
  - now apply keeps_ret.
  - eapply keeps_bind; [apply keeps_dict_getitem |]. intros c _.
    eapply keeps_bind; [apply keeps_dict_getitem |]. intros s _.
    eapply keeps_bind; [apply keeps_new_result |]. intros r _.
    apply IH.
Qed.

Lemma keeps_keyword_search (s0 : store) (query : pystr) (k : Z) :
  keeps s0 (Graph.keyword_search query k) any.
Proof.
  unfold Graph.keyword_search.
  eapply keeps_bind; [apply keeps_get_metadata |]. intros metadata _.
  eapply keeps_bind; [apply keeps_scored |]. intros scored_docs _.
  eapply keeps_bind; [apply keeps_sort_desc |]. intros sorted _.
  destruct (upto k sorted).
  - apply keeps_first_documents.
  - now apply keeps_ret.
Qed.

(** The FAISS path pops and sets keys, on the copies only. *)
Lemma keeps_retrieve (s0 : store) (metadata : list loc)
  (distances : list Q) (indices : list Z) :
  forall i results,
    keeps s0 (Graph.retrieve metadata distances i indices results) any.
Proof.
  induction indices as [| idx rest IH]; intros i results; simpl.
  - now apply keeps_ret.
  - destruct (idx <? Z.of_nat (length metadata)); [| apply IH].
    destruct (getitem metadata idx) as [doc |]; [| apply keeps_raise].
    eapply keeps_bind; [apply keeps_dict_copy |]. intros r Hr.
    eapply keeps_bind; [now apply keeps_dict_pop |]. intros _ _.
    destruct (nth_error distances i) as [dist |]; [| apply keeps_raise].
    eapply keeps_bind; [now apply keeps_dict_setitem |]. intros _ _.
    apply IH.
Qed.

Lemma keeps_search (s0 : store) (cfg : Config) (query : pystr) (k : Z)
  (response : option (list Q)) :
  keeps s0 (Graph.search cfg query k response) any.
Proof.
  unfold Graph.search.
  eapply keeps_bind; [apply keeps_get_metadata |]. intros metadata _.
  destruct (length metadata =? 0)%nat.
  - eapply keeps_bind; [apply keeps_new_result |]. intros r _.
    now apply keeps_ret.
  - eapply keeps_bind; [apply keeps_get_index |]. intros idx _.
    destruct (if FAISS_AVAILABLE cfg then idx else None) as [i |].
    + destruct (index_search i _ _) as [[distances indices] | e].
      * apply keeps_retrieve.
      * apply keeps_raise.
    + apply keeps_keyword_search.
Qed.

(** C10: whatever the store, the query, [k] and the answer of the
    embedding provider, and whether [search] returns or raises, the
    store after the call has the index and the list of records it had
    before, and every dict that existed before the call, the records
    among them, is at its place with the keys and values it had: the
    heap before the call is the beginning of the heap after it, which
    only has the dicts of the results in addition. *)
Theorem search_leaves_store (cfg : Config) (query : pystr) (k : Z)
  (response : option (list Q)) (s : store) :
  s_index (snd (Graph.search cfg query k response s)) = s_index s
  /\ s_metadata (snd (Graph.search cfg query k response s)) = s_metadata s
  /\ firstn (length (s_heap s))
            (s_heap (snd (Graph.search cfg query k response s)))
     = s_heap s
  /\ map (fun l => s_heap (snd (Graph.search cfg query k response s)) !! l)
         (seq 0 (length (s_heap s)))
     = map (fun l => s_heap s !! l) (seq 0 (length (s_heap s))).
Proof.
  destruct (keeps_search s cfg query k response s (untouched_refl s))
    as [(Hi & Hm & fresh & Hh) _].
  repeat split; try assumption.
  - rewrite Hh, firstn_app, Nat.sub_diag, firstn_all. simpl.
    apply app_nil_r.
  - apply map_ext_in. intros l Hl. apply in_seq in Hl.
    rewrite Hh. apply lookup_app_l. lia.
Qed.

End Frame.

(** ** The two embeddings of search agree *)

Section Refinement.

Context {np : Numpy} {fa : Faiss}.

Lemma nth_error_lookup {A} (l : list A) (i : nat) : nth_error l i = l !! i.
Proof.
  revert i. induction l as [| x l IH]; intros [| i]; simpl; auto.
Qed.

Lemma holds_store_of (self : RAG) :
  Graph.holds (metadata self) (Graph.store_of self).
Proof. split; [reflexivity |]. exists []. simpl. now rewrite app_nil_r. Qed.

(** A reference below the number of records points to its record. *)
Lemma read_record (md : list doc) (s : Graph.store) (l : nat) (x : doc) :
  Graph.holds md s ->
  nth_error md l = Some x ->
  default ∅ (Graph.s_heap s !! l) = Graph.doc_dict x.
Proof.
  intros [_ [fresh Hh]] Hl. rewrite Hh.
  assert (Hlt : (l < length md)%nat)
    by (apply nth_error_Some; congruence).
  rewrite lookup_app_l by now rewrite length_map.
  rewrite list_lookup_fmap, <- nth_error_lookup, Hl. reflexivity.
Qed.

Lemma holds_alloc (md : list doc) (s : Graph.store) (dct : Graph.dict) :
  Graph.holds md s ->
  Graph.holds md (Graph.mkStore (Graph.s_index s) (Graph.s_metadata s)
                                (Graph.s_heap s ++ [dct])).
Proof.
  intros [Hm [fresh Hh]]. split; [exact Hm |]. simpl.
  exists (fresh ++ [dct]). now rewrite Hh, app_assoc.
Qed.

Lemma result_of_extend (heap fresh : list Graph.dict) (l : nat) :
  (l < length heap)%nat ->
  Graph.result_of (heap ++ fresh) l = Graph.result_of heap l.
Proof.
  intros Hl. unfold Graph.result_of. now rewrite lookup_app_l.
Qed.

Lemma results_are_extend (heap fresh : list Graph.dict)
  (ls : list nat) (rs : list result) :
  Graph.results_are heap ls rs ->
  Graph.results_are (heap ++ fresh) ls rs.
Proof.
  intros [Hmap Hall]. split.
  - rewrite <- Hmap. apply map_ext_in. intros l Hl.
    apply result_of_extend. eapply List.Forall_forall in Hall; eauto.
  - eapply Forall_impl; [exact Hall |]. simpl. intros l Hl.
    rewrite length_app. lia.
Qed.

Lemma results_are_snoc (heap : list Graph.dict) (dct : Graph.dict)
  (ls : list nat) (rs : list result) (r : result) :
  Graph.results_are heap ls rs ->
  Graph.result_of (heap ++ [dct]) (length heap) = Some r ->
  Graph.results_are (heap ++ [dct]) (ls ++ [length heap]) (rs ++ [r]).
Proof.
  intros Hrs Hr. apply (results_are_extend _ [dct]) in Hrs as [Hmap Hall].
  split.
  - rewrite (map_app (Graph.result_of (heap ++ [dct]))), Hmap.
    simpl. rewrite Hr. symmetry. apply map_app.
  - apply Forall_app. split; [exact Hall |]. constructor; [| constructor].
    rewrite length_app. simpl. lia.
Qed.

Lemma results_are_nil (heap : list Graph.dict) : Graph.results_are heap [] [].
Proof. split; constructor. Qed.

Lemma result_of_new (heap : list Graph.dict) (c s : pystr) (x : Q) :
  Graph.result_of
    (heap ++ [<["content" := Graph.VStr c]>
                (<["source" := Graph.VStr s]>
                   (<["score" := Graph.VFloat x]> ∅))])
    (length heap)
  = Some (mkResult None c s x).
Proof.
  unfold Graph.result_of. rewrite list_lookup_middle by reflexivity.
  simpl. by simplify_map_eq.
Qed.

Lemma result_of_copy (heap : list Graph.dict) (x : doc) (dist : Q) :
  Graph.result_of
    (heap ++ [<["score" := Graph.VFloat dist]>
                (delete "vector" (Graph.doc_dict x))])
    (length heap)
  = Some (mkResult (Some (id x)) (content x) (source x) dist).
Proof.
  unfold Graph.result_of, Graph.doc_dict.
  rewrite list_lookup_middle by reflexivity.
  simpl. by simplify_map_eq.
Qed.

Lemma score_of_result (heap : list Graph.dict) (l : nat) (r : result) :
  Graph.result_of heap l = Some r -> Graph.score_of heap l = r_score r.
Proof.
  unfold Graph.result_of, Graph.score_of. cbv zeta.
  destruct (heap !! l) as [dct |]; simpl.
  - destruct (dct !! "content") as [[| c | |] |]; try discriminate.
    destruct (dct !! "source") as [[| s | |] |]; try discriminate.
    destruct (dct !! "score") as [[| | x |] |]; try discriminate.
    intros Hr. inversion Hr. reflexivity.
  - rewrite !lookup_empty. discriminate.
Qed.

(** *** The primitives on a store that holds the records *)

Lemma segment_head {A} (pre rest post : list A) (x : A) :
  nth_error (pre ++ (x :: rest) ++ post) (length pre) = Some x.
Proof. rewrite nth_error_app2, Nat.sub_diag by lia. reflexivity. Qed.

Lemma segment_shift {A} (pre rest post : list A) (x : A) :
  pre ++ (x :: rest) ++ post = (pre ++ [x]) ++ rest ++ post.
Proof. now rewrite <- app_assoc. Qed.

Lemma run_getitem (md : list doc) (s : Graph.store) (l : nat) (x : doc)
  (key : string) (v : Graph.value) :
  Graph.holds md s ->
  nth_error md l = Some x ->
  Graph.doc_dict x !! key = Some v ->
  Graph.dict_getitem l key s = (Returns v, s).
Proof.
  intros Hs Hl Hv. unfold Graph.dict_getitem, Graph.bind, Graph.read.
  rewrite (read_record md s l x Hs Hl), Hv. reflexivity.
Qed.

Lemma doc_dict_content (x : doc) :
  Graph.doc_dict x !! "content" = Some (Graph.VStr (content x)).
Proof. unfold Graph.doc_dict. by simplify_map_eq. Qed.

Lemma doc_dict_source (x : doc) :
  Graph.doc_dict x !! "source" = Some (Graph.VStr (source x)).
Proof. unfold Graph.doc_dict. by simplify_map_eq. Qed.

Lemma run_content_lower (md : list doc) (s : Graph.store) (l : nat)
  (x : doc) :
  Graph.holds md s ->
  nth_error md l = Some x ->
  Graph.content_lower l s = (Returns (lower (content x)), s).
Proof.
  intros Hs Hl. unfold Graph.content_lower, Graph.bind.
  rewrite (run_getitem md s l x _ _ Hs Hl (doc_dict_content x)).
  reflexivity.
Qed.

(** The dict of a result of the keyword path, built from a record. *)
Lemma run_result_of_record (md : list doc) (s : Graph.store) (l : nat)
  (x : doc) (score : Q) (f : nat -> Graph.M (list nat)) :
  Graph.holds md s ->
  nth_error md l = Some x ->
  Graph.bind (Graph.dict_getitem l "content")
    (fun c => Graph.bind (Graph.dict_getitem l "source")
       (fun src => Graph.bind (Graph.new_result c src score) f)) s
  = f (length (Graph.s_heap s))
      (Graph.mkStore (Graph.s_index s) (Graph.s_metadata s)
         (Graph.s_heap s
          ++ [<["content" := Graph.VStr (content x)]>
                (<["source" := Graph.VStr (source x)]>
                   (<["score" := Graph.VFloat score]> ∅))])).
Proof.
  intros Hs Hl. unfold Graph.bind at 1.
  rewrite (run_getitem md s l x _ _ Hs Hl (doc_dict_content x)).
  unfold Graph.bind at 1.
  rewrite (run_getitem md s l x _ _ Hs Hl (doc_dict_source x)).
  reflexivity.
Qed.

(** *** The loops of the keyword path *)

Lemma scored_refines (query_lower : pystr) (md : list doc) :
  forall (rest pre post : list doc) (acc : list nat) (racc : list result)
         (s : Graph.store),
    md = pre ++ rest ++ post ->
    Graph.holds md s ->
    Graph.results_are (Graph.s_heap s) acc racc ->
    exists ls s',
      Graph.scored query_lower (seq (length pre) (length rest)) acc s
      = (Returns ls, s')
      /\ Graph.holds md s'
      /\ Graph.s_index s' = Graph.s_index s
      /\ Graph.results_are (Graph.s_heap s') ls
                           (racc ++ scored query_lower rest).
Proof.
  induction rest as [| x rest IH]; intros pre post acc racc s Hmd Hs Hacc.
  - exists acc, s. simpl. rewrite app_nil_r. repeat split; try apply Hs.
    all: apply Hacc.
  - assert (Hx : nth_error md (length pre) = Some x)
      by (rewrite Hmd; apply segment_head).
    rewrite segment_shift in Hmd.
    cbn [length seq Graph.scored]. unfold Graph.bind at 1.
    rewrite (run_content_lower md s _ x Hs Hx).
    change (count_if (fun word => contains word (lower (content x)))
                     (split_ws query_lower))
      with (keyword_score query_lower (content x)).
    cbn [scored flat_map].
    fold (scored query_lower rest).
    destruct (keyword_score query_lower (content x) >? 0).
    + rewrite (run_result_of_record md s _ x _ _ Hs Hx).
      destruct (IH (pre ++ [x]) post (acc ++ [length (Graph.s_heap s)])
                   (racc ++ [mkResult None (content x) (source x)
                                (inject_Z (keyword_score query_lower
                                                         (content x)))])
                   _ Hmd (holds_alloc md s _ Hs)
                   (results_are_snoc _ _ _ _ _ Hacc (result_of_new _ _ _ _)))
        as (ls & s' & Hrun & Hs' & Hi & Hres).
      rewrite length_app, Nat.add_1_r in Hrun.
      exists ls, s'. rewrite Hrun. repeat split; try apply Hs'; try exact Hi.
      all: rewrite <- app_assoc in Hres; apply Hres.
    + destruct (IH (pre ++ [x]) post acc racc s Hmd Hs Hacc)
        as (ls & s' & Hrun & Hs' & Hi & Hres).
      rewrite length_app, Nat.add_1_r in Hrun.
      exists ls, s'. rewrite Hrun. repeat split; try apply Hs'; try exact Hi.
      all: apply Hres.
Qed.

Lemma first_documents_refines (md : list doc) :
  forall (rest pre post : list doc) (acc : list nat) (racc : list result)
         (s : Graph.store),
    md = pre ++ rest ++ post ->
    Graph.holds md s ->
    Graph.results_are (Graph.s_heap s) acc racc ->
    exists ls s',
      Graph.first_documents (seq (length pre) (length rest)) acc s
      = (Returns ls, s')
      /\ Graph.holds md s'
      /\ Graph.s_index s' = Graph.s_index s
      /\ Graph.results_are (Graph.s_heap s') ls
                           (racc ++ map zero_scored rest).
Proof.
  induction rest as [| x rest IH]; intros pre post acc racc s Hmd Hs Hacc.
  - exists acc, s. simpl. rewrite app_nil_r. repeat split; try apply Hs.
    all: apply Hacc.
  - assert (Hx : nth_error md (length pre) = Some x)
      by (rewrite Hmd; apply segment_head).
    rewrite segment_shift in Hmd.
    cbn [length seq Graph.first_documents map].
    rewrite (run_result_of_record md s _ x _ _ Hs Hx).
    destruct (IH (pre ++ [x]) post (acc ++ [length (Graph.s_heap s)])
                 (racc ++ [zero_scored x])
                 _ Hmd (holds_alloc md s _ Hs)
                 (results_are_snoc _ _ _ _ _ Hacc (result_of_new _ _ _ _)))
      as (ls & s' & Hrun & Hs' & Hi & Hres).
    rewrite length_app, Nat.add_1_r in Hrun.
    exists ls, s'. rewrite Hrun. repeat split; try apply Hs'; try exact Hi.
    all: rewrite <- app_assoc in Hres; apply Hres.
Qed.

(** *** The sort and the slice *)

Lemma insert_desc_refines (heap : list Graph.dict) (x : nat) (rx : result) :
  Graph.result_of heap x = Some rx ->
  forall (l : list nat) (rl : list result),
    map (Graph.result_of heap) l = map Some rl ->
    map (Graph.result_of heap) (Graph.insert_desc heap x l)
    = map Some (insert_desc rx rl).
Proof.
  intros Hx. induction l as [| y l IH]; intros [| ry rl] Hl;
    try discriminate; simpl.
  - now rewrite Hx.
  - simpl in Hl. injection Hl as Hy Hl.
    rewrite (score_of_result heap y ry Hy), (score_of_result heap x rx Hx).
    destruct (Qgtb (r_score ry) (r_score rx)); simpl.
    + now rewrite Hy, (IH rl Hl).
    + now rewrite Hx, Hy, Hl.
Qed.

Lemma insert_desc_forall (heap : list Graph.dict) (P : nat -> Prop)
  (x : nat) (l : list nat) :
  P x -> Forall P l -> Forall P (Graph.insert_desc heap x l).
Proof.
  intros Hx. induction 1 as [| y l Hy Hl IH]; simpl.
  - now repeat constructor.
  - destruct (Qgtb _ _); repeat constructor; assumption.
Qed.

Lemma sort_desc_refines (heap : list Graph.dict) (ls : list nat)
  (rs : list result) :
  Graph.results_are heap ls rs ->
  Graph.results_are heap (fold_right (Graph.insert_desc heap) [] ls)
                    (sort_desc rs).
Proof.
  intros [Hmap Hall]. unfold sort_desc. revert rs Hmap.
  induction Hall as [| l ls Hl Hls IH]; intros [| r rs] Hmap;
    try discriminate; simpl.
  - apply results_are_nil.
  - simpl in Hmap. injection Hmap as Hr Hmap.
    destruct (IH rs Hmap) as [Hsorted Hbound]. split.
    + now apply insert_desc_refines.
    + now apply insert_desc_forall.
Qed.

(** The slice takes as many elements of two lists of one length. *)
Lemma upto_firstn_length {A} (k : Z) (l : list A) :
  upto k l
  = firstn (if k <? 0 then length l - Z.to_nat (- k) else Z.to_nat k) l.
Proof. unfold upto. now destruct (k <? 0). Qed.

Lemma upto_refines (heap : list Graph.dict) (k : Z) (ls : list nat)
  (rs : list result) :
  Graph.results_are heap ls rs ->
  Graph.results_are heap (upto k ls) (upto k rs).
Proof.
  intros [Hmap Hall].
  assert (Hlen : length ls = length rs).
  { rewrite <- (length_map (Graph.result_of heap) ls), Hmap.
    apply length_map. }
  rewrite !upto_firstn_length, Hlen. split.
  - now rewrite <- !firstn_map, Hmap.
  - apply List.Forall_forall. intros l Hl. apply in_firstn in Hl.
    eapply List.Forall_forall in Hall; eauto.
Qed.

Lemma upto_seq (k : Z) (n : nat) (md : list doc) :
  n = length md ->
  upto k (seq 0 n) = seq 0 (length (upto k md)).
Proof.
  intros ->. rewrite !upto_firstn_length, length_seq, length_firstn.
  apply take_seq.
Qed.

Lemma upto_prefix {A} (k : Z) (l : list A) :
  exists post, l = [] ++ upto k l ++ post.
Proof.
  rewrite upto_firstn_length. eexists. simpl. symmetry.
  apply firstn_skipn.
Qed.

Lemma keyword_search_refines (md : list doc) (idx : option Index)
  (query : pystr) (k : Z) (s : Graph.store) :
  Graph.holds md s ->
  exists ls s',
    Graph.keyword_search query k s = (Returns ls, s')
    /\ Graph.results_are (Graph.s_heap s') ls
                         (keyword_search (mkRAG idx md) query k).
Proof.
  intros Hs. unfold Graph.keyword_search, keyword_search.
  unfold Graph.bind at 1. unfold Graph.get_metadata.
  destruct Hs as [Hm Hh]. rewrite Hm.
  destruct (scored_refines (lower query) md md [] [] [] [] s
              ltac:(now rewrite app_nil_r) (conj Hm Hh)
              (results_are_nil _))
    as (ls1 & s1 & Hrun & Hs1 & _ & Hres1).
  simpl in Hrun, Hres1. unfold Graph.bind at 1. rewrite Hrun.
  unfold Graph.bind at 1, Graph.sort_desc.
  apply sort_desc_refines in Hres1.
  apply (upto_refines _ k) in Hres1.
  cbn [metadata].
  destruct (upto k (sort_desc (scored (lower query) md))) as [| r rs] eqn:Hr.
  - destruct Hres1 as [Hmap _].
    destruct (upto k (fold_right _ [] ls1)); [| discriminate].
    rewrite (upto_seq k _ md eq_refl).
    destruct (upto_prefix k md) as [post Hpost].
    destruct (first_documents_refines md (upto k md) [] post [] [] s1
                Hpost Hs1 (results_are_nil _))
      as (ls & s' & Hrun' & _ & _ & Hres).
    simpl in Hrun', Hres. exists ls, s'. split; assumption.
  - destruct (upto k (fold_right _ [] ls1)) as [| l ls] eqn:Hl.
    + destruct Hres1 as [Hmap _]. discriminate.
    + exists (l :: ls), s1. split; [reflexivity | exact Hres1].
Qed.

(** *** The loop of the FAISS path *)

(** [metadata[idx]] picks a reference and the record it points to. *)
Lemma getitem_seq (md : list doc) (idx : Z) :
  match getitem md idx with
  | Some x =>
      exists l, getitem (seq 0 (length md)) idx = Some l
                /\ nth_error md l = Some x
  | None => getitem (seq 0 (length md)) idx = None
  end.
Proof.
  assert (Hpos : forall p,
             match nth_error md p with
             | Some x =>
                 exists l, nth_error (seq 0 (length md)) p = Some l
                           /\ nth_error md l = Some x
             | None => nth_error (seq 0 (length md)) p = None
             end).
  { intros p. rewrite nth_error_seq.
    destruct (nth_error md p) as [x |] eqn:Hp.
    - assert (p < length md)%nat by (apply nth_error_Some; congruence).
      destruct (Nat.ltb_spec p (length md)); [| lia]. eauto.
    - apply nth_error_None in Hp.
      destruct (Nat.ltb_spec p (length md)); [lia | reflexivity]. }
  unfold getitem. rewrite length_seq.
  destruct (idx <? 0); [| apply Hpos].
  destruct (idx <? - Z.of_nat (length md)); [reflexivity | apply Hpos].
Qed.

Lemma insert_last {A} (l : list A) (x y : A) :
  <[length l := y]> (l ++ [x]) = l ++ [y].
Proof.
  rewrite insert_app_r_alt, Nat.sub_diag by lia. reflexivity.
Qed.

(** [copy], then [pop] and the assignment on the copy. *)
Lemma run_copy_pop_set (md : list doc) (s : Graph.store) (l : nat)
  (x : doc) (dist : Q) (f : Graph.M (list nat)) :
  Graph.holds md s ->
  nth_error md l = Some x ->
  Graph.bind (Graph.dict_pop (length (Graph.s_heap s)) "vector")
    (fun _ => Graph.bind
                (Graph.dict_setitem (length (Graph.s_heap s)) "score"
                                    (Graph.VFloat dist))
                (fun _ => f))
    (snd (Graph.dict_copy l s))
  = f (Graph.mkStore (Graph.s_index s) (Graph.s_metadata s)
         (Graph.s_heap s
          ++ [<["score" := Graph.VFloat dist]>
                (delete "vector" (Graph.doc_dict x))])).
Proof.
  intros Hs Hl.
  unfold Graph.dict_copy, Graph.dict_pop, Graph.dict_setitem, Graph.bind,
    Graph.read, Graph.alloc, Graph.write.
  cbn [fst snd Graph.s_heap Graph.s_index Graph.s_metadata].
  rewrite (read_record md s l x Hs Hl).
  rewrite list_lookup_middle by reflexivity. cbn [default].
  rewrite insert_last.
  rewrite list_lookup_middle by reflexivity. cbn [default].
  rewrite insert_last. reflexivity.
Qed.

Lemma retrieve_skip (mdl : list nat) (distances : list Q) (i : nat)
  (idx : Z) (rest : list Z) (acc : list nat) (s : Graph.store) :
  (idx <? Z.of_nat (length mdl)) = false ->
  Graph.retrieve mdl distances i (idx :: rest) acc s
  = Graph.retrieve mdl distances (S i) rest acc s.
Proof. intros Hlt. cbn [Graph.retrieve]. now rewrite Hlt. Qed.

Lemma retrieve_no_record (mdl : list nat) (distances : list Q) (i : nat)
  (idx : Z) (rest : list Z) (acc : list nat) (s : Graph.store) :
  (idx <? Z.of_nat (length mdl)) = true ->
  getitem mdl idx = None ->
  Graph.retrieve mdl distances i (idx :: rest) acc s = (Raises IndexError, s).
Proof. intros Hlt Hget. cbn [Graph.retrieve]. now rewrite Hlt, Hget. Qed.

Lemma retrieve_no_distance (mdl : list nat) (distances : list Q) (i : nat)
  (idx : Z) (rest : list Z) (acc : list nat) (s : Graph.store) (l : nat) :
  (idx <? Z.of_nat (length mdl)) = true ->
  getitem mdl idx = Some l ->
  nth_error distances i = None ->
  exists s',
    Graph.retrieve mdl distances i (idx :: rest) acc s
    = (Raises IndexError, s').
Proof.
  intros Hlt Hget Hdist. cbn [Graph.retrieve]. rewrite Hlt, Hget, Hdist.
  eexists. reflexivity.
Qed.

Lemma retrieve_copy (md : list doc) (distances : list Q) (i : nat)
  (idx : Z) (rest : list Z) (acc : list nat) (s : Graph.store) (l : nat)
  (x : doc) (dist : Q) :
  Graph.holds md s ->
  (idx <? Z.of_nat (length (seq 0 (length md)))) = true ->
  getitem (seq 0 (length md)) idx = Some l ->
  nth_error md l = Some x ->
  nth_error distances i = Some dist ->
  Graph.retrieve (seq 0 (length md)) distances i (idx :: rest) acc s
  = Graph.retrieve (seq 0 (length md)) distances (S i) rest
      (acc ++ [length (Graph.s_heap s)])
      (Graph.mkStore (Graph.s_index s) (Graph.s_metadata s)
         (Graph.s_heap s
          ++ [<["score" := Graph.VFloat dist]>
                (delete "vector" (Graph.doc_dict x))])).
Proof.
  intros Hs Hlt Hget Hl Hdist. cbn [Graph.retrieve].
  rewrite Hlt, Hget, Hdist. unfold Graph.bind at 1.
  change (Graph.dict_copy l s)
    with (@Returns nat (length (Graph.s_heap s)), snd (Graph.dict_copy l s)).
  cbv iota beta.
  apply (run_copy_pop_set md s l x dist _ Hs Hl).
Qed.

Lemma retrieve_refines (md : list doc) (distances : list Q) :
  forall (indices : list Z) (i : nat) (acc : list nat)
         (racc : list result) (s : Graph.store),
    Graph.holds md s ->
    Graph.results_are (Graph.s_heap s) acc racc ->
    match retrieve md distances i indices racc with
    | Returns rs =>
        exists ls s',
          Graph.retrieve (seq 0 (length md)) distances i indices acc s
          = (Returns ls, s')
          /\ Graph.results_are (Graph.s_heap s') ls rs
    | Raises e =>
        exists s',
          Graph.retrieve (seq 0 (length md)) distances i indices acc s
          = (Raises e, s')
    end.
Proof.
  induction indices as [| idx rest IH]; intros i acc racc s Hs Hacc.
  - simpl. eauto.
  - cbn [retrieve].
    destruct (idx <? Z.of_nat (length md)) eqn:Hlt.
    + assert (Hlt' : (idx <? Z.of_nat (length (seq 0 (length md)))) = true)
        by now rewrite length_seq.
      pose proof (getitem_seq md idx) as Hget.
      destruct (getitem md idx) as [x |].
      * destruct Hget as (l & Hget & Hl).
        destruct (nth_error distances i) as [dist |] eqn:Hdist.
        -- rewrite (retrieve_copy md distances i idx rest acc s l x dist)
             by assumption.
           apply IH.
           ++ now apply holds_alloc.
           ++ apply results_are_snoc; [exact Hacc | apply result_of_copy].
        -- now apply retrieve_no_distance with (l := l).
      * rewrite retrieve_no_record by assumption. eauto.
    + rewrite retrieve_skip by now rewrite length_seq.
      now apply IH.
Qed.

(** [Graph.search] on the store of [self], one step unfolded. *)
Lemma graph_search_unfold (cfg : Config) (self : RAG) (query : pystr)
  (k : Z) (response : option (list Q)) :
  Graph.search cfg query k response (Graph.store_of self)
  = if (length (metadata self) =? 0)%nat
    then Graph.bind
           (Graph.new_result
              (Graph.VStr (str "No documents found for: " ++ query))
              (Graph.VStr (str "System")) 0)
           (fun r => Graph.ret [r]) (Graph.store_of self)
    else
      let k := Py.min k (Z.of_nat (length (metadata self))) in
      match (if FAISS_AVAILABLE cfg then index self else None) with
      | Some idx =>
          let fallback := _text_to_vector query (d idx) in
          let query_vector :=
            if embeddings cfg && EMBEDDINGS_AVAILABLE cfg
            then match response with Some v => v | None => fallback end
            else fallback in
          match index_search idx query_vector k with
          | Raises e => (Raises e, Graph.store_of self)
          | Returns (distances, indices) =>
              Graph.retrieve (seq 0 (length (metadata self))) distances 0
                             indices [] (Graph.store_of self)
          end
      | None => Graph.keyword_search query k (Graph.store_of self)
      end.
Proof.
  unfold Graph.search. unfold Graph.bind at 1, Graph.get_metadata.
  cbn [Graph.store_of Graph.s_metadata]. rewrite length_seq.
  destruct (length (metadata self) =? 0)%nat; [reflexivity |].
  unfold Graph.bind at 1, Graph.get_index.
  cbn [Graph.store_of Graph.s_index].
  destruct (if FAISS_AVAILABLE cfg then index self else None) as [idx |];
    [| reflexivity].
  cbv zeta. destruct (index_search idx _ _) as [[distances indices] | e];
    reflexivity.
Qed.

(** Over the store that holds the records of [self], the program on the
    object graph returns dicts that read back as the results of
    [search], in the same order, and raises what [search] raises. *)
Lemma graph_search_refines (cfg : Config) (self : RAG) (query : pystr)
  (k : Z) (response : option (list Q)) :
  match search cfg self query k response with
  | Returns rs =>
      exists ls s',
        Graph.search cfg query k response (Graph.store_of self)
        = (Returns ls, s')
        /\ map (Graph.result_of (Graph.s_heap s')) ls = map Some rs
  | Raises e =>
      exists s',
        Graph.search cfg query k response (Graph.store_of self)
        = (Raises e, s')
  end.
Proof.
  pose proof (holds_store_of self) as Hs.
  rewrite graph_search_unfold. unfold search.
  destruct (length (metadata self) =? 0)%nat.
  - eexists _, _. split; [reflexivity |].
    unfold sentinel. cbn [map Graph.store_of Graph.s_heap].
    now rewrite (result_of_new (map Graph.doc_dict (metadata self))).
  - cbv zeta.
    destruct (if FAISS_AVAILABLE cfg then index self else None) as [idx |].
    + destruct (index_search idx _ _) as [[distances indices] | e].
      * pose proof (retrieve_refines (metadata self) distances indices
                      0%nat [] [] _ Hs (results_are_nil _)) as Href.
        destruct (retrieve (metadata self) distances 0 indices [])
          as [rs | e].
        -- destruct Href as (ls & s' & Hrun & Hres & _).
           exists ls, s'. split; [exact Hrun | exact Hres].
        -- exact Href.
      * eauto.
    + destruct (keyword_search_refines (metadata self) (index self) query
                  (Py.min k (Z.of_nat (length (metadata self))))
                  _ Hs) as (ls & s' & Hrun & Hres & _).
      destruct self as [i md]. exists ls, s'.
      split; [exact Hrun | exact Hres].
Qed.

End Refinement.

(** ** The claims on concrete stores *)

Section Concrete.

#[local] Existing Instance Example.numpy_fixed.
#[local] Existing Instance Example.flat_faiss.

Import Example.

(** C1, as stated, fails: of two records one matches the query; with
    [k = 2] the keyword path returns that one record, not two. *)
Lemma search_does_not_pad_matches :
  search keyword_cfg two_docs (str "alpha") 2 None
  = Returns [mkResult None (str "alpha") (str "a.txt") 1]
  /\ Z.of_nat (length [mkResult None (str "alpha") (str "a.txt") 1])
     <> Py.min 2 (Z.of_nat (length (metadata two_docs))).
Proof. split; [reflexivity | discriminate]. Qed.

Lemma keyword_search_count_witness :
  exists results,
    search keyword_cfg two_docs (str "alpha") 2 None = Returns results
    /\ (length results <= 2)%nat.
Proof.
  destruct (keyword_search_count keyword_cfg two_docs (str "alpha") 2 None)
    as (results & Hsearch & Hle & _).
  - left. reflexivity.
  - discriminate.
  - lia.
  - exists results. split; [exact Hsearch | exact Hle].
Defined.

Lemma text_to_vector_reference_witness :
  0 < 384
  /\ _text_to_vector (str "abc") 384 = reference_embedding (str "abc") 384.
Proof.
  split; [lia |].
  apply (text_to_vector_reference (str "abc") 384). lia.
Defined.

(** C3, as stated, fails: without FAISS the second call, whose
    vectors have 3 components after those of 384, returns its id and
    the store has grown to two records. *)
Lemma add_documents_accepts_other_dimension :
  returned second_add = Returns [str "vec_1"]
  /\ map (fun x => option_map (@length Q) (vector x))
         (metadata (rag_after second_add))
     = [Some 384%nat; Some 3%nat]
  /\ length (metadata (rag_after first_add)) = 1%nat
  /\ length (metadata (rag_after second_add)) = 2%nat.
Proof. repeat split; vm_compute; reflexivity. Qed.

Lemma add_documents_dimension_mismatch_witness :
  add_documents faiss_cfg indexed no_disk [str "a"] (str "n.txt") None
  = mkAfter (Raises AssertionError) indexed no_disk.
Proof.
  apply (proj1 (add_documents_dimension_mismatch faiss_cfg indexed no_disk
                  [str "a"] (str "n.txt") None) unit_index 384).
  - reflexivity.
  - reflexivity.
  - vm_compute. reflexivity.
  - vm_compute. discriminate.
Defined.

Lemma keyword_search_scores_sorted_witness :
  exists results,
    search keyword_cfg two_docs (str "alpha beta alpha") 2 None
    = Returns results
    /\ StronglySorted not_below results.
Proof.
  destruct (keyword_search_scores_sorted keyword_cfg two_docs
              (str "alpha beta alpha") 2 None)
    as [(results & Hsearch & _ & Hsorted) _].
  - left. reflexivity.
  - discriminate.
  - lia.
  - exists results. split; [exact Hsearch | exact Hsorted].
Defined.

(** C8, as stated, fails: the metadata file is missing and the index
    file is readable; the store loaded under FAISS has that index. *)
Lemma load_index_keeps_index_without_metadata :
  metadata_file index_only_disk = None
  /\ init faiss_cfg index_only_disk = mkRAG (Some unit_index) []
  /\ init faiss_cfg index_only_disk <> empty_rag.
Proof. repeat split; discriminate. Qed.

Lemma load_index_recovers_witness :
  init faiss_cfg corrupt_index_disk = empty_rag.
Proof.
  apply (proj1 (load_index_recovers faiss_cfg corrupt_index_disk)).
  left. left. split; reflexivity.
Defined.

(** The exhaustive index asked for more neighbours than it holds: the
    one vector at distance 0, then the index -1 with the largest
    float32. *)
Example flat_faiss_pads :
  index_search unit_index [1%Q; 0%Q] 2
  = Returns ([0%Q; inject_Z 340282346638528859811704183484516925440],
             [0; -1]).
Proof. vm_compute. reflexivity. Qed.

(** C9, as stated, fails: without FAISS, where [search] can only take
    the keyword path, both records carry their 384 numbers; with
    FAISS, where the store has its index, both vectors are null. *)
Lemma vector_kept_without_faiss :
  FAISS_AVAILABLE keyword_cfg = false
  /\ map (fun x => option_map (@length Q) (vector x))
         (metadata (rag_after bio))
     = [Some 384%nat; Some 384%nat]
  /\ FAISS_AVAILABLE faiss_cfg = true
  /\ map vector (metadata (rag_after bio_faiss)) = [None; None]
  /\ option_map d (index (rag_after bio_faiss)) = Some 384.
Proof. repeat split; vm_compute; reflexivity. Qed.

Lemma add_documents_records_witness :
  exists new,
    metadata (rag_after bio) = [] ++ new
    /\ map content new = [mito_chunk; weather_chunk]
    /\ forall (j : nat) (x : doc),
        nth_error new j = Some x ->
        vector x = Some (_text_to_vector (content x) 384).
Proof.
  destruct (add_documents_records keyword_cfg (init keyword_cfg no_disk)
              no_disk bio_texts (str "bio.txt") None
              [str "vec_0"; str "vec_1"])
    as (new & Hmd & Hcontent & _ & _ & _ & _ & Hvectors).
  - vm_compute. reflexivity.
  - exists new. split; [exact Hmd |]. split; [exact Hcontent |].
    intros j x Hx.
    apply (proj2 (Hvectors eq_refl j x Hx)). reflexivity.
Defined.

(** The chunks of a text without sentences to merge: a sentence of 500
    characters stays whole. *)
Lemma sentence_chunks_oversized_example :
  sentence_chunks (repeat "a"%char 500 ++ str ". b")
  = [repeat "a"%char 500 ++ str ". "; str "b. "].
Proof. vm_compute. reflexivity. Qed.

End Concrete.

(** * Further properties *)

(** ** More on the sentence chunker *)

Section ChunkerShape.

Lemma with_dot_space_app (a b : list pystr) :
  with_dot_space (a ++ b) = with_dot_space a ++ with_dot_space b.
Proof. unfold with_dot_space. now rewrite map_app, concat_app. Qed.

Lemma with_dot_space_one (s : pystr) :
  with_dot_space [s] = s ++ dot_space.
Proof. unfold with_dot_space. simpl. apply app_nil_r. Qed.

Lemma with_dot_space_nil (g : list pystr) :
  with_dot_space g = [] -> g = [].
Proof.
  destruct g as [| s g]; [reflexivity |]. unfold with_dot_space. simpl.
  intros Hnil. apply app_eq_nil in Hnil as [Hs _].
  apply app_eq_nil in Hs as [_ Hdot]. discriminate.
Qed.

Lemma chunk_step_grouped (seen : list pystr) (st : list pystr * pystr)
  (sentence : pystr) :
  grouped seen st -> grouped (seen ++ [sentence]) (chunk_step st sentence).
Proof.
  destruct st as [chunks cur].
  intros (groups & current & Hseen & Hne & Hchunks & Hcur).
  simpl in Hchunks, Hcur. subst chunks cur seen. unfold chunk_step.
  destruct (length (with_dot_space current) + length sentence <? 500)%nat.
  - exists groups, (current ++ [sentence]). simpl. repeat split.
    + now rewrite app_assoc.
    + exact Hne.
    + now rewrite with_dot_space_app, with_dot_space_one.
  - destruct (with_dot_space current) as [| c cs] eqn:Hcur.
    + apply with_dot_space_nil in Hcur. subst current.
      exists groups, [sentence]. simpl. repeat split.
      * now rewrite app_nil_r.
      * exact Hne.
      * now rewrite with_dot_space_one.
    + exists (groups ++ [current]), [sentence]. simpl. repeat split.
      * rewrite concat_app. simpl. now rewrite app_nil_r.
      * apply Forall_app. split; [exact Hne |].
        constructor; [| constructor]. intros ->. discriminate.
      * rewrite map_app. simpl. now rewrite Hcur.
      * now rewrite with_dot_space_one.
Qed.

Lemma fold_chunk_step_grouped (sentences : list pystr) :
  forall seen st,
    grouped seen st ->
    grouped (seen ++ sentences) (fold_left chunk_step sentences st).
Proof.
  induction sentences as [| s ss IH]; intros seen st Hst; simpl.
  - now rewrite app_nil_r.
  - replace (seen ++ s :: ss) with ((seen ++ [s]) ++ ss)
      by now rewrite <- app_assoc.
    apply IH, chunk_step_grouped, Hst.
Qed.

(** X1: the chunker cuts a text between sentences only.  The sentences
    of the text, in their order, fall into consecutive groups, none of
    them empty, and the chunks are these groups, one chunk per group: the
    sentences of the group, each followed by ". ". *)
Theorem sentence_chunks_whole_sentences (text : pystr) :
  exists groups : list (list pystr),
    concat groups = split_dot_space text
    /\ Forall (fun g => g <> []) groups
    /\ sentence_chunks text = map with_dot_space groups.
Proof.
  assert (Hstart : grouped [] ([], [])).
  { exists [], []. repeat split. constructor. }
  apply (fold_chunk_step_grouped (split_dot_space text)) in Hstart.
  destruct Hstart as (groups & current & Hseen & Hne & Hchunks & Hcur).
  rewrite sentence_chunks_flushed. unfold flushed. simpl in Hseen.
  rewrite Hchunks, Hcur.
  destruct (with_dot_space current) as [| c cs] eqn:Hcurrent.
  - apply with_dot_space_nil in Hcurrent. subst current.
    exists groups. rewrite app_nil_r in Hseen. now repeat split.
  - exists (groups ++ [current]). repeat split.
    + rewrite concat_app. simpl. now rewrite app_nil_r.
    + apply Forall_app. split; [exact Hne |].
      constructor; [| constructor]. intros ->. discriminate.
    + rewrite map_app. simpl. now rewrite Hcurrent.
Qed.

Lemma sized_chunk_more (sentences more : list pystr) (c : pystr) :
  sized_chunk sentences c -> sized_chunk (sentences ++ more) c.
Proof.
  intros [Hshort | (s & Hin & Hlong & ->)]; [now left | right].
  exists s. repeat split; [apply in_or_app; now left | exact Hlong].
Qed.

Lemma chunk_step_sized (seen : list pystr) (st : list pystr * pystr)
  (sentence : pystr) :
  Forall (sized_chunk seen) (fst st) /\ sized_chunk seen (snd st) ->
  Forall (sized_chunk (seen ++ [sentence])) (fst (chunk_step st sentence))
  /\ sized_chunk (seen ++ [sentence]) (snd (chunk_step st sentence)).
Proof.
  destruct st as [chunks cur]. simpl. intros [Hchunks Hcur].
  assert (Hchunks' : Forall (sized_chunk (seen ++ [sentence])) chunks).
  { eapply Forall_impl; [exact Hchunks |]. simpl. intros c.
    apply sized_chunk_more. }
  assert (Hnew : sized_chunk (seen ++ [sentence]) (sentence ++ dot_space)).
  { destruct (Nat.lt_ge_cases (length sentence) 500) as [Hlt | Hge].
    - left. rewrite length_app. simpl. lia.
    - right. exists sentence. repeat split; [| exact Hge].
      apply in_or_app. right. now left. }
  unfold chunk_step.
  destruct (Nat.ltb_spec (length cur + length sentence) 500) as [Hlt | Hge].
  - simpl. split; [exact Hchunks' |]. left.
    rewrite !length_app. simpl. lia.
  - destruct cur as [| c cur]; simpl; split; try assumption.
    apply Forall_app. split; [exact Hchunks' |].
    constructor; [| constructor]. now apply sized_chunk_more.
Qed.

(** X2: every chunk has at most 501 characters, unless it is a single
    sentence of 500 characters or more followed by ". "; so a text whose
    sentences are all shorter than 500 characters only gives chunks of at
    most 501 characters. *)
Theorem sentence_chunks_size (text : pystr) :
  Forall (sized_chunk (split_dot_space text)) (sentence_chunks text)
  /\ (Forall (fun s => (length s < 500)%nat) (split_dot_space text) ->
      Forall (fun c => (length c <= 501)%nat) (sentence_chunks text)).
Proof.
  assert (Hfold : forall ss seen st,
             Forall (sized_chunk seen) (fst st)
             /\ sized_chunk seen (snd st) ->
             Forall (sized_chunk (seen ++ ss))
                    (fst (fold_left chunk_step ss st))
             /\ sized_chunk (seen ++ ss) (snd (fold_left chunk_step ss st))).
  { induction ss as [| s ss IH]; intros seen st Hst; simpl.
    - now rewrite app_nil_r.
    - replace (seen ++ s :: ss) with ((seen ++ [s]) ++ ss)
        by now rewrite <- app_assoc.
      apply IH, chunk_step_sized, Hst. }
  assert (Hall : Forall (sized_chunk (split_dot_space text))
                        (sentence_chunks text)).
  { rewrite sentence_chunks_flushed. unfold flushed.
    destruct (Hfold (split_dot_space text) [] ([], [])) as [Hchunks Hcur].
    { split; [constructor | left; simpl; lia]. }
    simpl in Hchunks, Hcur.
    destruct (snd (fold_left chunk_step (split_dot_space text) ([], [])));
      [exact Hchunks |].
    apply Forall_app. split; [exact Hchunks |].
    constructor; [exact Hcur | constructor]. }
  split; [exact Hall |].
  intros Hshort. eapply Forall_impl; [exact Hall |]. simpl.
  intros c [Hc | (s & Hin & Hlong & _)]; [exact Hc |].
  eapply List.Forall_forall in Hshort; [| exact Hin]. lia.
Qed.

End ChunkerShape.

(** ** More on the deterministic embedding *)

Section EmbeddingShape.

Context {np : Numpy}.

(** In a run of copies of a block every position holds the element of
    the block at that position modulo the length of the block. *)
Lemma tiles_cycle (block : list Z) (m j : nat) :
  (0 < length block)%nat ->
  (j < m * length block)%nat ->
  nth_error (tiles block m) j = nth_error block (j mod length block).
Proof.
  intros Hpos. revert j. induction m as [| m IH]; intros j Hj; [lia |].
  change (tiles block (S m)) with (block ++ tiles block m).
  destruct (Nat.lt_ge_cases j (length block)) as [Hlt | Hge].
  - rewrite nth_error_app1 by exact Hlt. now rewrite Nat.mod_small.
  - rewrite nth_error_app2 by exact Hge. rewrite IH by (simpl in Hj; lia).
    f_equal.
    replace j with ((j - length block) + 1 * length block)%nat at 2 by lia.
    now rewrite Nat.Div0.mod_add.
Qed.

Lemma nth_error_firstn_lt {A} (l : list A) (n j : nat) :
  (j < n)%nat -> nth_error (firstn n l) j = nth_error l j.
Proof.
  revert l j. induction n as [| n IH]; intros l j Hj; [lia |].
  destruct l as [| x l]; [now destruct j |].
  destruct j as [| j]; [reflexivity |]. simpl. apply IH. lia.
Qed.

(** The bytes [repeated[:dimension]], position by position. *)
Lemma repeated_bytes_cycle (digest : list Z) (dimension : Z) (j : nat) :
  length digest = 32%nat ->
  (Z.of_nat j < dimension) ->
  nth_error
    (upto dimension
          (times digest (dimension / Z.of_nat (length digest) + 1))) j
  = nth_error digest (j mod 32).
Proof.
  intros Hlen Hj. unfold upto, times.
  destruct (Z.ltb_spec dimension 0) as [Hneg | _]; [lia |].
  rewrite nth_error_firstn_lt by lia.
  fold (tiles digest (Z.to_nat (dimension / Z.of_nat (length digest) + 1))).
  rewrite tiles_cycle; rewrite Hlen; [reflexivity | lia |].
  pose proof (Z.div_mod dimension 32 ltac:(lia)) as Hdiv.
  pose proof (Z.mod_pos_bound dimension 32 ltac:(lia)) as Hmod.
  pose proof (Z.div_pos dimension 32 ltac:(lia) ltac:(lia)) as Hq.
  change (Z.of_nat 32) with 32. lia.
Qed.

(** X3: the embedding repeats itself every 32 components: whatever the
    text and the dimension, the component at position [i + 32] is the
    component at position [i].  A vector of 384 components carries the
    32 bytes of one digest, twelve times. *)
Theorem text_to_vector_period (text : pystr) (dimension : Z) (i : nat) :
  Z.of_nat i + 32 < dimension ->
  nth_error (_text_to_vector text dimension) (i + 32)
  = nth_error (_text_to_vector text dimension) i.
Proof.
  intros Hi. unfold _text_to_vector.
  assert (Hbytes :
    nth_error
      (upto dimension
         (times (SHA256.digest (encode text))
            (dimension / Z.of_nat (length (SHA256.digest (encode text)))
             + 1))) (i + 32)
    = nth_error
        (upto dimension
           (times (SHA256.digest (encode text))
              (dimension / Z.of_nat (length (SHA256.digest (encode text)))
               + 1))) i).
  { rewrite !repeated_bytes_cycle by (try apply digest_length; lia).
    f_equal. replace (i + 32)%nat with (i + 1 * 32)%nat by lia.
    now rewrite Nat.Div0.mod_add. }
  destruct (Qgtb _ 0); rewrite !nth_error_map, ?Hbytes; reflexivity.
Qed.

(** The vector has as many components as the dimension says, none when
    the dimension is zero or negative. *)
Lemma text_to_vector_length (text : pystr) (dimension : Z) :
  length (_text_to_vector text dimension) = Z.to_nat dimension.
Proof.
  unfold _text_to_vector.
  assert (Hbytes :
    length
      (upto dimension
         (times (SHA256.digest (encode text))
            (dimension / Z.of_nat (length (SHA256.digest (encode text)))
             + 1)))
    = Z.to_nat dimension).
  { rewrite digest_length. unfold upto, times.
    destruct (Z.ltb_spec dimension 0) as [Hneg | Hpos].
    - replace (Z.to_nat dimension) with 0%nat by lia.
      assert (Hq : dimension / Z.of_nat 32 + 1 <= 0).
      { change (Z.of_nat 32) with 32.
        pose proof (Z.div_lt_upper_bound dimension 32 0 ltac:(lia)
                      ltac:(lia)). lia. }
      replace (Z.to_nat (dimension / Z.of_nat 32 + 1)) with 0%nat by lia.
      reflexivity.
    - rewrite firstn_length_le; [reflexivity |].
      fold (tiles (SHA256.digest (encode text))
                  (Z.to_nat (dimension / Z.of_nat 32 + 1))).
      rewrite tiles_length, digest_length.
      pose proof (Z.div_mod dimension 32 ltac:(lia)) as Hdiv.
      pose proof (Z.mod_pos_bound dimension 32 ltac:(lia)) as Hmod.
      pose proof (Z.div_pos dimension 32 ltac:(lia) ltac:(lia)) as Hq.
      change (Z.of_nat 32) with 32. lia. }
  destruct (Qgtb _ 0); now rewrite ?length_map.
Qed.

End EmbeddingShape.

(** ** The ids of the records *)

Section Ids.

Context {np : Numpy}.

Lemma digit_value (n : nat) :
  (nat_of_ascii (ascii_of_nat (48 + n mod 10)) - 48 = n mod 10)%nat.
Proof.
  pose proof (Nat.mod_upper_bound n 10 ltac:(lia)) as Hlt.
  rewrite nat_ascii_embedding by lia. lia.
Qed.

Lemma decimal_go_acc (fuel : nat) :
  forall (n : nat) (acc : pystr),
    decimal_go fuel n acc = decimal_go fuel n [] ++ acc.
Proof.
  induction fuel as [| fuel IH]; intros n acc; [reflexivity |].
  cbn [decimal_go]. destruct (n / 10 =? 0)%nat; [reflexivity |].
  rewrite (IH _ (_ :: acc)), (IH _ [_]), <- app_assoc. reflexivity.
Qed.

Lemma digits_value_snoc (s : pystr) (c : ascii) :
  digits_value (s ++ [c])
  = (10 * digits_value s + (nat_of_ascii c - 48))%nat.
Proof. unfold digits_value. now rewrite fold_left_app. Qed.

Lemma digits_value_decimal_go (fuel : nat) :
  forall n, (n < fuel)%nat -> digits_value (decimal_go fuel n []) = n.
Proof.
  induction fuel as [| fuel IH]; intros n Hn; [lia |]. cbn [decimal_go].
  destruct (Nat.eqb_spec (n / 10) 0) as [Hsmall | Hbig].
  - unfold digits_value. cbn [fold_left]. rewrite digit_value.
    pose proof (Nat.div_mod_eq n 10). lia.
  - rewrite decimal_go_acc, digits_value_snoc, digit_value.
    assert (Hdiv : (n / 10 < fuel)%nat).
    { pose proof (Nat.div_mod_eq n 10).
      pose proof (Nat.mod_upper_bound n 10 ltac:(lia)). lia. }
    rewrite (IH _ Hdiv). pose proof (Nat.div_mod_eq n 10). lia.
Qed.

(** Reading the digits of [str(n)] gives [n] back. *)
Lemma digits_value_decimal (n : nat) : digits_value (decimal n) = n.
Proof. apply digits_value_decimal_go. lia. Qed.

Lemma vec_id_injective (n m : nat) : vec_id n = vec_id m -> n = m.
Proof.
  unfold vec_id. intros Heq. apply app_inv_head in Heq.
  rewrite <- (digits_value_decimal n), <- (digits_value_decimal m).
  now rewrite Heq.
Qed.

(** Whether it returns or raises, the loop has appended records whose
    ids count on from [start_id + i]. *)
Lemma store_metadata_ids (cfg : Config) (arr : list (list Q))
  (src : pystr) (start : nat) (chunks : list pystr) :
  forall (i : nat) (md : list doc) (ids : list pystr),
  exists new,
    snd (store_metadata cfg arr src start i chunks md ids) = md ++ new
    /\ map id new = map vec_id (seq (start + i) (length new)).
Proof.
  induction chunks as [| chunk rest IH]; intros i md ids.
  - exists []. simpl. now rewrite app_nil_r.
  - simpl.
    assert (Hnext : forall v,
      exists new,
        snd (store_metadata cfg arr src start (S i) rest
               (md ++ [mkDoc (str "vec_" ++ decimal (start + i)) chunk
                             src v])
               (ids ++ [str "vec_" ++ decimal (start + i)]))
        = md ++ new
        /\ map id new = map vec_id (seq (start + i) (length new))).
    { intros v.
      destruct (IH (S i)
                  (md ++ [mkDoc (str "vec_" ++ decimal (start + i)) chunk
                                src v])
                  (ids ++ [str "vec_" ++ decimal (start + i)]))
        as (new & Hmd & Hids).
      exists (mkDoc (str "vec_" ++ decimal (start + i)) chunk src v :: new).
      rewrite Hmd, <- app_assoc. split; [reflexivity |].
      simpl. rewrite Hids. now rewrite Nat.add_succ_r. }
    destruct (FAISS_AVAILABLE cfg); [apply Hnext |].
    destruct (nth_error arr i); [apply Hnext |].
    exists []. simpl. now rewrite app_nil_r.
Qed.

Lemma numbered_app (md new : list doc) :
  numbered md ->
  map id new = map vec_id (seq (length md) (length new)) ->
  numbered (md ++ new).
Proof.
  unfold numbered. intros Hmd Hnew.
  rewrite map_app, length_app, seq_app, map_app, Hmd, Hnew. reflexivity.
Qed.

Lemma add_documents_numbered (cfg : Config) (self : RAG) (disk : Disk)
  (texts : list pystr) (src : pystr) (response : option (list (list Q))) :
  numbered (metadata self) ->
  numbered
    (metadata (rag_after (add_documents cfg self disk texts src response))).
Proof.
  intros Hmd. unfold add_documents.
  destruct (update_index cfg self _) as [idx' | e]; [| exact Hmd].
  destruct (store_metadata_ids cfg
              (embed_chunks cfg (split_texts cfg texts) response) src
              (length (metadata self)) (split_texts cfg texts) 0%nat
              (metadata self) []) as (new & Hnew & Hids).
  rewrite Nat.add_0_r in Hids.
  destruct (store_metadata cfg _ src _ 0 _ (metadata self) [])
    as [[out | e] md']; simpl in *; subst md'; now apply numbered_app.
Qed.

(** X4: in a store whose records at construction are numbered vec_0,
    vec_1, ... (none is the usual start), the records stay numbered in
    insertion order through every sequence of calls of [add_documents],
    raising ones included; no two records share an id. *)
Theorem run_ids_numbered (cfg : Config) (disk : Disk)
  (calls : list ingest) :
  numbered (metadata (init cfg disk)) ->
  numbered (metadata (fst (run cfg disk calls)))
  /\ List.NoDup (map id (metadata (fst (run cfg disk calls)))).
Proof.
  intros Hstart.
  assert (Hrun : numbered (metadata (fst (run cfg disk calls)))).
  { unfold run. change (init cfg disk) with (fst (init cfg disk, disk))
      in Hstart. revert Hstart. generalize (init cfg disk, disk).
    induction calls as [| c calls IH]; intros [self dk] Hself; simpl.
    - exact Hself.
    - apply IH. simpl. now apply add_documents_numbered. }
  split; [exact Hrun |]. rewrite Hrun.
  generalize (List.seq_NoDup (length (metadata (fst (run cfg disk calls))))
                             0).
  generalize (seq 0 (length (metadata (fst (run cfg disk calls))))).
  induction 1 as [| n l Hn Hl IH]; simpl; constructor; [| exact IH].
  intros Hin. apply in_map_iff in Hin as (m & Heq & Hm).
  apply vec_id_injective in Heq. now subst m.
Qed.

End Ids.

(** ** More on the store *)

Section StoreShape.

Context {np : Numpy} {fa : Faiss}.

Lemma embed_chunks_fallback (cfg : Config) (chunks : list pystr)
  (response : option (list (list Q))) :
  embeddings cfg && EMBEDDINGS_AVAILABLE cfg = false ->
  embed_chunks cfg chunks response
  = map (fun chunk => _text_to_vector chunk 384) chunks.
Proof. unfold embed_chunks. now intros ->. Qed.

Lemma fallback_rows (chunks : list pystr) :
  Forall (fun v => length v = 384%nat)
         (map (fun chunk => _text_to_vector chunk 384) chunks).
Proof.
  apply List.Forall_forall. intros v Hv.
  apply in_map_iff in Hv as (chunk & <- & _).
  now rewrite text_to_vector_length.
Qed.

Lemma add_documents_aligned (cfg : Config) (self : RAG) (disk : Disk)
  (texts : list pystr) (src : pystr) (response : option (list (list Q))) :
  FAISS_AVAILABLE cfg = true ->
  embeddings cfg && EMBEDDINGS_AVAILABLE cfg = false ->
  aligned self ->
  aligned (rag_after (add_documents cfg self disk texts src response)).
Proof.
  intros Hf Hprov Hself. unfold add_documents.
  rewrite (embed_chunks_fallback cfg _ response Hprov).
  set (chunks := split_texts cfg texts).
  set (arr := map (fun chunk => _text_to_vector chunk 384) chunks).
  destruct (store_metadata_faiss_returns cfg arr src
              (length (metadata self)) chunks Hf 0%nat (metadata self) [])
    as (out & md' & Hrun).
  assert (Hlen : length md' = (length (metadata self) + length arr)%nat).
  { apply store_metadata_spec in Hrun as (new & -> & _ & Hc & _).
    unfold arr. rewrite length_app, length_map, <- Hc, length_map.
    reflexivity. }
  pose proof (fallback_rows chunks) as Hrows. fold arr in Hrows.
  unfold update_index. rewrite Hf. unfold aligned in Hself.
  destruct (index self) as [i |] eqn:Hidx.
  - destruct Hself as (Hd & Hxb & Hall). unfold index_add.
    destruct arr as [| row rows] eqn:Harr.
    + simpl. unfold aligned. rewrite Hidx. auto.
    + inversion Hrows as [| ? ? Hrow _]; subst.
      rewrite Hrow, Hd. simpl Z.eqb. cbv iota. rewrite Hrun.
      unfold aligned. simpl. repeat split.
      * now rewrite length_app, Hxb, Hlen.
      * apply Forall_app. split; assumption.
  - unfold shape1, index_add. destruct arr as [| row rows] eqn:Harr.
    + simpl. unfold aligned. now rewrite Hidx.
    + inversion Hrows as [| ? ? Hrow _]; subst.
      cbn [d xb]. rewrite Hrow. simpl Z.eqb. cbv iota. rewrite Hrun.
      unfold aligned. simpl. repeat split.
      * rewrite Hlen, Hself. reflexivity.
      * exact Hrows.
Qed.

(** X5: with FAISS and without an embedding provider, a store that
    starts aligned (no index and no record is the usual start) stays
    aligned through every sequence of calls of [add_documents]: its index,
    once there, has the dimension 384 and holds one vector of 384
    components per record, so that position [n] of the index belongs to
    record [n]. *)
Theorem run_index_aligned (cfg : Config) (disk : Disk)
  (calls : list ingest) :
  FAISS_AVAILABLE cfg = true ->
  embeddings cfg && EMBEDDINGS_AVAILABLE cfg = false ->
  aligned (init cfg disk) ->
  aligned (fst (run cfg disk calls)).
Proof.
  intros Hf Hprov Hstart. unfold run.
  change (init cfg disk) with (fst (init cfg disk, disk)) in Hstart.
  revert Hstart. generalize (init cfg disk, disk).
  induction calls as [| c calls IH]; intros [self dk] Hself; simpl.
  - exact Hself.
  - apply IH. simpl. now apply add_documents_aligned.
Qed.

Lemma getitem_in {A} (l : list A) (i : Z) (x : A) :
  getitem l i = Some x -> In x l.
Proof.
  unfold getitem. destruct (i <? 0).
  - destruct (i <? - Z.of_nat (length l)); [discriminate |].
    apply nth_error_In.
  - apply nth_error_In.
Qed.

Lemma retrieve_from_store (md : list doc) (distances : list Q) :
  forall (indices : list Z) (i : nat) (acc rs : list result),
    Forall (from_store md) acc ->
    retrieve md distances i indices acc = Returns rs ->
    Forall (from_store md) rs.
Proof.
  induction indices as [| idx rest IH]; intros i acc rs Hacc; simpl.
  - now intros [= <-].
  - destruct (idx <? Z.of_nat (length md)); [| now apply IH].
    destruct (getitem md idx) as [doc |] eqn:Hget; [| discriminate].
    destruct (nth_error distances i) as [dist |]; [| discriminate].
    apply IH. apply Forall_app. split; [exact Hacc |].
    constructor; [| constructor].
    exists doc. simpl. split; [eapply getitem_in, Hget | now split].
Qed.

Lemma keyword_search_from_store (self : RAG) (query : pystr) (k : Z) :
  Forall (from_store (metadata self)) (keyword_search self query k).
Proof.
  unfold keyword_search.
  destruct (upto_is_firstn k (sort_desc (scored (lower query)
                                                 (metadata self))))
    as [n ->].
  destruct (upto_is_firstn k (metadata self)) as [m ->].
  destruct (firstn n _) as [| r rs] eqn:Hres.
  - apply List.Forall_forall. intros r Hr.
    apply in_map_iff in Hr as (doc & <- & Hdoc). apply in_firstn in Hdoc.
    exists doc. simpl. now repeat split.
  - rewrite <- Hres. apply List.Forall_forall. intros r' Hr'.
    apply in_firstn in Hr'.
    eapply Permutation_in in Hr'; [| apply sort_desc_perm].
    rewrite scored_matching in Hr'.
    apply in_map_iff in Hr' as (doc & <- & Hdoc).
    apply matching_in in Hdoc as [Hdoc _].
    exists doc. simpl. now repeat split.
Qed.

Lemma search_from_store (cfg : Config) (self : RAG)
  (query : pystr) (k : Z) (response : option (list Q))
  (rs : list result) :
  search cfg self query k response = Returns rs ->
  (metadata self = [] /\ rs = [sentinel query])
  \/ (metadata self <> [] /\ Forall (from_store (metadata self)) rs).
Proof.
  unfold search. destruct (metadata self) as [| doc docs] eqn:Hmd.
  - simpl. intros [= <-]. now left.
  - simpl length. simpl Nat.eqb. cbv iota. intros Hsearch.
    right. split; [discriminate |]. rewrite <- Hmd in *.
    destruct (if FAISS_AVAILABLE cfg then index self else None) as [i |].
    + destruct (index_search i _ _) as [[distances indices] | e];
        [| discriminate].
      eapply retrieve_from_store; [constructor | exact Hsearch].
    + injection Hsearch as <-. apply keyword_search_from_store.
Qed.

(** X6: [search] makes nothing up.  Whatever the configuration, the
    query, [k] (negative ones included) and the answers of the libraries,
    when [search] returns, either the store has no record and the result
    is the one placeholder, or every result carries the content and the
    source of a record of the store. *)
Theorem search_results_from_store (cfg : Config) (self : RAG)
  (query : pystr) (k : Z) (response : option (list Q))
  (rs : list result) :
  search cfg self query k response = Returns rs ->
  (metadata self = [] /\ rs = [sentinel query])
  \/ (metadata self <> [] /\ Forall (from_store (metadata self)) rs).
Proof. apply search_from_store. Qed.

Lemma add_documents_persisted (cfg : Config) (self : RAG) (disk : Disk)
  (texts : list pystr) (src : pystr) (response : option (list (list Q)))
  (ids : list pystr) :
  returned (add_documents cfg self disk texts src response) = Returns ids ->
  FAISS_AVAILABLE cfg = true \/ index self = None ->
  init cfg (disk_after (add_documents cfg self disk texts src response))
  = rag_after (add_documents cfg self disk texts src response).
Proof.
  unfold add_documents.
  destruct (update_index cfg self _) as [idx' | e] eqn:Hup; [| discriminate].
  destruct (store_metadata cfg _ src _ 0 _ (metadata self) [])
    as [[out | e] md']; simpl; [| discriminate].
  intros _ Hmode. unfold init, save_index, load_index. simpl.
  destruct (FAISS_AVAILABLE cfg) eqn:Hf.
  - pose proof (update_index_some cfg self _ idx' Hf Hup) as Hsome.
    destruct idx' as [i |]; [reflexivity | contradiction].
  - destruct Hmode as [Hfalse | Hnone]; [discriminate |].
    unfold update_index in Hup. rewrite Hf in Hup.
    injection Hup as <-. now rewrite Hnone.
Qed.

(** X7: what [add_documents] returns is on disk.  After a call that
    returns, under FAISS or in a store without index, a [RAGSystem]
    constructed from the files the call has written is the store the
    call left, with its index and its records. *)
Theorem add_documents_durable (cfg : Config) (self : RAG) (disk : Disk)
  (texts : list pystr) (src : pystr) (response : option (list (list Q)))
  (ids : list pystr) :
  returned (add_documents cfg self disk texts src response) = Returns ids ->
  FAISS_AVAILABLE cfg = true \/ index self = None ->
  init cfg (disk_after (add_documents cfg self disk texts src response))
  = rag_after (add_documents cfg self disk texts src response).
Proof. apply add_documents_persisted. Qed.

(** *** A query without words *)

Lemma lower_char_space (c : ascii) : isspace c = true -> lower_char c = c.
Proof.
  destruct c as [b0 b1 b2 b3 b4 b5 b6 b7].
  destruct b0, b1, b2, b3, b4, b5, b6, b7; try discriminate; reflexivity.
Qed.

Lemma split_ws_spaces (s : pystr) :
  forallb isspace s = true -> split_ws (lower s) = [].
Proof.
  unfold split_ws. induction s as [| c s IH]; [reflexivity |].
  simpl. intros Hall. apply andb_prop in Hall as [Hc Hs].
  rewrite (lower_char_space c Hc), Hc. now apply IH.
Qed.

Lemma scored_without_words (query_lower : pystr) (md : list doc) :
  split_ws query_lower = [] -> scored query_lower md = [].
Proof.
  intros Hwords. unfold scored, keyword_score. rewrite Hwords.
  induction md as [| doc md IH]; [reflexivity | exact IH].
Qed.

(** X8: a query without a word, the empty one or one of whitespace
    only, matches nothing: on the keyword path, over a store with
    records and with a [k] that is not negative, [search] returns the
    first [k] records in insertion order (all of them when there are
    fewer), each with the score 0.0. *)
Theorem search_query_without_words (cfg : Config) (self : RAG)
  (query : pystr) (k : Z) (response : option (list Q)) :
  keyword_mode cfg self ->
  metadata self <> [] ->
  0 <= k ->
  forallb isspace query = true ->
  search cfg self query k response
  = Returns (map zero_scored (firstn (Z.to_nat k) (metadata self))).
Proof.
  intros Hmode Hne Hk Hspaces.
  rewrite search_keyword_mode by assumption. f_equal.
  unfold keyword_search.
  rewrite (scored_without_words _ _ (split_ws_spaces query Hspaces)).
  assert (Hk' : 0 <= Py.min k (Z.of_nat (length (metadata self))))
    by (unfold Py.min; lia).
  rewrite !upto_nonneg by exact Hk'. simpl sort_desc.
  rewrite firstn_nil. now rewrite firstn_min_length.
Qed.

End StoreShape.

(** ** extract_topics_from_text *)

Section Topics.

Import PyText Ingest.

(** The six membership tests of the loop, each with its two answers. *)
Ltac by_occurrences text :=
  unfold extract_topics_from_text, keywords in *; cbn [flat_map] in *;
  destruct (contains (str "database") (lower text)) eqn:Hdatabase;
  destruct (contains (str "sql") (lower text)) eqn:Hsql;
  destruct (contains (str "algorithm") (lower text)) eqn:Halgorithm;
  destruct (contains (str "data structure") (lower text)) eqn:Hstructure;
  destruct (contains (str "network") (lower text)) eqn:Hnetwork;
  destruct (contains (str "security") (lower text)) eqn:Hsecurity.

(** X9: [extract_topics_from_text] never returns an empty list and never
    more than six topics, so that the cut at ten topics removes nothing;
    the names of the topics differ from one another, every mastery is 50
    and every importance is 7 or 8. *)
Theorem extract_topics_bounds (text : pystr) :
  (1 <= length (extract_topics_from_text text) <= 6)%nat
  /\ List.NoDup (map name (extract_topics_from_text text))
  /\ Forall (fun topic =>
               mastery topic = 50
               /\ (importance topic = 7 \/ importance topic = 8))
            (extract_topics_from_text text).
Proof.
  by_occurrences text; vm_compute;
    (split; [split; lia |]);
    (split;
     [ repeat (constructor;
               [intros Hin; repeat destruct Hin as [Hin | Hin];
                discriminate Hin || exact Hin |]);
       constructor
     | repeat (constructor;
               [split; [reflexivity
                       | first [left; reflexivity | right; reflexivity]] |]);
       constructor ]).
Qed.

(** X10: which topics [extract_topics_from_text] finds.  The title-cased
    name of a keyword is among the topics exactly when the keyword occurs
    in the lower-cased text, and the result is the two default topics
    exactly when none of the six keywords occurs. *)
Theorem extract_topics_found (text : pystr) :
  (forall keyword,
      In keyword keywords ->
      In (title keyword) (map name (extract_topics_from_text text))
      <-> substring keyword (lower text))
  /\ (extract_topics_from_text text = default_topics
      <-> forall keyword,
          In keyword keywords -> ~ substring keyword (lower text)).
Proof.
  split; [| split].
  - intros keyword Hin. rewrite <- contains_iff.
    by_occurrences text; repeat destruct Hin as [<- | Hin];
      try contradiction;
      first [ rewrite Hdatabase | rewrite Hsql | rewrite Halgorithm
            | rewrite Hstructure | rewrite Hnetwork | rewrite Hsecurity ];
      vm_compute;
      (split;
       [ intros H; first [ reflexivity
                         | repeat destruct H as [H | H];
                           discriminate H || contradiction ]
       | intros H; first [ discriminate H
                         | repeat first [left; reflexivity | right] ] ]).
  - intros Hdefault keyword Hin Hsub. apply contains_iff in Hsub.
    by_occurrences text; repeat destruct Hin as [<- | Hin];
      try contradiction; try congruence;
      vm_compute in Hdefault; discriminate Hdefault.
  - intros Hnone.
    assert (Hout : forall keyword,
               In keyword keywords -> contains keyword (lower text) = false).
    { intros keyword Hin. destruct (contains keyword (lower text)) eqn:Hc;
        [| reflexivity].
      apply contains_iff in Hc. now apply Hnone in Hc. }
    unfold extract_topics_from_text. unfold keywords at 1. cbn [flat_map].
    rewrite !Hout by (unfold keywords; simpl; tauto).
    reflexivity.
Qed.

End Topics.

(** ** process_document *)

Section Uploads.

Context `{Numpy} `{Faiss}.

Import PyText Ingest Teacher.

Lemma add_documents_new_records (cfg : Config) (self : RAG) (disk : Disk)
  (texts : list pystr) (src : pystr) (response : option (list (list Q)))
  (ids : list pystr) :
  returned (add_documents cfg self disk texts src response) = Returns ids ->
  exists new,
    metadata (rag_after (add_documents cfg self disk texts src response))
    = metadata self ++ new
    /\ ids = map id new
    /\ map content new = split_texts cfg texts
    /\ Forall (fun x => source x = src) new.
Proof.
  unfold add_documents.
  destruct (update_index cfg self _) as [idx' | e]; [| discriminate].
  destruct (store_metadata cfg _ src _ 0 _ (metadata self) [])
    as [[out | e] md'] eqn:Hstore; simpl; [| discriminate].
  intros [= <-].
  apply store_metadata_spec in Hstore
    as (new & -> & -> & Hcontent & Hsource & _).
  exists new. auto.
Qed.

(** X11: the rows of an upload.  When the indexing raises,
    [process_document] has added no row to the session.  When it
    returns, it has added one document row and after it one row per
    returned topic; the vector ids of the document row are the ids of
    the records the store has gained, in order, and these records hold
    the chunks of the extracted text under the base name of the file. *)
Theorem process_document_rows (cfg : Config) (disk : Disk)
  (session : list row) (user_id ext basename : pystr) (r : readers)
  (response : option (list (list Q))) :
  let p := process_document cfg disk session user_id ext basename r
                            response in
  match topics_returned p with
  | Raises e => session_after p = session
  | Returns topics =>
      exists document new,
        session_after p
        = session ++ DocumentRow document :: map TopicRow topics
        /\ metadata (rag_processed p) = metadata (init cfg disk) ++ new
        /\ vectorIds document = map id new
        /\ filename document = basename
        /\ Forall (fun x => source x = basename) new
        /\ map content new
           = split_texts cfg [extracted_text (lower ext) r]
  end.
Proof.
  unfold process_document.
  destruct (returned (add_documents cfg (init cfg disk) disk
                        [extracted_text (lower ext) r] basename response))
    as [ids | e] eqn:Hadd; simpl.
  - apply add_documents_new_records in Hadd
      as (new & Hmd & -> & Hcontent & Hsource).
    eexists _, new. repeat split; eauto.
  - reflexivity.
Qed.

Lemma unsupported_text (file_ext : pystr) (r : readers) :
  supported file_ext = false ->
  extracted_text file_ext r = str "Unsupported file format".
Proof.
  unfold supported, extracted_text. cbn [existsb].
  destruct (str_eqb file_ext (str ".pdf")); [discriminate |].
  destruct (str_eqb file_ext (str ".png")); [discriminate |].
  destruct (str_eqb file_ext (str ".jpg")); [discriminate |].
  destruct (str_eqb file_ext (str ".jpeg")); [discriminate |].
  destruct (str_eqb file_ext (str ".txt")); [discriminate |].
  reflexivity.
Qed.

(** X12: a file of another type is not refused.  With the sentence
    chunker, without FAISS and without an embedding provider,
    [process_document] on a path whose extension is none of .pdf, .png,
    .jpg, .jpeg and .txt (in any case of letters) returns the two default
    topics, and the store gains one record: the sentence
    "Unsupported file format. " under the base name of the file, with the
    next id and the fallback embedding. *)
Theorem process_document_unsupported (cfg : Config) (disk : Disk)
  (session : list row) (user_id ext basename : pystr) (r : readers)
  (response : option (list (list Q))) :
  supported (lower ext) = false ->
  RecursiveCharacterTextSplitter cfg = None ->
  FAISS_AVAILABLE cfg = false ->
  embeddings cfg && EMBEDDINGS_AVAILABLE cfg = false ->
  let p := process_document cfg disk session user_id ext basename r
                            response in
  topics_returned p
  = Returns [mkTopic user_id (str "General Concepts") 7 50;
             mkTopic user_id (str "Core Principles") 8 50]
  /\ metadata (rag_processed p)
     = metadata (init cfg disk)
       ++ [mkDoc (vec_id (length (metadata (init cfg disk))))
                 (str "Unsupported file format. ") basename
                 (Some (_text_to_vector (str "Unsupported file format. ")
                                        384))].
Proof.
  intros Hext Hsplitter Hfaiss Hprovider.
  assert (Hchunks : sentence_chunks (str "Unsupported file format")
                    = [str "Unsupported file format. "])
    by (vm_compute; reflexivity).
  assert (Htopics : extract_topics_from_text (str "Unsupported file format")
                    = default_topics)
    by (vm_compute; reflexivity).
  unfold process_document, add_documents, split_texts, embed_chunks,
    update_index.
  rewrite (unsupported_text _ r Hext), Hsplitter, Hfaiss, Hprovider.
  cbn [flat_map]. rewrite Hchunks.
  cbn [app map store_metadata nth_error]. rewrite Hfaiss.
  cbn [returned rag_after topics_returned rag_processed metadata].
  rewrite Htopics, Nat.add_0_r. split; reflexivity.
Qed.

(** ** generate_lesson *)

Lemma keyword_search_length (self : RAG) (query : pystr) (k : Z) :
  metadata self <> [] ->
  1 <= k ->
  (1 <= length (keyword_search self query
                  (Py.min k (Z.of_nat (length (metadata self)))))
   <= Z.to_nat k)%nat.
Proof.
  intros Hne Hk.
  assert (Hlen : (1 <= length (metadata self))%nat).
  { destruct (metadata self); [contradiction | simpl; lia]. }
  set (k' := Py.min k (Z.of_nat (length (metadata self)))).
  assert (Hk' : 1 <= k' <= k) by (unfold k', Py.min; lia).
  destruct (keyword_search_cases self query k' ltac:(lia))
    as [[Hsome ->] | [_ ->]].
  - split.
    + destruct (firstn _ _); [contradiction | simpl; lia].
    + rewrite length_firstn. lia.
  - rewrite length_map, length_firstn. unfold k', Py.min in *. lia.
Qed.

(** X13: the citations of a lesson made without a language model.  When
    [generate_lesson] returns, the citations are the one name "System"
    if the store of the user has no record, and otherwise each citation
    is the source of a record of the store.  On the keyword path the call
    returns, with at least one and at most five citations. *)
Theorem generate_lesson_citations (cfg : Config) (disk : Disk)
  (topic_name : pystr) (response : option (list Q)) :
  (forall l,
      generate_lesson cfg disk topic_name response = Returns l ->
      (metadata (init cfg disk) = [] /\ citations l = [str "System"])
      \/ (metadata (init cfg disk) <> []
          /\ Forall (cites (metadata (init cfg disk))) (citations l)))
  /\ (keyword_mode cfg (init cfg disk) ->
      exists l,
        generate_lesson cfg disk topic_name response = Returns l
        /\ (1 <= length (citations l) <= 5)%nat).
Proof.
  unfold generate_lesson. split.
  - intros l.
    destruct (search cfg (init cfg disk) topic_name 5 response)
      as [docs | e] eqn:Hsearch; [| discriminate].
    intros [= <-]. simpl.
    destruct (search_from_store _ _ _ _ _ _ Hsearch)
      as [[Hnil ->] | [Hne Hfrom]].
    + left. split; [exact Hnil | reflexivity].
    + right. split; [exact Hne |].
      rewrite List.Forall_forall in *. intros c Hc.
      apply in_map_iff in Hc as (res & <- & Hres).
      destruct (Hfrom res Hres) as (doc & Hdoc & _ & Hsrc).
      exists doc. auto.
  - intros Hmode.
    destruct (metadata (init cfg disk)) as [| doc docs] eqn:Hmd.
    + unfold search. rewrite Hmd. simpl. eexists. split; [reflexivity |].
      simpl. lia.
    + rewrite search_keyword_mode by (try exact Hmode; rewrite Hmd;
                                      discriminate).
      eexists. split; [reflexivity |]. simpl. rewrite length_map.
      change 5%nat with (Z.to_nat 5).
      apply keyword_search_length; [rewrite Hmd; discriminate | lia].
Qed.

Lemma init_without_faiss (cfg : Config) (disk : Disk) :
  FAISS_AVAILABLE cfg = false -> index (init cfg disk) = None.
Proof.
  intros Hfaiss. unfold init, load_index. rewrite Hfaiss.
  destruct (metadata_file disk) as [[m |] |]; reflexivity.
Qed.

Lemma sentence_chunks_some (text : pystr) : sentence_chunks text <> [].
Proof.
  intros Hnil. pose proof (sentence_chunks_cover text) as Hcover.
  rewrite Hnil in Hcover. simpl in Hcover.
  destruct text; discriminate.
Qed.

(** X14: a lesson after the first upload.  Without FAISS and with the
    sentence chunker, when [process_document] returns for a user whose
    store had no record, a lesson generated from the files it has written
    cites the uploaded file and nothing else: [generate_lesson] returns,
    for every topic, with one to five citations, each of them the base
    name of the file. *)
Theorem lesson_cites_upload (cfg : Config) (disk : Disk)
  (session : list row) (user_id ext basename : pystr) (r : readers)
  (response : option (list (list Q))) (topics : list Topic)
  (topic_name : pystr) (query_response : option (list Q)) :
  FAISS_AVAILABLE cfg = false ->
  RecursiveCharacterTextSplitter cfg = None ->
  metadata (init cfg disk) = [] ->
  topics_returned (process_document cfg disk session user_id ext basename
                                    r response)
  = Returns topics ->
  exists l,
    generate_lesson cfg
      (disk_processed (process_document cfg disk session user_id ext
                                        basename r response))
      topic_name query_response
    = Returns l
    /\ (1 <= length (citations l) <= 5)%nat
    /\ Forall (fun citation => citation = basename) (citations l).
Proof.
  intros Hfaiss Hsplitter Hempty. unfold process_document.
  destruct (returned (add_documents cfg (init cfg disk) disk
                        [extracted_text (lower ext) r] basename response))
    as [ids | e] eqn:Hadd; simpl; [| discriminate].
  intros _.
  pose proof (add_documents_persisted _ _ _ _ _ _ _ Hadd
                (or_intror (init_without_faiss cfg disk Hfaiss)))
    as Hdisk.
  apply add_documents_new_records in Hadd
    as (new & Hmd & _ & Hcontent & Hsource).
  rewrite Hempty in Hmd. simpl in Hmd.
  unfold split_texts in Hcontent. rewrite Hsplitter in Hcontent.
  simpl in Hcontent. rewrite app_nil_r in Hcontent.
  assert (Hne : new <> []).
  { intros ->. symmetry in Hcontent.
    now apply sentence_chunks_some in Hcontent. }
  unfold generate_lesson. rewrite Hdisk.
  set (after := rag_after _) in *.
  assert (Hmode : keyword_mode cfg after) by (now left).
  rewrite search_keyword_mode by (try exact Hmode; now rewrite Hmd).
  eexists. split; [reflexivity |]. simpl. rewrite length_map. split.
  - change 5%nat with (Z.to_nat 5).
    apply keyword_search_length; [now rewrite Hmd | lia].
  - rewrite List.Forall_forall. intros c Hc.
    apply in_map_iff in Hc as (res & <- & Hres).
    pose proof (keyword_search_from_store after topic_name
                  (Py.min 5 (Z.of_nat (length (metadata after)))))
      as Hfrom.
    rewrite List.Forall_forall in Hfrom.
    destruct (Hfrom res Hres) as (doc & Hdoc & _ & ->).
    rewrite Hmd in Hdoc. rewrite List.Forall_forall in Hsource.
    now apply Hsource.
Qed.

End Uploads.

(** ** generate_mock_exam *)

Section MockExam.

Import QuizGen.

Lemma q_name_injective (n m : nat) : q_name n = q_name m -> n = m.
Proof.
  unfold q_name. intros Heq. apply app_inv_head in Heq.
  rewrite <- (digits_value_decimal n), <- (digits_value_decimal m).
  now rewrite Heq.
Qed.

(** The loop over the topics appends two questions per topic, numbered
    on from the counter, each with half the marks of a topic. *)
Lemma questions_fold (m : Z) (topics : list pystr) :
  forall (qs : list question) (n : nat),
  exists new,
    fold_left (topic_questions m) topics (qs, n)
    = (qs ++ new, (n + 2 * length topics)%nat)
    /\ map q_id new = map q_name (seq n (2 * length topics))
    /\ map q_topicId new = flat_map (fun t => [t; t]) topics
    /\ Forall (fun q => q_marks q = m / 2) new.
Proof.
  induction topics as [| t topics IH]; intros qs n.
  - exists []. simpl. rewrite app_nil_r, Nat.add_0_r.
    repeat split. constructor.
  - cbn [fold_left]. unfold topic_questions at 2.
    cbn [seq fold_left add_question].
    destruct (IH ((qs ++ [mkQuestion (q_name n)
                            (str "Question " ++ decimal n
                               ++ str " on topic " ++ t)
                            (m / 2)
                            (repr_int (m / 2)
                               ++ str " marks for complete answer") t])
                    ++ [mkQuestion (q_name (S n))
                          (str "Question " ++ decimal (S n)
                             ++ str " on topic " ++ t)
                          (m / 2)
                          (repr_int (m / 2)
                             ++ str " marks for complete answer") t])
                 (S (S n)))
      as (new & Hfold & Hids & Htopics & Hmarks).
    eexists (_ :: _ :: new). split; [| split; [| split]].
    + unfold q_name in Hfold. rewrite Hfold, <- !app_assoc.
      cbn [app length]. f_equal. lia.
    + cbn [length map]. rewrite Hids.
      replace (2 * S (length topics))%nat
        with (S (S (2 * length topics))) by lia.
      reflexivity.
    + cbn [map flat_map app]. now rewrite Htopics.
    + repeat constructor. exact Hmarks.
Qed.

Lemma generate_mock_exam_fold (exam_type : pystr)
  (duration total_marks : Z) (topics : list pystr) :
  let m := match topics with
           | [] => total_marks
           | _ => total_marks / Z.of_nat (length topics)
           end in
  map q_id (questions (generate_mock_exam exam_type duration total_marks
                                           topics))
  = map q_name (seq 1 (2 * length topics))
  /\ map q_topicId (questions (generate_mock_exam exam_type duration
                                                   total_marks topics))
     = flat_map (fun t => [t; t]) topics
  /\ Forall (fun q => q_marks q = m / 2)
            (questions (generate_mock_exam exam_type duration total_marks
                                           topics)).
Proof.
  intros m. unfold generate_mock_exam. fold m. cbn [questions].
  destruct (questions_fold m topics [] 1) as (new & -> & Hids & Ht & Hm).
  simpl. auto.
Qed.

Lemma map_injective_NoDup {A B} (f : A -> B) (l : list A) :
  (forall x y, f x = f y -> x = y) ->
  List.NoDup l -> List.NoDup (map f l).
Proof.
  intros Hinj Hl. induction Hl as [| x l Hx Hl IH]; simpl; constructor.
  - intros Hin. apply in_map_iff in Hin as (y & Heq & Hy).
    apply Hinj in Heq. now subst.
  - exact IH.
Qed.

(** X15: the questions of a mock exam.  For every topic, in the order
    of the topics, the exam has two questions on it, so that it has
    twice as many questions as topics and none without topics; the ids
    of the questions are q1, q2, ... in this order, and no two
    questions share an id. *)
Theorem generate_mock_exam_questions (exam_type : pystr)
  (duration total_marks : Z) (topics : list pystr) :
  map q_topicId (questions (generate_mock_exam exam_type duration
                                                total_marks topics))
  = flat_map (fun t => [t; t]) topics
  /\ map q_id (questions (generate_mock_exam exam_type duration
                                              total_marks topics))
     = map q_name (seq 1 (2 * length topics))
  /\ List.NoDup (map q_id (questions (generate_mock_exam exam_type duration
                                        total_marks topics))).
Proof.
  destruct (generate_mock_exam_fold exam_type duration total_marks topics)
    as (Hids & Htopics & _).
  repeat split; [exact Htopics | exact Hids |].
  rewrite Hids. apply map_injective_NoDup.
  - apply q_name_injective.
  - apply List.seq_NoDup.
Qed.

Lemma total_from (qs : list question) :
  forall acc, fold_left (fun acc q => acc + q_marks q) qs acc
              = acc + total qs.
Proof.
  unfold total. induction qs as [| q qs IH]; intros acc;
    cbn [fold_left]; [lia |].
  rewrite (IH (acc + q_marks q)), (IH (0 + q_marks q)). lia.
Qed.

Lemma total_equal_marks (c : Z) (qs : list question) :
  Forall (fun q => q_marks q = c) qs ->
  total qs = Z.of_nat (length qs) * c.
Proof.
  induction 1 as [| q qs Hq _ IH]; [reflexivity |].
  unfold total. cbn [fold_left length]. rewrite total_from, IH, Hq. lia.
Qed.

(** X16: the marks of a mock exam with at least one topic.  Every
    question carries [total_marks // len(topics) // 2] marks.  The marks
    of the questions add up to at most [total_marks], fall short of it by
    less than the number of questions, and add up to [total_marks]
    exactly when the number of questions divides [total_marks]. *)
Theorem generate_mock_exam_marks (exam_type : pystr)
  (duration total_marks : Z) (topics : list pystr) :
  topics <> [] ->
  let qs := questions (generate_mock_exam exam_type duration total_marks
                                          topics) in
  Forall (fun q => q_marks q = total_marks / Z.of_nat (length topics) / 2)
         qs
  /\ total qs <= total_marks < total qs + Z.of_nat (length qs)
  /\ (total qs = total_marks
      <-> total_marks mod Z.of_nat (length qs) = 0).
Proof.
  intros Hne qs.
  destruct (generate_mock_exam_fold exam_type duration total_marks topics)
    as (Hids & _ & Hmarks).
  fold qs in Hids, Hmarks.
  assert (Hlen : length qs = (2 * length topics)%nat).
  { rewrite <- (length_map q_id), Hids, length_map, length_seq.
    reflexivity. }
  destruct topics as [| t topics]; [contradiction |].
  set (n := Z.of_nat (length (t :: topics))) in *.
  assert (Hn : 0 < n) by (unfold n; simpl; lia).
  split; [exact Hmarks |].
  rewrite (total_equal_marks _ _ Hmarks), Hlen.
  replace (Z.of_nat (2 * length (t :: topics))) with (n * 2)
    by (unfold n; lia).
  rewrite Z.div_div by lia.
  pose proof (Z.div_mod total_marks (n * 2) ltac:(lia)) as Hdiv.
  pose proof (Z.mod_pos_bound total_marks (n * 2) ltac:(lia)) as Hmod.
  split; [| split]; lia.
Qed.

End MockExam.

(** ** Doubles *)

Section Doubles.

Import Float64 Evaluator.

Lemma round_half_even_le (p q : Z) :
  0 < q -> p / q <= round_half_even p q <= p / q + 1.
Proof.
  intros Hq. unfold round_half_even.
  destruct (2 * (p mod q) <? q); [lia |].
  destruct (q <? 2 * (p mod q)); [lia |].
  destruct (Z.even (p / q)); lia.
Qed.

Lemma last_place_le (a b : Z) :
  0 < a -> 0 < b -> a < b * 2 ^ 1023 -> last_place a b <= 971.
Proof.
  intros Ha Hb Hlt. unfold last_place.
  assert (Hlog : Z.log2 a <= 1023 + Z.log2 b).
  { rewrite <- Z.log2_mul_pow2 by lia. apply Z.log2_le_mono. lia. }
  destruct (scaled a b _) as [p q].
  destruct (2 ^ 53 <=? p / q); lia.
Qed.

Lemma nearest_positive_some (a b : Z) :
  0 < a -> 0 < b -> a < b * 2 ^ 1023 ->
  exists y, nearest_positive a b = Some y
            /\ (0 <= y)%Q
            /\ (y <= (a # Z.to_pos b) + inject_Z (2 ^ 971))%Q.
Proof.
  intros Ha Hb Hlt. unfold nearest_positive.
  pose proof (last_place_le a b Ha Hb Hlt) as He.
  set (e := last_place a b) in *. unfold scaled.
  destruct (Z.leb_spec 0 e) as [Hpos | Hneg].
  - assert (Hpow : 0 < 2 ^ e) by (apply Z.pow_pos_nonneg; lia).
    assert (Hq : 0 < b * 2 ^ e) by lia.
    pose proof (round_half_even_le a (b * 2 ^ e) Hq) as [Hlo Hhi].
    pose proof (Z.div_pos a (b * 2 ^ e) ltac:(lia) Hq) as Hdiv0.
    pose proof (Z.mul_div_le a (b * 2 ^ e) Hq) as Hfloor.
    set (m := round_half_even a (b * 2 ^ e)) in *.
    set (f := a / (b * 2 ^ e)) in *.
    assert (Hpow971 : 2 ^ e <= 2 ^ 971) by (apply Z.pow_le_mono_r; lia).
    assert (Hf : f * 2 ^ e < 2 ^ 1023).
    { apply (Z.mul_lt_mono_pos_l b); [lia |].
      apply Z.le_lt_trans with a; [| lia]. lia. }
    assert (Hm : m * 2 ^ e <= f * 2 ^ e + 2 ^ e) by nia.
    assert (H1024 : 2 ^ 1023 + 2 ^ 971 < 2 ^ 1024) by (vm_compute; reflexivity).
    destruct (Z.leb_spec (2 ^ 1024) (m * 2 ^ e)); [lia |].
    eexists. split; [reflexivity |]. split.
    + unfold Qle. simpl. nia.
    + unfold Qle, Qplus, inject_Z. simpl. rewrite Z2Pos.id by lia.
      rewrite Pos.mul_1_r, Z2Pos.id by lia. nia.
  - eexists. split; [reflexivity |].
    assert (Hpow : 0 < 2 ^ (- e)) by (apply Z.pow_pos_nonneg; lia).
    pose proof (round_half_even_le (a * 2 ^ (- e)) b Hb) as [Hlo Hhi].
    pose proof (Z.div_pos (a * 2 ^ (- e)) b ltac:(nia) Hb) as Hdiv0.
    pose proof (Z.mul_div_le (a * 2 ^ (- e)) b Hb) as Hfloor.
    set (m := round_half_even (a * 2 ^ (- e)) b) in *.
    set (f := a * 2 ^ (- e) / b) in *.
    rewrite Qred_correct. split.
    + unfold Qle. simpl. lia.
    + unfold Qle, Qplus, inject_Z. simpl. rewrite !Z2Pos.id by lia.
      rewrite Pos.mul_1_r, Z2Pos.id by lia.
      assert (0 < 2 ^ 971) by (vm_compute; reflexivity).
      nia.
Qed.

Lemma nearest_some (x : Q) :
  Z.abs (Qnum x) < Zpos (Qden x) * 2 ^ 1023 ->
  exists y, nearest x = Some y
            /\ Z.abs (Qnum y) * Zpos (Qden x)
               <= (Z.abs (Qnum x) + 2 ^ 971 * Zpos (Qden x)) * Zpos (Qden y).
Proof.
  intros Hx. unfold nearest.
  destruct (Z.eqb_spec (Qnum x) 0) as [Hzero | Hnonzero].
  - eexists. split; [reflexivity |]. simpl.
    assert (0 < 2 ^ 971) by (vm_compute; reflexivity). lia.
  - destruct (Z.ltb_spec 0 (Qnum x)) as [Hpos | Hneg].
    + destruct (nearest_positive_some (Qnum x) (Zpos (Qden x)))
        as (y & -> & Hy0 & Hy); [lia | lia | lia |].
      exists y. split; [reflexivity |].
      unfold Qle, Qplus, inject_Z in Hy0, Hy. simpl in Hy0, Hy.
      rewrite Pos.mul_1_r in Hy. rewrite Z.abs_eq by lia.
      rewrite Z.abs_eq by lia. lia.
    + destruct (nearest_positive_some (- Qnum x) (Zpos (Qden x)))
        as (y & -> & Hy0 & Hy); [lia | lia | lia |].
      exists (- y)%Q. split; [reflexivity |].
      unfold Qle, Qplus, inject_Z in Hy0, Hy. simpl in Hy0, Hy.
      rewrite Pos.mul_1_r in Hy. simpl. rewrite Z.abs_opp.
      rewrite Z.abs_eq by lia. rewrite (Z.abs_neq (Qnum x)) by lia. lia.
Qed.

Lemma int_of_product_some (marks : Z) (factor : Q) :
  Z.abs marks < 2 ^ 1022 ->
  0 <= Qnum factor <= Zpos (Qden factor) ->
  exists n, int_of_product marks factor = Done n.
Proof.
  intros Hmarks Hfactor. unfold int_of_product, of_int, mul.
  assert (H1023 : 2 ^ 1022 + 2 ^ 971 < 2 ^ 1023) by (vm_compute; reflexivity).
  assert (H1022 : 2 ^ 1022 < 2 ^ 1023) by (vm_compute; reflexivity).
  assert (H971 : 0 < 2 ^ 971) by (vm_compute; reflexivity).
  destruct (nearest_some (inject_Z marks)) as (x & -> & Hx);
    [simpl; lia |].
  simpl in Hx.
  destruct (nearest_some (x * factor)) as (y & -> & _); [| eauto].
  simpl. rewrite Z.abs_mul, Pos2Z.inj_mul.
  rewrite (Z.abs_eq (Qnum factor)) by lia.
  assert (Hxb : Z.abs (Qnum x) < Zpos (Qden x) * 2 ^ 1023) by nia.
  destruct (Z.eq_dec (Qnum factor) 0) as [-> | Hne]; [lia |].
  apply Z.le_lt_trans with (Z.abs (Qnum x) * Zpos (Qden factor)); [nia |].
  nia.
Qed.

(** The doubles of the model against Python: [int((57 / 100) * 100)] is
    56, [int((29 / 100) * 100)] is 28, [int(7 * 0.8)] is 5, and
    [float(2 ** 1024 - 2 ** 970)] overflows while the integer before it
    does not. *)
Example percent_rounds :
  percent 57 100 = Done 56 /\ percent 29 100 = Done 28
  /\ percent 65 100 = Done 65 /\ percent 1 3 = Done 33.
Proof. vm_compute. repeat split. Qed.

Example int_of_product_rounds :
  int_of_product 7 (Float64.literal (8 # 10)) = Done 5
  /\ int_of_product 33 (Float64.literal (5 # 10)) = Done 16
  /\ int_of_product 33 (Float64.literal (2 # 10)) = Done 6.
Proof. vm_compute. repeat split. Qed.

Example of_int_overflows :
  Float64.of_int (2 ^ 1024 - 2 ^ 970) = None
  /\ Float64.of_int (2 ^ 1024 - 2 ^ 970 - 1)
     = Some (inject_Z (2 ^ 1024 - 2 ^ 971)).
Proof. vm_compute. repeat split. Qed.

End Doubles.

(** ** grade_submission *)

Section Grading.

Import PyText QuizGen Evaluator.

Lemma str_eqb_eq (a b : pystr) : str_eqb a b = true <-> a = b.
Proof.
  revert b. induction a as [| x a IH]; intros [| y b]; simpl;
    try (split; [discriminate | discriminate]); [tauto |].
  unfold ascii_eqb. rewrite andb_true_iff, Ascii.eqb_eq, IH.
  split; [intros [-> ->]; reflexivity | intros [= -> ->]; auto].
Qed.

Lemma str_eqb_refl (a : pystr) : str_eqb a a = true.
Proof. now apply str_eqb_eq. Qed.

Lemma find_question_done (questions : list question) (a : answer)
  (found : option question) :
  find_question questions a = Done found -> found = named questions a.
Proof.
  unfold find_question, named. destruct questions as [| q qs].
  - intros [= <-]. now destruct (questionId a).
  - destruct (questionId a); [| discriminate]. now intros [= <-].
Qed.

(** *** Without a language model *)

Lemma percent_of_nothing (total_marks : Z) : percent 0 total_marks = Done 0.
Proof. unfold percent. now destruct (total_marks >? 0). Qed.

Lemma grade_answer_unbound (questions : list question) (st : locals)
  (a : answer) :
  grading st = None ->
  match grade_answer None questions st a with
  | Done st' => st' = st /\ find_question questions a = Done None
  | Raised e =>
      match find_question questions a with
      | Raised e' => e = e'
      | Done None => False
      | Done (Some q) =>
          match mock_grading q a with
          | Raised e' => e = e'
          | Done _ => e = UnboundLocalError
          end
      end
  end.
Proof.
  intros Hunbound. unfold grade_answer.
  destruct (find_question questions a) as [[q |] | e]; auto.
  destruct (mock_grading q a) as [g | e]; [| reflexivity].
  now rewrite Hunbound.
Qed.

Lemma grade_answers_unbound (questions : list question)
  (submitted : list answer) (st : locals) :
  grading st = None ->
  match grade_answers None questions submitted st with
  | Done st' =>
      st' = st
      /\ Forall (fun a => find_question questions a = Done None) submitted
  | Raised e =>
      exists a,
        In a submitted
        /\ match find_question questions a with
           | Raised e' => e = e'
           | Done None => False
           | Done (Some q) =>
               match mock_grading q a with
               | Raised e' => e = e'
               | Done _ => e = UnboundLocalError
               end
           end
  end.
Proof.
  intros Hunbound. induction submitted as [| a rest IH]; simpl.
  - split; [reflexivity | constructor].
  - pose proof (grade_answer_unbound questions st a Hunbound) as Hstep.
    destruct (grade_answer None questions st a) as [st' | e].
    + destruct Hstep as [-> Hnone].
      destruct (grade_answers None questions rest st) as [st'' | e].
      * destruct IH as [-> Hrest]. split; [reflexivity |].
        now constructor.
      * destruct IH as (b & Hb & Hraise). exists b. split; [now right |].
        exact Hraise.
    + exists a. split; [now left | exact Hstep].
Qed.

Lemma find_question_none (questions : list question) (a : answer)
  (q : question) :
  find_question questions a = Done None ->
  In q questions -> questionId a <> Some (q_id q).
Proof.
  unfold find_question. destruct questions as [| q0 qs]; [contradiction |].
  destruct (questionId a) as [i |]; [| discriminate].
  intros [= Hfind] Hin [= ->].
  pose proof (find_none (fun x => str_eqb (q_id x) (q_id q)) (q0 :: qs)
                Hfind q Hin) as Hno.
  simpl in Hno. now rewrite str_eqb_refl in Hno.
Qed.

Lemma mock_grading_returns (q : question) (a : answer) :
  Z.abs (q_marks q) < 2 ^ 1022 ->
  exists g, mock_grading q a = Done g.
Proof.
  intros Hmarks. unfold mock_grading.
  destruct (_ >? 100);
    [| destruct (_ >? 20)];
    match goal with
    | |- context [int_of_product ?m ?f] =>
        destruct (int_of_product_some m f Hmarks) as [n ->];
          [vm_compute; split; discriminate | eauto]
    end.
Qed.

(** X17: grading without a language model.  [grade_submission] then
    returns only the empty grading, with the score 0, no graded answer
    and no topic, and only when no answer names a question of the exam.
    When an answer names a question, it raises; and when moreover every
    answer has its "questionId" and the marks of every question are
    below [2 ^ 1022] in absolute value, it raises UnboundLocalError, as
    [grading] is not bound. *)
Theorem grade_submission_without_llm (questions : list question)
  (submitted : list answer) :
  (forall r,
      grade_submission None questions submitted = Done r ->
      r = mkSubmission 0 [] []
      /\ forall a q,
          In a submitted -> In q questions ->
          questionId a <> Some (q_id q))
  /\ (forall a q,
         In a submitted -> In q questions ->
         questionId a = Some (q_id q) ->
         exists e, grade_submission None questions submitted = Raised e)
  /\ (forall a q,
         In a submitted -> In q questions ->
         questionId a = Some (q_id q) ->
         Forall (fun a => questionId a <> None) submitted ->
         Forall (fun q => Z.abs (q_marks q) < 2 ^ 1022) questions ->
         grade_submission None questions submitted
         = Raised UnboundLocalError).
Proof.
  pose proof (grade_answers_unbound questions submitted
                (mkLocals [] [] None 0) eq_refl) as Hloop.
  unfold grade_submission.
  destruct (grade_answers None questions submitted (mkLocals [] [] None 0))
    as [st | e].
  - destruct Hloop as [-> Hnone]. cbn [graded_answers topic_breakdown].
    unfold total_awarded. cbn [fold_left]. rewrite percent_of_nothing.
    rewrite List.Forall_forall in Hnone.
    assert (Hnames : forall a q,
               In a submitted -> In q questions ->
               questionId a <> Some (q_id q)).
    { intros a q Ha Hq. eapply find_question_none; eauto. }
    split; [| split].
    + intros r [= <-]. split; [reflexivity | exact Hnames].
    + intros a q Ha Hq Hid. now apply Hnames in Hid.
    + intros a q Ha Hq Hid. now apply Hnames in Hid.
  - split; [discriminate |]. split; [eauto |].
    intros _ _ _ _ _ Hids Hmarks. f_equal.
    destruct Hloop as (b & Hb & Hraise).
    rewrite List.Forall_forall in Hids, Hmarks.
    unfold find_question in Hraise.
    destruct questions as [| q0 qs]; [contradiction |].
    destruct (questionId b) as [i |] eqn:Hi;
      [| now apply Hids in Hb].
    destruct (find _ (q0 :: qs)) as [q |] eqn:Hfind; [| contradiction].
    apply find_some in Hfind as [Hq _]. apply Hmarks in Hq.
    destruct (mock_grading_returns q b Hq) as [g Hg].
    now rewrite Hg in Hraise.
Qed.

(** *** With a language model *)

Lemma named_id (questions : list question) (a : answer) (q : question) :
  named questions a = Some q ->
  questionId a = Some (q_id q) /\ In q questions.
Proof.
  unfold named. destruct (questionId a) as [i |]; [| discriminate].
  intros Hfind. apply find_some in Hfind as [Hin Heq].
  apply str_eqb_eq in Heq. now subst.
Qed.

Lemma grade_answers_llm (replies : nat -> reply)
  (questions : list question) (submitted : list answer) :
  forall st st',
    grade_answers (Some replies) questions submitted st = Done st' ->
    let new := graded_from replies (calls st) (matched questions submitted) in
    graded_answers st' = graded_answers st ++ new
    /\ topic_breakdown st'
       = fold_left credited
                   (combine new (map snd (matched questions submitted)))
                   (topic_breakdown st).
Proof.
  induction submitted as [| a rest IH]; intros st st'.
  - simpl. intros [= <-]. now rewrite app_nil_r.
  - cbn [grade_answers]. unfold grade_answer.
    destruct (find_question questions a) as [found | e] eqn:Hfind;
      [| discriminate].
    apply find_question_done in Hfind. subst found.
    unfold matched. cbn [flat_map]. fold (matched questions rest).
    destruct (named questions a) as [q |] eqn:Hnamed.
    + intros Hrest. apply IH in Hrest. cbn [calls graded_answers
                                              topic_breakdown] in Hrest.
      destruct Hrest as [Hgraded Hbreakdown].
      apply named_id in Hnamed as [Hid _]. rewrite Hid in *.
      cbn [app graded_from map combine fold_left].
      rewrite Hgraded, <- app_assoc. split; [reflexivity |].
      exact Hbreakdown.
    + intros Hrest. apply IH in Hrest. exact Hrest.
Qed.

Lemma graded_from_length (replies : nat -> reply)
  (pairs : list (answer * question)) :
  forall n, length (graded_from replies n pairs) = length pairs.
Proof.
  induction pairs as [| [a q] rest IH]; intros n; simpl; [reflexivity |].
  now rewrite IH.
Qed.

Lemma graded_from_nth (replies : nat -> reply)
  (pairs : list (answer * question)) :
  forall start n a q,
    nth_error pairs n = Some (a, q) ->
    nth_error (graded_from replies start pairs) n
    = Some (mkGraded (q_id q) (get_answer a)
              (marksAwarded (llm_grading (replies (start + n)%nat) q))
              (feedback (llm_grading (replies (start + n)%nat) q))).
Proof.
  induction pairs as [| [a0 q0] rest IH]; intros start [| n] a q;
    simpl; try discriminate.
  - intros [= -> ->]. now rewrite Nat.add_0_r.
  - intros Hnth. rewrite (IH (S start) n a q Hnth).
    now rewrite Nat.add_succ_r.
Qed.

Lemma grade_submission_llm (replies : nat -> reply)
  (questions : list question) (submitted : list answer) (r : submission) :
  grade_submission (Some replies) questions submitted = Done r ->
  answers r = graded_from replies 0 (matched questions submitted)
  /\ topicBreakdown r
     = fold_left credited
                 (combine (answers r)
                          (map snd (matched questions submitted)))
                 [].
Proof.
  unfold grade_submission.
  destruct (grade_answers (Some replies) questions submitted _)
    as [st | e] eqn:Hloop; [| discriminate].
  apply grade_answers_llm in Hloop. simpl in Hloop.
  destruct Hloop as [Hgraded Hbreakdown].
  destruct (percent _ _) as [s | e]; [| discriminate].
  intros [= <-]. cbn [answers topicBreakdown].
  rewrite Hgraded. auto.
Qed.

(** X18: the answers graded with a language model.  When
    [grade_submission] returns, it has graded the answers that name a
    question of the exam, and no others, in the order of the submission:
    the n-th graded answer carries the id of the question, the text of
    the answer, or the empty string for an answer without text, and the
    marks and the feedback of the n-th reply, or, when that reply is no
    JSON, half the marks of the question, rounded down. *)
Theorem grade_submission_answers (replies : nat -> reply)
  (questions : list question) (submitted : list answer) (r : submission) :
  grade_submission (Some replies) questions submitted = Done r ->
  length (answers r) = length (matched questions submitted)
  /\ forall n a q,
      nth_error (matched questions submitted) n = Some (a, q) ->
      nth_error (answers r) n
      = Some (mkGraded (q_id q) (get_answer a)
                (marksAwarded (llm_grading (replies n) q))
                (feedback (llm_grading (replies n) q))).
Proof.
  intros Hr. apply grade_submission_llm in Hr as [-> _]. split.
  - apply graded_from_length.
  - intros n a q Hnth.
    now rewrite (graded_from_nth replies _ 0 n a q Hnth).
Qed.

(** *** The breakdown by topic *)

Lemma sum_Z_snoc (l : list Z) (x : Z) : sum_Z (l ++ [x]) = sum_Z l + x.
Proof. unfold sum_Z. induction l as [| y l IH]; simpl; lia. Qed.

Lemma str_eqb_sym (a b : pystr) : str_eqb a b = str_eqb b a.
Proof.
  destruct (str_eqb a b) eqn:Hab, (str_eqb b a) eqn:Hba; try reflexivity.
  - apply str_eqb_eq in Hab. subst. now rewrite str_eqb_refl in Hba.
  - apply str_eqb_eq in Hba. subst. now rewrite str_eqb_refl in Hab.
Qed.

Lemma credit_keys (t : pystr) (e p : Z) (tb : list (pystr * breakdown))
  (k : pystr) :
  In k (map fst (credit t e p tb)) <-> In k (map fst tb) \/ k = t.
Proof.
  induction tb as [| [key b] rest IH]; simpl.
  - intuition.
  - destruct (str_eqb key t) eqn:Hkey; simpl.
    + apply str_eqb_eq in Hkey. subst. intuition.
    + rewrite IH. intuition.
Qed.

Lemma credit_NoDup (t : pystr) (e p : Z) (tb : list (pystr * breakdown)) :
  List.NoDup (map fst tb) -> List.NoDup (map fst (credit t e p tb)).
Proof.
  induction tb as [| [key b] rest IH]; simpl; intros Hnodup.
  - constructor; [intros [] | constructor].
  - inversion Hnodup as [| ? ? Hnotin Hrest]; subst.
    destruct (str_eqb key t) eqn:Hkey; simpl.
    + now constructor.
    + constructor; [| now apply IH].
      rewrite credit_keys. intros [Hin | ->]; [contradiction |].
      now rewrite str_eqb_refl in Hkey.
Qed.

Lemma credit_breakdown_of (t : pystr) (e p : Z)
  (tb : list (pystr * breakdown)) (topic_id : pystr) :
  breakdown_of topic_id (credit t e p tb)
  = if str_eqb t topic_id
    then Some (match breakdown_of topic_id tb with
               | Some b => mkBreakdown (earned b + e) (possible b + p)
               | None => mkBreakdown e p
               end)
    else breakdown_of topic_id tb.
Proof.
  unfold breakdown_of. induction tb as [| [key b] rest IH]; simpl.
  - now destruct (str_eqb t topic_id).
  - destruct (str_eqb key t) eqn:Hkey; simpl.
    + apply str_eqb_eq in Hkey. subst key.
      now destruct (str_eqb t topic_id).
    + destruct (str_eqb key topic_id) eqn:Hkt; simpl.
      * apply str_eqb_eq in Hkt. subst key.
        rewrite str_eqb_sym in Hkey. now rewrite Hkey.
      * exact IH.
Qed.

Lemma tally_snoc (topic_id : pystr)
  (done : list (graded_answer * question)) (p : graded_answer * question) :
  tally (on_topic topic_id (done ++ [p]))
  = if str_eqb (q_topicId (snd p)) topic_id
    then Some (match tally (on_topic topic_id done) with
               | Some b =>
                   mkBreakdown (earned b + g_marksAwarded (fst p))
                               (possible b + q_marks (snd p))
               | None => mkBreakdown (g_marksAwarded (fst p))
                                     (q_marks (snd p))
               end)
    else tally (on_topic topic_id done).
Proof.
  unfold on_topic. rewrite List.filter_app. simpl.
  destruct (str_eqb (q_topicId (snd p)) topic_id);
    [| now rewrite app_nil_r].
  destruct (List.filter _ done) as [| p0 ps].
  { unfold tally, sum_Z. simpl. now rewrite !Z.add_0_r. }
  cbn [app]. unfold tally.
  rewrite !app_comm_cons, !List.map_app. cbn [map].
  rewrite !sum_Z_snoc. reflexivity.
Qed.

Lemma fold_credited (pairs : list (graded_answer * question)) :
  forall (done : list (graded_answer * question))
         (tb : list (pystr * breakdown)),
    List.NoDup (map fst tb) ->
    (forall topic_id,
        breakdown_of topic_id tb = tally (on_topic topic_id done)) ->
    List.NoDup (map fst (fold_left credited pairs tb))
    /\ forall topic_id,
        breakdown_of topic_id (fold_left credited pairs tb)
        = tally (on_topic topic_id (done ++ pairs)).
Proof.
  induction pairs as [| p rest IH]; intros done tb Hnodup Htally.
  - simpl. now rewrite app_nil_r.
  - cbn [fold_left].
    replace (done ++ p :: rest) with ((done ++ [p]) ++ rest)
      by now rewrite <- app_assoc.
    apply IH.
    + now apply credit_NoDup.
    + intros topic_id. unfold credited.
      now rewrite credit_breakdown_of, tally_snoc, Htally.
Qed.

(** X19: the breakdown by topic, with a language model.  When
    [grade_submission] returns, the breakdown has one entry for every
    topic a graded answer belongs to, and no other; the marks earned
    under a topic are the sum of the marks awarded to the graded answers
    on it, and the marks possible the sum of the marks of their
    questions, a question counting once for each answer to it. *)
Theorem grade_submission_breakdown (replies : nat -> reply)
  (questions : list question) (submitted : list answer) (r : submission) :
  grade_submission (Some replies) questions submitted = Done r ->
  List.NoDup (map fst (topicBreakdown r))
  /\ forall topic_id,
      breakdown_of topic_id (topicBreakdown r)
      = tally (on_topic topic_id
                 (combine (answers r)
                          (map snd (matched questions submitted)))).
Proof.
  intros Hr. apply grade_submission_llm in Hr as [_ ->].
  apply (fold_credited _ [] []); [constructor | reflexivity].
Qed.

End Grading.

(** ** is_heading and extract_topics_and_content *)

Section Headings.

Import PyText PdfExtraction.

Lemma lstrip_idempotent (s : pystr) : lstrip (lstrip s) = lstrip s.
Proof.
  induction s as [| c s IH]; simpl; [reflexivity |].
  destruct (isspace c) eqn:Hc; [exact IH |]. simpl. now rewrite Hc.
Qed.

Lemma lstrip_keeps_last (s : pystr) (c : ascii) :
  isspace c = false -> exists pre, lstrip (s ++ [c]) = pre ++ [c].
Proof.
  intros Hc. induction s as [| x s IH]; simpl.
  - rewrite Hc. now exists [].
  - destruct (isspace x); [exact IH |]. now exists (x :: s).
Qed.

Lemma lstrip_head (s : pystr) :
  match lstrip s with
  | [] => True
  | c :: _ => isspace c = false
  end.
Proof.
  induction s as [| c s IH]; simpl; [exact I |].
  destruct (isspace c) eqn:Hc; [exact IH | exact Hc].
Qed.

Lemma lstrip_fixed (s : pystr) :
  match s with
  | [] => True
  | c :: _ => isspace c = false
  end ->
  lstrip s = s.
Proof. destruct s as [| c s]; simpl; [reflexivity |]. now intros ->. Qed.

Lemma strip_idempotent (s : pystr) : strip (strip s) = strip s.
Proof.
  unfold strip.
  assert (Hleft : lstrip (rstrip (lstrip s)) = rstrip (lstrip s)).
  { apply lstrip_fixed. pose proof (lstrip_head s) as Hhead.
    destruct (lstrip s) as [| c t]; [exact I |].
    unfold rstrip. simpl rev.
    destruct (lstrip_keeps_last (rev t) c Hhead) as [pre ->].
    rewrite rev_app_distr. exact Hhead. }
  rewrite Hleft. unfold rstrip. rewrite rev_involutive.
  now rewrite lstrip_idempotent.
Qed.

(** A title is a heading, and so are a line in capitals and a line
    without an alphabetic word; a sentence is none. *)
Example is_heading_lines :
  is_heading (str "  Chapter One ") = true
  /\ is_heading (str "ATP SYNTHESIS IN THE CELL, ITS STEPS AND ITS YIELD")
     = true
  /\ is_heading (str "3.1") = true
  /\ is_heading (str "the cell divides.") = false
  /\ is_heading (str "   ") = false.
Proof. vm_compute. repeat split. Qed.

Lemma is_heading_strip (line : pystr) :
  is_heading (strip line) = is_heading line.
Proof. unfold is_heading. now rewrite strip_idempotent. Qed.

Lemma is_heading_not_blank (line : pystr) :
  is_heading line = true -> strip line <> [].
Proof. unfold is_heading. now destruct (strip line). Qed.

Lemma read_line_topic_set (st : state) (line : pystr) :
  topic_set st -> topic_set (read_line st line).
Proof.
  unfold topic_set, read_line. intros Hst.
  destruct (is_heading line) eqn:Hheading; [| exact Hst].
  apply is_heading_not_blank in Hheading.
  destruct (flushed_topic st); simpl; now destruct (strip line).
Qed.

(** What the loop and the lines after it give, by the outline of the
    lines still to read. *)
Lemma fold_read_line (lines : list pystr) :
  forall st,
    topic_set st ->
    let st' := fold_left read_line lines st in
    let '(lead, sections) := outline lines in
    let later := map (fun s => section_of (fst s) (snd s)) sections in
    match flushed_topic st' with
    | Some s => results st' ++ [s]
    | None => results st'
    end
    = match current_topic st with
      | Some t =>
          results st ++ section_of t (current_content st ++ lead) :: later
      | None =>
          match sections with
          | [] => results st
          | (heading, body) :: more =>
              results st
                ++ section_of heading (current_content st ++ lead ++ body)
                :: map (fun s => section_of (fst s) (snd s)) more
          end
      end.
Proof.
  induction lines as [| line rest IH]; intros st Hst.
  - simpl. rewrite app_nil_r. unfold flushed_topic, topic_set in *.
    destruct (current_topic st) as [[| c t] |]; try reflexivity.
    contradiction.
  - cbn [fold_left outline].
    pose proof (IH (read_line st line) (read_line_topic_set st line Hst))
      as Hrest.
    cbv zeta in Hrest. cbv zeta.
    destruct (outline rest) as [lead sections].
    rewrite Hrest. clear Hrest IH. unfold read_line.
    destruct (is_heading line) eqn:Hheading.
    + unfold flushed_topic, topic_set in *.
      destruct (current_topic st) as [[| c t] |]; try contradiction.
      * cbn [current_topic results current_content map fst snd app].
        unfold section_of at 1. rewrite strip_idempotent.
        rewrite <- app_assoc, app_nil_r. reflexivity.
      * cbn [current_topic results current_content map fst snd app].
        unfold section_of at 1. rewrite strip_idempotent. reflexivity.
    + cbn [current_topic results current_content].
      destruct (current_topic st) as [t |].
      * now rewrite <- app_assoc.
      * destruct sections as [| [heading body] more]; [reflexivity |].
        now rewrite <- !app_assoc.
Qed.

(** X21: what goes under which topic.  The lines of the text fall into
    the lines before the first heading and, for every heading, the lines
    after it up to the next heading.  [extract_topics_and_content]
    returns nothing for a text without a heading; otherwise it returns
    one dict for every heading, in order, with the heading stripped as
    the topic and the lines under it, joined by newlines and stripped,
    as the content -- and the content of the first dict begins with the
    lines before the first heading. *)
Theorem extract_topics_and_content_outline (text : pystr) :
  extract_topics_and_content text
  = match outline (split_lines text) with
    | (_, []) => []
    | (lead, (heading, body) :: more) =>
        section_of heading (lead ++ body)
          :: map (fun s => section_of (fst s) (snd s)) more
    end.
Proof.
  unfold extract_topics_and_content.
  pose proof (fold_read_line (split_lines text) (mkState [] None []) I)
    as Hfold.
  cbv zeta in Hfold. destruct (outline (split_lines text)) as [lead sections].
  rewrite Hfold. simpl. now destruct sections as [| [heading body] more].
Qed.

Lemma outline_headings (lines : list pystr) :
  map fst (snd (outline lines)) = List.filter is_heading lines.
Proof.
  induction lines as [| line rest IH]; simpl; [reflexivity |].
  destruct (outline rest) as [lead sections]. simpl in IH.
  destruct (is_heading line); simpl; now rewrite ?IH.
Qed.

(** X20: the topics of a text.  [extract_topics_and_content] returns
    one dict for every line that is a heading, in the order of the
    lines, and its topic is that line stripped.  So every topic is a
    heading itself, is not empty and has no whitespace at either end. *)
Theorem extract_topics_and_content_topics (text : pystr) :
  map topic (extract_topics_and_content text)
  = map strip (List.filter is_heading (split_lines text))
  /\ Forall (fun s => is_heading (topic s) = true
                      /\ topic s <> []
                      /\ strip (topic s) = topic s)
            (extract_topics_and_content text).
Proof.
  assert (Htopics : map topic (extract_topics_and_content text)
                    = map strip (List.filter is_heading (split_lines text))).
  { rewrite extract_topics_and_content_outline, <- outline_headings.
    destruct (outline (split_lines text)) as [lead [| [heading body] more]];
      [reflexivity |].
    simpl. f_equal. rewrite !map_map. reflexivity. }
  split; [exact Htopics |].
  apply List.Forall_forall. intros s Hs.
  assert (Hin : In (topic s) (map topic (extract_topics_and_content text)))
    by now apply in_map.
  rewrite Htopics in Hin. apply in_map_iff in Hin as (line & <- & Hline).
  apply List.filter_In in Hline as [_ Hheading].
  rewrite is_heading_strip, strip_idempotent.
  split; [exact Hheading |]. split; [| reflexivity].
  now apply is_heading_not_blank.
Qed.

End Headings.

(** ** add_documents without a chunk *)

Section EmptyBatch.

Context `{Numpy}.

Lemma split_texts_nil (cfg : Config) (texts : list pystr) :
  RecursiveCharacterTextSplitter cfg = None ->
  split_texts cfg texts = [] <-> texts = [].
Proof.
  intros Hsplitter. unfold split_texts. rewrite Hsplitter. split.
  - destruct texts as [| text rest]; [reflexivity |]. simpl.
    intros Hnil. apply app_eq_nil in Hnil as [Hnil _].
    now apply sentence_chunks_some in Hnil.
  - now intros ->.
Qed.

(** X22: a call of [add_documents] that has no chunk to add, without an
    embedding provider.  The store is left as it was.  With FAISS the
    call raises, IndexError when the store has no index yet and
    ValueError when it has one, and writes nothing; without FAISS it
    returns no id and writes the metadata file.  With the sentence
    chunker there is no chunk exactly when there is no text. *)
Theorem add_documents_no_chunks (cfg : Config) (self : RAG) (disk : Disk)
  (texts : list pystr) (src : pystr) (response : option (list (list Q))) :
  split_texts cfg texts = [] ->
  embeddings cfg && EMBEDDINGS_AVAILABLE cfg = false ->
  rag_after (add_documents cfg self disk texts src response) = self
  /\ (if FAISS_AVAILABLE cfg
      then returned (add_documents cfg self disk texts src response)
           = Raises (match index self with
                     | None => IndexError
                     | Some _ => ValueError
                     end)
           /\ disk_after (add_documents cfg self disk texts src response)
              = disk
      else returned (add_documents cfg self disk texts src response)
           = Returns []
           /\ disk_after (add_documents cfg self disk texts src response)
              = mkDisk (index_file disk) (Some (Readable (metadata self))))
  /\ (RecursiveCharacterTextSplitter cfg = None -> texts = []).
Proof.
  intros Hchunks Hprovider.
  split; [| split];
    [| | intros Hsplitter; now apply (split_texts_nil cfg texts Hsplitter)].
  - unfold add_documents, embed_chunks, update_index.
    rewrite Hchunks, Hprovider. cbn [map store_metadata].
    destruct (FAISS_AVAILABLE cfg), self as [[i |] md]; reflexivity.
  - unfold add_documents, embed_chunks, update_index, save_index.
    rewrite Hchunks, Hprovider. cbn [map store_metadata].
    destruct (FAISS_AVAILABLE cfg), self as [[i |] md]; split; reflexivity.
Qed.

End EmptyBatch.

(** ** The further properties on concrete stores *)

Section ConcreteMore.

#[local] Existing Instance Example.numpy_fixed.
#[local] Existing Instance Example.flat_faiss.

Import Example.

Lemma text_to_vector_period_witness :
  nth_error (_text_to_vector (str "abc") 384) (5 + 32)
  = nth_error (_text_to_vector (str "abc") 384) 5.
Proof. apply (text_to_vector_period (str "abc") 384 5). lia. Defined.

Lemma run_ids_numbered_witness :
  numbered (metadata (fst (run keyword_cfg no_disk
                             [mkIngest bio_texts (str "bio.txt") None])))
  /\ List.NoDup
       (map id (metadata (fst (run keyword_cfg no_disk
                                [mkIngest bio_texts (str "bio.txt") None])))).
Proof.
  apply (run_ids_numbered keyword_cfg no_disk
           [mkIngest bio_texts (str "bio.txt") None]).
  reflexivity.
Defined.

Lemma run_index_aligned_witness :
  aligned (fst (run faiss_cfg no_disk
                  [mkIngest bio_texts (str "bio.txt") None])).
Proof.
  apply (run_index_aligned faiss_cfg no_disk
           [mkIngest bio_texts (str "bio.txt") None]);
    reflexivity.
Defined.

Lemma search_results_from_store_witness :
  (metadata two_docs = []
   /\ [mkResult None (str "alpha") (str "a.txt") 1] = [sentinel (str "alpha")])
  \/ (metadata two_docs <> []
      /\ Forall (from_store (metadata two_docs))
                [mkResult None (str "alpha") (str "a.txt") 1]).
Proof.
  apply (search_results_from_store keyword_cfg two_docs (str "alpha") 2 None).
  reflexivity.
Defined.

Lemma search_query_without_words_witness :
  search keyword_cfg two_docs (str "  ") 1 None
  = Returns (map zero_scored (firstn (Z.to_nat 1) (metadata two_docs))).
Proof.
  apply (search_query_without_words keyword_cfg two_docs (str "  ") 1 None).
  - left. reflexivity.
  - discriminate.
  - lia.
  - reflexivity.
Defined.

Lemma process_document_unsupported_witness :
  Ingest.topics_returned
    (Ingest.process_document keyword_cfg no_disk [] (str "u1") (str ".DOCX")
       (str "notes.DOCX") (Ingest.mkReaders [] [] []) None)
  = Returns [Ingest.mkTopic (str "u1") (str "General Concepts") 7 50;
             Ingest.mkTopic (str "u1") (str "Core Principles") 8 50]
  /\ metadata
       (Ingest.rag_processed
          (Ingest.process_document keyword_cfg no_disk [] (str "u1")
             (str ".DOCX") (str "notes.DOCX") (Ingest.mkReaders [] [] [])
             None))
     = metadata (init keyword_cfg no_disk)
       ++ [mkDoc (vec_id (length (metadata (init keyword_cfg no_disk))))
                 (str "Unsupported file format. ") (str "notes.DOCX")
                 (Some (_text_to_vector (str "Unsupported file format. ")
                                        384))].
Proof.
  apply (process_document_unsupported keyword_cfg no_disk [] (str "u1")
           (str ".DOCX") (str "notes.DOCX") (Ingest.mkReaders [] [] [])
           None);
    reflexivity.
Defined.

Lemma lesson_cites_upload_witness :
  exists l,
    Teacher.generate_lesson keyword_cfg
      (Ingest.disk_processed
         (Ingest.process_document keyword_cfg no_disk [] (str "u1")
            (str ".txt") (str "net.txt")
            (Ingest.mkReaders [] []
               (str "The network is down. Security matters."))
            None))
      (str "network") None
    = Returns l
    /\ (1 <= length (Teacher.citations l) <= 5)%nat
    /\ Forall (fun citation => citation = str "net.txt")
               (Teacher.citations l).
Proof.
  apply (lesson_cites_upload keyword_cfg no_disk [] (str "u1") (str ".txt")
           (str "net.txt")
           (Ingest.mkReaders [] []
              (str "The network is down. Security matters."))
           None
           [Ingest.mkTopic (str "u1") (str "Network") 8 50;
            Ingest.mkTopic (str "u1") (str "Security") 8 50]
           (str "network") None);
    reflexivity.
Defined.

Lemma generate_mock_exam_marks_witness :
  Forall (fun q => QuizGen.q_marks q
                   = 100 / Z.of_nat (length [str "t1"; str "t2"; str "t3"])
                     / 2)
         (QuizGen.questions
            (QuizGen.generate_mock_exam (str "Midterm") 60 100
               [str "t1"; str "t2"; str "t3"]))
  /\ QuizGen.total
       (QuizGen.questions
          (QuizGen.generate_mock_exam (str "Midterm") 60 100
             [str "t1"; str "t2"; str "t3"]))
     <= 100
     < QuizGen.total
         (QuizGen.questions
            (QuizGen.generate_mock_exam (str "Midterm") 60 100
               [str "t1"; str "t2"; str "t3"]))
       + Z.of_nat
           (length
              (QuizGen.questions
                 (QuizGen.generate_mock_exam (str "Midterm") 60 100
                    [str "t1"; str "t2"; str "t3"])))
  /\ (QuizGen.total
        (QuizGen.questions
           (QuizGen.generate_mock_exam (str "Midterm") 60 100
              [str "t1"; str "t2"; str "t3"]))
      = 100
      <-> 100 mod Z.of_nat
                    (length
                       (QuizGen.questions
                          (QuizGen.generate_mock_exam (str "Midterm") 60 100
                             [str "t1"; str "t2"; str "t3"])))
          = 0).
Proof.
  apply (generate_mock_exam_marks (str "Midterm") 60 100
           [str "t1"; str "t2"; str "t3"]).
  discriminate.
Defined.

Lemma grade_submission_answers_witness :
  length (Evaluator.answers Sitting.marked)
  = length (matched (QuizGen.questions Sitting.midterm) Sitting.sheet)
  /\ forall n a q,
      nth_error (matched (QuizGen.questions Sitting.midterm) Sitting.sheet) n
      = Some (a, q) ->
      nth_error (Evaluator.answers Sitting.marked) n
      = Some (Evaluator.mkGraded (QuizGen.q_id q) (Evaluator.get_answer a)
                (Evaluator.marksAwarded
                   (Evaluator.llm_grading (Sitting.examiner n) q))
                (Evaluator.feedback
                   (Evaluator.llm_grading (Sitting.examiner n) q))).
Proof.
  apply (grade_submission_answers Sitting.examiner
           (QuizGen.questions Sitting.midterm) Sitting.sheet Sitting.marked).
  vm_compute. reflexivity.
Defined.

Lemma grade_submission_breakdown_witness :
  List.NoDup (map fst (Evaluator.topicBreakdown Sitting.marked))
  /\ forall topic_id,
      breakdown_of topic_id (Evaluator.topicBreakdown Sitting.marked)
      = tally (on_topic topic_id
                 (combine (Evaluator.answers Sitting.marked)
                    (map snd (matched (QuizGen.questions Sitting.midterm)
                                      Sitting.sheet)))).
Proof.
  apply (grade_submission_breakdown Sitting.examiner
           (QuizGen.questions Sitting.midterm) Sitting.sheet Sitting.marked).
  vm_compute. reflexivity.
Defined.

Lemma add_documents_no_chunks_witness :
  rag_after (add_documents faiss_cfg two_docs no_disk [] (str "a.txt") None)
  = two_docs
  /\ (if FAISS_AVAILABLE faiss_cfg
      then returned (add_documents faiss_cfg two_docs no_disk []
                                   (str "a.txt") None)
           = Raises (match index two_docs with
                     | None => IndexError
                     | Some _ => ValueError
                     end)
           /\ disk_after (add_documents faiss_cfg two_docs no_disk []
                                        (str "a.txt") None)
              = no_disk
      else returned (add_documents faiss_cfg two_docs no_disk []
                                   (str "a.txt") None)
           = Returns []
           /\ disk_after (add_documents faiss_cfg two_docs no_disk []
                                        (str "a.txt") None)
              = mkDisk (index_file no_disk)
                       (Some (Readable (metadata two_docs))))
  /\ (RecursiveCharacterTextSplitter faiss_cfg = None
      -> ([] : list pystr) = []).
Proof.
  apply (add_documents_no_chunks faiss_cfg two_docs no_disk []
           (str "a.txt") None);
    reflexivity.
Defined.

Lemma add_documents_durable_witness :
  init keyword_cfg (disk_after bio) = rag_after bio.
Proof.
  apply (add_documents_durable keyword_cfg (init keyword_cfg no_disk)
           no_disk bio_texts (str "bio.txt") None
           [str "vec_0"; str "vec_1"]).
  - vm_compute. reflexivity.
  - right. reflexivity.
Defined.

End ConcreteMore.
